(** * The on_load forbidden-global analysis of tests/test_on_load_globals.py

    A shallow embedding of the Lua scanner ([LuaParser]), the call-chain
    tracer ([trace_call_chain]) and the driver ([check_on_load_globals]),
    together with the helpers of tests/conftest.py and the line checkers
    that use them ([check_game_print_usage], the two [check_global_usage]
    and [check_require_placement]).

    Modelling conventions.
    - A Python [str] is a [string]; its characters are code points below
      256 (the type [ascii] read as a code point).  The character classes
      of the [re] module are those of Python 3 for [str] patterns.
    - A Python [int] that may become negative is a [Z]; line numbers and
      indices that never do are [nat].
    - A [dict] is an association list with Python's insertion order
      ([dict_set]); a [set] is a duplicate-free list in insertion order.
      The iteration order of a Python set is unspecified: the general
      theorems about outputs speak of membership and counts only, and the
      outputs evaluated on examples hold one diagnostic or equal ones.
    - A raised exception is the [Raise] outcome of [outcome].
    - A file that cannot be opened, read or decoded has no text ([None]);
      the corpus is the same at each of the reads of one run.
    - Iterating over the lines of a file is a [reading]: the lines
      yielded, each with its line break, and the text of the exception
      when the iteration raises before the end.
    - The tree under the project root is a [directory] as [os.walk] lists
      it, and a path of [find_lua_files] is the list of its parts. *)

From Stdlib Require Import List String Ascii ZArith Lia Bool Arith PeanoNat
  Permutation Sorted DecimalString.
Import ListNotations.
Local Open Scope string_scope.
Local Open Scope list_scope.
Local Open Scope nat_scope.

(** ** Characters and Python string primitives *)

Module Py.

Definition code (c : ascii) : nat := nat_of_ascii c.

Definition between (lo hi n : nat) : bool := (lo <=? n) && (n <=? hi).

(** [\w] of a [str] pattern: alphanumeric code points and the underscore. *)
Definition is_word (c : ascii) : bool :=
  let n := code c in
  between 48 57 n || between 65 90 n || (n =? 95) || between 97 122 n
  || (n =? 170) || between 178 179 n || (n =? 181) || between 185 186 n
  || between 188 190 n || between 192 214 n || between 216 246 n
  || between 248 255 n.

(** [\s] of a [str] pattern. *)
Definition is_space (c : ascii) : bool :=
  let n := code c in
  between 9 13 n || between 28 32 n || (n =? 133) || (n =? 160).

Definition newline : ascii := ascii_of_nat 10.
Definition backslash : ascii := ascii_of_nat 92.
Definition dquote : ascii := ascii_of_nat 34.
Definition squote : ascii := ascii_of_nat 39.

Definition is_newline (c : ascii) : bool := Ascii.eqb c newline.

(** [s.split('\n')]: never empty, a trailing newline gives a last empty
    line. *)
Fixpoint split_lines (s : string) : list string :=
  match s with
  | EmptyString => [EmptyString]
  | String c s' =>
      if is_newline c then EmptyString :: split_lines s'
      else match split_lines s' with
           | h :: t => String c h :: t
           | [] => [String c EmptyString]
           end
  end.

(** ['\n'.join(ls)]. *)
Fixpoint join_lines (ls : list string) : string :=
  match ls with
  | [] => EmptyString
  | [l] => l
  | l :: rest => (l ++ String newline (join_lines rest))%string
  end.

(** [s[:n]]. *)
Fixpoint take (n : nat) (s : string) : string :=
  match n, s with
  | S n', String c s' => String c (take n' s')
  | _, _ => EmptyString
  end.

(** [s[i]] for an index in range. *)
Definition char_at (s : string) (i : nat) : option ascii := String.get i s.

(** [s.startswith(t)]. *)
Fixpoint startswith (t s : string) : bool :=
  match t, s with
  | EmptyString, _ => true
  | String a t', String b s' => Ascii.eqb a b && startswith t' s'
  | String _ _, EmptyString => false
  end.

(** [s.find(t)]: the lowest index at which [t] occurs, or -1. *)
Fixpoint find_from (t s : string) (i : nat) : Z :=
  if startswith t s then Z.of_nat i
  else match s with
       | EmptyString => (-1)%Z
       | String _ s' => find_from t s' (S i)
       end.

Definition find (s t : string) : Z := find_from t s 0.

(** [t in s]. *)
Definition contains (s t : string) : bool := negb (find s t =? -1)%Z.

(** [x in xs] for a list or set of strings. *)
Definition mem (x : string) (xs : list string) : bool :=
  existsb (String.eqb x) xs.

(** Dictionaries in insertion order. *)
Section Dict.
Context {V : Type}.

Fixpoint dict_set (d : list (string * V)) (k : string) (v : V)
  : list (string * V) :=
  match d with
  | [] => [(k, v)]
  | (k', v') :: d' =>
      if String.eqb k k' then (k', v) :: d'
      else (k', v') :: dict_set d' k v
  end.

Fixpoint dict_get (d : list (string * V)) (k : string) : option V :=
  match d with
  | [] => None
  | (k', v') :: d' => if String.eqb k k' then Some v' else dict_get d' k
  end.

Definition dict_keys (d : list (string * V)) : list string := map fst d.

Definition dict_has (d : list (string * V)) (k : string) : bool :=
  mem k (dict_keys d).
End Dict.

End Py.

(** ** A backtracking matcher for the patterns of the source

    The patterns of the source use literals, the classes [\w], [\s] and
    [.], greedy and lazy repetition of one class, optional groups,
    ordered alternation, capturing groups and the word boundary [\b].
    [exec] is the backtracking search of Python's [re] for this fragment,
    in continuation-passing style: the first way to reach the end of the
    pattern, alternatives tried in order, greedy repetitions longest
    first, lazy ones shortest first. *)

Module Re.

Inductive regex : Type :=
| Lit (s : string)                       (* the characters of [s] *)
| Cls (p : ascii -> bool)                (* one character of a class *)
| Rep (min : nat) (p : ascii -> bool)    (* [p*] (min 0), [p+] (min 1) *)
| RepLazy (p : ascii -> bool)            (* [p*?] *)
| Seq (r1 r2 : regex)
| Alt (r1 r2 : regex)
| Opt (r : regex)                        (* [(?:r)?] *)
| Grp (n : nat) (r : regex)              (* capturing group number [n] *)
| Bnd.                                   (* [\b] *)

(** A position in the subject: the index, the character before it, the
    text from it on, and the groups closed so far. *)
Record cursor : Type := mkCursor {
  pos : nat;
  prev : option ascii;
  rest : string;
  caps : list (nat * (nat * nat))
}.

Definition advance (c : cursor) (a : ascii) (s : string) : cursor :=
  mkCursor (S (pos c)) (Some a) s (caps c).

Definition word_before (c : cursor) : bool :=
  match prev c with Some a => Py.is_word a | None => false end.

Definition word_after (c : cursor) : bool :=
  match rest c with String a _ => Py.is_word a | EmptyString => false end.

Fixpoint lit (s : string) (c : cursor) : option cursor :=
  match s with
  | EmptyString => Some c
  | String a s' =>
      match rest c with
      | String b t => if Ascii.eqb a b then lit s' (advance c b t) else None
      | EmptyString => None
      end
  end.

Definition orelse {A} (x y : option A) : option A :=
  match x with Some _ => x | None => y end.

(** Greedy repetition: as many characters as possible, giving them back
    one at a time while the continuation fails. *)
Fixpoint rep (p : ascii -> bool) (min : nat) (t : string) (c : cursor)
  (k : cursor -> option cursor) {struct t} : option cursor :=
  let stop := if min =? 0 then k c else None in
  match t with
  | String a t' =>
      if p a then orelse (rep p (Nat.pred min) t' (advance c a t') k) stop
      else stop
  | EmptyString => stop
  end.

(** Lazy repetition: as few characters as possible. *)
Fixpoint rep_lazy (p : ascii -> bool) (t : string) (c : cursor)
  (k : cursor -> option cursor) {struct t} : option cursor :=
  match k c with
  | Some r => Some r
  | None =>
      match t with
      | String a t' => if p a then rep_lazy p t' (advance c a t') k else None
      | EmptyString => None
      end
  end.

Fixpoint exec (r : regex) (c : cursor) (k : cursor -> option cursor)
  : option cursor :=
  match r with
  | Lit s => match lit s c with Some c' => k c' | None => None end
  | Cls p =>
      match rest c with
      | String a t => if p a then k (advance c a t) else None
      | EmptyString => None
      end
  | Rep min p => rep p min (rest c) c k
  | RepLazy p => rep_lazy p (rest c) c k
  | Seq r1 r2 => exec r1 c (fun c' => exec r2 c' k)
  | Alt r1 r2 => orelse (exec r1 c k) (exec r2 c k)
  | Opt r1 => orelse (exec r1 c k) (k c)
  | Grp n r1 =>
      exec r1 c (fun c' =>
        k (mkCursor (pos c') (prev c') (rest c')
             ((n, (pos c, pos c')) :: caps c')))
  | Bnd => if xorb (word_before c) (word_after c) then k c else None
  end.

(** A match object: [start()], [end()] and the spans of its groups. *)
Record rmatch : Type := mkMatch {
  m_start : nat;
  m_end : nat;
  m_groups : list (nat * (nat * nat))
}.

Definition match_at (r : regex) (i : nat) (pv : option ascii) (t : string)
  : option rmatch :=
  match exec r (mkCursor i pv t []) Some with
  | Some c => Some (mkMatch i (pos c) (caps c))
  | None => None
  end.

(** [re.finditer]: matches from left to right, each search resuming at
    the end of the previous match.  [skip] counts the characters of the
    previous match still to step over.  Every pattern of the source
    consumes at least one character. *)
Fixpoint finditer_from (r : regex) (skip i : nat) (pv : option ascii)
  (t : string) {struct t} : list rmatch :=
  let here := if skip =? 0 then match_at r i pv t else None in
  let skip' := match here with
               | Some m => m_end m - i
               | None => skip
               end in
  let found := match here with Some m => [m] | None => [] end in
  match t with
  | EmptyString => found
  | String a t' => found ++ finditer_from r (Nat.pred skip') (S i) (Some a) t'
  end.

Definition finditer (r : regex) (s : string) : list rmatch :=
  finditer_from r 0 0 None s.

(** [len(re.findall(r, s))] for a pattern without groups. *)
Definition count (r : regex) (s : string) : nat :=
  List.length (finditer r s).

(** [re.search]: the leftmost match. *)
Definition search (r : regex) (s : string) : option rmatch :=
  match finditer r s with
  | m :: _ => Some m
  | [] => None
  end.

(** [m.group(n)] on subject [s]; [None] when the group took no part. *)
Fixpoint span_of (n : nat) (g : list (nat * (nat * nat)))
  : option (nat * nat) :=
  match g with
  | [] => None
  | (n', sp) :: g' => if n =? n' then Some sp else span_of n g'
  end.

Definition group (s : string) (m : rmatch) (n : nat) : option string :=
  match span_of n (m_groups m) with
  | Some (a, b) => Some (String.substring a (b - a) s)
  | None => None
  end.

(** The classes and shorthands of the source's patterns. *)
Definition w : ascii -> bool := Py.is_word.
Definition sp : ascii -> bool := Py.is_space.
Definition dot : ascii -> bool := fun c => negb (Py.is_newline c).
Definition dot_all : ascii -> bool := fun _ => true.

(** [\w+(?:\.\w+)?] *)
Definition name : regex := Seq (Rep 1 w) (Opt (Seq (Lit ".") (Rep 1 w))).

End Re.

Infix "+++" := Re.Seq (at level 60, right associativity).

(** ** Outcomes of code that may raise *)

Inductive exn : Type := IndexError.

Inductive outcome (A : Type) : Type :=
| Return (a : A)
| Raise (e : exn).
Arguments Return {A} a.
Arguments Raise {A} e.

Definition bind {A B} (x : outcome A) (f : A -> outcome B) : outcome B :=
  match x with
  | Return a => f a
  | Raise e => Raise e
  end.

Notation "x <- c ;; k" := (bind c (fun x => k))
  (at level 61, c at next level, right associativity).

(** ** conftest.py *)

(** The body shared by the two in-string scanners: the effect of the
    character at index [i] on [(in_single, in_double)]. *)
Definition quote_step (line : string) (st : bool * bool) (i : nat)
  : bool * bool :=
  let '(in_single, in_double) := st in
  let prev_not_backslash :=
    (i =? 0) ||
    match Py.char_at line (i - 1) with
    | Some b => negb (Ascii.eqb b Py.backslash)
    | None => true
    end in
  match Py.char_at line i with
  | Some char =>
      if Ascii.eqb char Py.dquote && negb in_single && prev_not_backslash
      then (in_single, negb in_double)
      else if Ascii.eqb char Py.squote && negb in_double && prev_not_backslash
      then (negb in_single, in_double)
      else st
  | None => st
  end.

(** [while i < position and i < len(line)]: one unit of fuel per turn. *)
Fixpoint is_in_string_literal_loop (fuel : nat) (line : string)
  (position : Z) (i : nat) (st : bool * bool) : bool * bool :=
  match fuel with
  | O => st
  | S fuel' =>
      if (Z.of_nat i <? position)%Z && (i <? String.length line)
      then is_in_string_literal_loop fuel' line position (S i)
             (quote_step line st i)
      else st
  end.

Definition is_in_string_literal (line : string) (position : Z) : bool :=
  let '(in_single, in_double) :=
    is_in_string_literal_loop (String.length line) line position 0
      (false, false) in
  in_single || in_double.

(** ** class LuaParser *)

Record LuaParser : Type := mkLuaParser {
  content : string;
  lines : list string
}.

(** [LuaParser.__init__] *)
Definition LuaParser_init (content : string) : LuaParser :=
  mkLuaParser content (Py.split_lines content).

(** [for i in range(min(pos, len(line)))] *)
Definition _is_in_string (line : string) (pos : Z) : bool :=
  let n := Z.to_nat (Z.min pos (Z.of_nat (String.length line))) in
  let '(in_single, in_double) :=
    fold_left (quote_step line) (seq 0 n) (false, false) in
  in_single || in_double.

Definition _line_pos_to_absolute (self : LuaParser) (line_num pos : nat)
  : nat :=
  list_sum (map (fun line => String.length line + 1)
              (firstn line_num (lines self))) + pos.

(** [self.lines[line_num]] for an index the caller keeps in range. *)
Definition line_at (self : LuaParser) (line_num : nat) : string :=
  nth line_num (lines self) EmptyString.

Definition _is_in_comment (self : LuaParser) (line_num pos : nat) : bool :=
  let line := line_at self line_num in
  let comment_start := Py.find line "--" in
  if negb (comment_start =? -1)%Z && (comment_start <=? Z.of_nat pos)%Z
     && negb (_is_in_string line comment_start)
  then true
  else
    let before_pos :=
      Py.take (_line_pos_to_absolute self line_num pos) (content self) in
    let multiline_starts := Re.count (Re.Lit "--[[") before_pos in
    let multiline_ends := Re.count (Re.Lit "]]") before_pos in
    multiline_ends <? multiline_starts.

(** [enumerate(xs)] *)
Definition enumerate {A} (xs : list A) : list (nat * A) :=
  combine (seq 0 (List.length xs)) xs.

(** [(?:local\s+)?(?:function\s+(\w+(?:\.\w+)?)|(\w+(?:\.\w+)?)\s*=\s*function)\s*\(] *)
Definition definition_pattern : Re.regex :=
  Re.Opt (Re.Lit "local" +++ Re.Rep 1 Re.sp) +++
  Re.Alt (Re.Lit "function" +++ Re.Rep 1 Re.sp +++ Re.Grp 1 Re.name)
         (Re.Grp 2 Re.name +++ Re.Rep 0 Re.sp +++ Re.Lit "=" +++
          Re.Rep 0 Re.sp +++ Re.Lit "function") +++
  Re.Rep 0 Re.sp +++ Re.Lit "(".

(** [match.group(1) or match.group(2)] *)
Definition group_1_or_2 (subject : string) (m : Re.rmatch) : option string :=
  match Re.group subject m 1 with
  | Some (String a g) => Some (String a g)
  | _ => Re.group subject m 2
  end.

Definition find_function_definitions (self : LuaParser)
  : list (string * nat) :=
  fold_left
    (fun functions '(line_num, line) =>
       if _is_in_comment self line_num 0 then functions
       else
         fold_left
           (fun functions m =>
              if negb (_is_in_string line (Z.of_nat (Re.m_start m))) then
                match group_1_or_2 line m with
                | Some func_name => Py.dict_set functions func_name (line_num + 1)
                | None => functions
                end
              else functions)
           (Re.finditer definition_pattern line) functions)
    (enumerate (lines self)) [].

(** [script\.on_load\s*\(\s*function\s*\(\s*\)(.*?)end\s*\)] with
    [re.DOTALL] *)
Definition on_load_pattern : Re.regex :=
  Re.Lit "script.on_load" +++ Re.Rep 0 Re.sp +++ Re.Lit "(" +++
  Re.Rep 0 Re.sp +++ Re.Lit "function" +++ Re.Rep 0 Re.sp +++ Re.Lit "(" +++
  Re.Rep 0 Re.sp +++ Re.Lit ")" +++ Re.Grp 1 (Re.RepLazy Re.dot_all) +++
  Re.Lit "end" +++ Re.Rep 0 Re.sp +++ Re.Lit ")".

(** [(\w+(?:\.\w+)?)\s*\(] *)
Definition call_pattern : Re.regex :=
  Re.Grp 1 Re.name +++ Re.Rep 0 Re.sp +++ Re.Lit "(".

(** The first groups of the matches of [call_pattern] in [text]. *)
Definition call_names (text : string) : list string :=
  flat_map (fun m => match Re.group text m 1 with
                     | Some func_name => [func_name]
                     | None => []
                     end)
    (Re.finditer call_pattern text).

Definition find_on_load_functions (self : LuaParser) : option (list string) :=
  match Re.search on_load_pattern (content self) with
  | None => None
  | Some m =>
      match Re.group (content self) m 1 with
      | None => None
      | Some on_load_body =>
          Some (filter (fun func_name => negb (String.eqb func_name "script"))
                  (call_names on_load_body))
      end
  end.

(** [(?:local\s+)?(?:function\s+NAME|NAME\s*=\s*function)\s*\(] with the
    escaped [function_name] for [NAME] *)
Definition func_pattern (function_name : string) : Re.regex :=
  Re.Opt (Re.Lit "local" +++ Re.Rep 1 Re.sp) +++
  Re.Alt (Re.Lit "function" +++ Re.Rep 1 Re.sp +++ Re.Lit function_name)
         (Re.Lit function_name +++ Re.Rep 0 Re.sp +++ Re.Lit "=" +++
          Re.Rep 0 Re.sp +++ Re.Lit "function") +++
  Re.Rep 0 Re.sp +++ Re.Lit "(".

Definition matches (r : Re.regex) (line : string) : bool :=
  match Re.search r line with Some _ => true | None => false end.

(** The test of the search for [start_pos] on one line. *)
Definition defines_here (self : LuaParser) (function_name : string)
  (line_num : nat) (line : string) : bool :=
  matches (func_pattern function_name) line
  && negb (_is_in_comment self line_num 0).

(** The search for [start_pos]: the loop stops at the first line that
    matches the pattern and does not start in a comment. *)
Fixpoint find_function_start_loop (self : LuaParser) (function_name : string)
  (numbered : list (nat * string)) : option nat :=
  match numbered with
  | [] => None
  | (line_num, line) :: more =>
      if defines_here self function_name line_num line then Some line_num
      else find_function_start_loop self function_name more
  end.

Definition find_function_start (self : LuaParser) (function_name : string)
  : option nat :=
  find_function_start_loop self function_name (enumerate (lines self)).

(** [\bfunction\b] and [\bend\b] *)
Definition function_keyword : Re.regex := Re.Bnd +++ Re.Lit "function" +++ Re.Bnd.
Definition end_keyword : Re.regex := Re.Bnd +++ Re.Lit "end" +++ Re.Bnd.

(** What one line adds to a depth counter. *)
Definition depth_delta (line : string) : Z :=
  (Z.of_nat (Re.count function_keyword line)
   - Z.of_nat (Re.count end_keyword line))%Z.

(** The loop that looks for [end_pos], over the line numbers
    [range(start_pos, len(self.lines))] still to visit; it falls back on
    [len(self.lines)].  The source has this loop twice, word for word, in
    [find_function_calls] and in [check_forbidden_globals]. *)
Fixpoint find_function_end_loop (self : LuaParser) (start_pos : nat)
  (line_nums : list nat) (depth : Z) : nat :=
  match line_nums with
  | [] => List.length (lines self)
  | line_num :: more =>
      let line := line_at self line_num in
      if _is_in_comment self line_num 0
      then find_function_end_loop self start_pos more depth
      else
        let depth := (depth + depth_delta line)%Z in
        if (depth =? 0)%Z && (start_pos <? line_num) then line_num
        else find_function_end_loop self start_pos more depth
  end.

(** [range(a, b)] *)
Definition range (a b : nat) : list nat := seq a (b - a).

Definition find_function_end (self : LuaParser) (start_pos : nat) : nat :=
  find_function_end_loop self start_pos
    (range start_pos (List.length (lines self))) 0.

(** [xs[a:b]] *)
Definition slice {A} (xs : list A) (a b : nat) : list A :=
  firstn (b - a) (skipn a xs).

Definition find_function_calls (self : LuaParser) (function_name : string)
  : list string :=
  match find_function_start self function_name with
  | None => []
  | Some start_pos =>
      let end_pos := find_function_end self start_pos in
      let function_body :=
        Py.join_lines (slice (lines self) start_pos (end_pos + 1)) in
      filter (fun func_name =>
                negb (Py.mem func_name ["function"; "if"; "for"; "while"]))
        (call_names function_body)
  end.

(** ** Forbidden globals *)

Definition FORBIDDEN_ON_LOAD_GLOBALS : list string := ["game"; "rendering"].

(** The messages of the diagnostics, kept apart from their text. *)
Inductive message : Type :=
| ControlNotFound
| FailedToParse
| HandlerNotFound
| ForbiddenGlobal (function_name global_name : string).

(** The text of a message; after [FailedToParse] the source appends the
    text of the exception it caught. *)
Definition render (m : message) : string :=
  match m with
  | ControlNotFound => "control.lua not found"
  | FailedToParse => "Failed to parse control.lua: "
  | HandlerNotFound => "on_load handler not found"
  | ForbiddenGlobal function_name global_name =>
      "Function '" ++ function_name ++ "' accesses forbidden global '"
        ++ global_name ++ "' during on_load"
  end%string.

(** [in_event_handler] and [event_handler_depth] *)
Record handler_state : Type := mkHandlerState {
  in_event_handler : bool;
  event_handler_depth : Z
}.

Definition handler_init : handler_state := mkHandlerState false 0.

(** ['script.on_event' in line and 'function(' in line] *)
Definition enters_event_handler (line : string) : bool :=
  Py.contains line "script.on_event" && Py.contains line "function(".

(** The handler bookkeeping of one line that is not skipped as a comment:
    the state after the line, and whether the line reaches the check for
    forbidden globals. *)
Definition handler_step (start_pos line_num : nat) (line : string)
  (st : handler_state) : handler_state * bool :=
  let st :=
    if enters_event_handler line then mkHandlerState true 0 else st in
  if in_event_handler st then
    let depth := (event_handler_depth st + depth_delta line)%Z in
    if (depth <=? 0)%Z && (start_pos <? line_num)
    then (mkHandlerState false depth, false)
    else (mkHandlerState true depth, false)
  else (st, true).

(** [\b{global_name}\s*\.] *)
Definition global_pattern (global_name : string) : Re.regex :=
  Re.Bnd +++ Re.Lit global_name +++ Re.Rep 0 Re.sp +++ Re.Lit ".".

(** The matches of one forbidden global on one line that do not start in
    a string. *)
Definition global_accesses (global_name line : string) : list Re.rmatch :=
  filter (fun m => negb (_is_in_string line (Z.of_nat (Re.m_start m))))
    (Re.finditer (global_pattern global_name) line).

(** The errors appended for one checked line. *)
Definition forbidden_accesses (function_name : string) (line_num : nat)
  (line : string) : list (nat * message) :=
  flat_map
    (fun global_name =>
       map (fun _ => (line_num + 1, ForbiddenGlobal function_name global_name))
         (global_accesses global_name line))
    FORBIDDEN_ON_LOAD_GLOBALS.

(** [self.lines[line_num]] *)
Definition get_line (self : LuaParser) (line_num : nat) : outcome string :=
  match nth_error (lines self) line_num with
  | Some line => Return line
  | None => Raise IndexError
  end.

(** [for line_num in range(start_pos, end_pos + 1)] *)
Fixpoint check_lines (self : LuaParser) (function_name : string)
  (start_pos : nat) (line_nums : list nat) (st : handler_state)
  : outcome (list (nat * message)) :=
  match line_nums with
  | [] => Return []
  | line_num :: more =>
      line <- get_line self line_num ;;
      if _is_in_comment self line_num 0
      then check_lines self function_name start_pos more st
      else
        let '(st', checked) := handler_step start_pos line_num line st in
        errors <- check_lines self function_name start_pos more st' ;;
        Return ((if checked
                 then forbidden_accesses function_name line_num line
                 else []) ++ errors)
  end.

Definition check_forbidden_globals (self : LuaParser) (function_name : string)
  : outcome (list (nat * message)) :=
  match find_function_start self function_name with
  | None => Return []
  | Some start_pos =>
      let end_pos := find_function_end self start_pos in
      check_lines self function_name start_pos
        (range start_pos (end_pos + 1)) handler_init
  end.

(** ** The corpus

    A file of the corpus is its path with its text, or with [None] when
    opening, reading or decoding it raises. *)

Definition lua_file : Type := string * option string.

(** [Path.name]: the last component of the path. *)
Fixpoint path_name (path : string) : string :=
  match path with
  | EmptyString => EmptyString
  | String c rest =>
      if Ascii.eqb c "/" then path_name rest
      else if Py.contains rest "/" then path_name rest
      else path
  end.

(** ** trace_call_chain *)

(** The first loop: the parsers and the function index.  A file that
    cannot be read is skipped ([except Exception: continue]). *)
Definition index_file
  (acc : list (string * LuaParser) * list (string * string))
  (file : lua_file) : list (string * LuaParser) * list (string * string) :=
  let '(parsers, all_functions) := acc in
  match snd file with
  | None => acc
  | Some text =>
      let parser := LuaParser_init text in
      let functions := find_function_definitions parser in
      (Py.dict_set parsers (fst file) parser,
       fold_left (fun all func_name => Py.dict_set all func_name (fst file))
         (Py.dict_keys functions) all_functions)
  end.

Definition index_files (lua_files : list lua_file)
  : list (string * LuaParser) * list (string * string) :=
  fold_left index_file lua_files ([], []).

Section Trace.
Variable parsers : list (string * LuaParser).
Variable all_functions : list (string * string).

(** The calls added to [to_visit] when [func_name] is visited. *)
Definition calls_of (func_name : string) : list string :=
  match Py.dict_get all_functions func_name with
  | Some file =>
      match Py.dict_get parsers file with
      | Some parser => find_function_calls parser func_name
      | None => []
      end
  | None => []
  end.

(** [while to_visit:], one unit of fuel per turn. *)
Fixpoint trace_loop (fuel : nat) (visited to_visit : list string)
  : list string :=
  match fuel, to_visit with
  | _, [] => visited
  | O, _ => visited
  | S fuel', func_name :: to_visit' =>
      if Py.mem func_name visited
         || negb (Py.dict_has all_functions func_name)
      then trace_loop fuel' visited to_visit'
      else trace_loop fuel' (visited ++ [func_name])
             (to_visit' ++ calls_of func_name)
  end.

(** The executions of the loop, as a relation: from [visited] and
    [to_visit] the loop ends with the last argument. *)
Inductive traces : list string -> list string -> list string -> Prop :=
| traces_done visited :
    traces visited [] visited
| traces_skip visited func_name to_visit result :
    Py.mem func_name visited
      || negb (Py.dict_has all_functions func_name) = true ->
    traces visited to_visit result ->
    traces visited (func_name :: to_visit) result
| traces_visit visited func_name to_visit result :
    Py.mem func_name visited
      || negb (Py.dict_has all_functions func_name) = false ->
    traces (visited ++ [func_name]) (to_visit ++ calls_of func_name) result ->
    traces visited (func_name :: to_visit) result.

(** The turns that visiting [func_name] costs: its own and one for each
    call it adds to the queue. *)
Definition cost (func_name : string) : nat :=
  S (List.length (calls_of func_name)).

Definition unvisited (visited : list string) (names : list string)
  : list string :=
  filter (fun func_name => negb (Py.mem func_name visited)) names.

(** A bound on the turns left: the queue, and the cost of each indexed
    name not yet visited. *)
Definition turns_left (visited to_visit : list string) : nat :=
  List.length to_visit
  + list_sum (map cost (unvisited visited (Py.dict_keys all_functions))).
End Trace.

Definition trace_call_chain (initial_functions : list string)
  (lua_files : list lua_file) : list string :=
  let '(parsers, all_functions) := index_files lua_files in
  trace_loop parsers all_functions
    (turns_left parsers all_functions [] initial_functions)
    [] initial_functions.

(** The function index built by [trace_call_chain]: the second component
    of [index_files]. *)
Definition function_index (lua_files : list lua_file)
  : list (string * string) := snd (index_files lua_files).

(** ** check_on_load_globals *)

Definition diagnostic : Type := string * nat * message.

(** The second loading loop of the driver. *)
Definition load_parsers (lua_files : list lua_file)
  : list (string * LuaParser) :=
  fold_left
    (fun parsers (file : lua_file) =>
       match snd file with
       | Some text => Py.dict_set parsers (fst file) (LuaParser_init text)
       | None => parsers
       end)
    lua_files [].

(** A loop that appends what each turn yields; a raise leaves the loop. *)
Fixpoint for_each {A B} (xs : list A) (body : A -> outcome (list B))
  : outcome (list B) :=
  match xs with
  | [] => Return []
  | x :: more =>
      here <- body x ;;
      later <- for_each more body ;;
      Return (here ++ later)
  end.

Definition check_function (parsers : list (string * LuaParser))
  (func_name : string) : outcome (list diagnostic) :=
  for_each parsers
    (fun '(file, parser) =>
       func_errors <- check_forbidden_globals parser func_name ;;
       Return (map (fun '(line_num, error_msg) => (file, line_num, error_msg))
                 func_errors)).

Definition find_control_lua (lua_files : list lua_file) : option lua_file :=
  List.find (fun file => String.eqb (path_name (fst file)) "control.lua")
    lua_files.

Definition check_on_load_globals (lua_files : list lua_file)
  : outcome (list diagnostic) :=
  match find_control_lua lua_files with
  | None => Return [("control.lua", 0, ControlNotFound)]
  | Some (_, None) => Return [("control.lua", 0, FailedToParse)]
  | Some (_, Some text) =>
      match find_on_load_functions (LuaParser_init text) with
      | None | Some [] => Return [("control.lua", 0, HandlerNotFound)]
      | Some on_load_functions =>
          let all_on_load_functions :=
            trace_call_chain on_load_functions lua_files in
          for_each all_on_load_functions
            (check_function (load_parsers lua_files))
      end
  end.

(** ** Reference scanners for the in-string test *)

Definition is_backslash (c : ascii) : bool := Ascii.eqb c Py.backslash.

(** What one character does to [(in_single, in_double)] when quotes are
    switched off ([quiet]) or not. *)
Definition quote_toggle (quiet : bool) (char : ascii) (st : bool * bool)
  : bool * bool :=
  let '(in_single, in_double) := st in
  if Ascii.eqb char Py.dquote && negb in_single && negb quiet
  then (in_single, negb in_double)
  else if Ascii.eqb char Py.squote && negb in_double && negb quiet
  then (negb in_single, in_double)
  else st.

(** Left to right, a quote is quiet when the character right before it is
    a backslash, whatever stands before that backslash. *)
Fixpoint quotes_after_backslash (after_backslash : bool) (st : bool * bool)
  (text : string) : bool * bool :=
  match text with
  | EmptyString => st
  | String c text' =>
      quotes_after_backslash (is_backslash c)
        (quote_toggle after_backslash c st) text'
  end.

Definition in_string_after_backslash (line : string) (pos : Z) : bool :=
  let '(in_single, in_double) :=
    quotes_after_backslash false (false, false)
      (Py.take (Z.to_nat pos) line) in
  in_single || in_double.

(** The backslashes that stand in a row right before index [i]. *)
Fixpoint backslashes_before (line : string) (i : nat) : nat :=
  match i with
  | O => 0
  | S j =>
      match Py.char_at line j with
      | Some c => if is_backslash c then S (backslashes_before line j) else 0
      | None => 0
      end
  end.

(** The character before index [i] is an unescaped backslash: the row of
    backslashes that ends there has odd length. *)
Definition after_unescaped_backslash (line : string) (i : nat) : bool :=
  Nat.odd (backslashes_before line i).

(** The in-string test in the words of the specification: a quote is
    quiet when the character right before it is an unescaped backslash,
    and a backslash is unescaped when it does not itself follow an
    unescaped backslash. *)
Fixpoint quotes_after_unescaped (escaping : bool) (st : bool * bool)
  (text : string) : bool * bool :=
  match text with
  | EmptyString => st
  | String c text' =>
      quotes_after_unescaped (is_backslash c && negb escaping)
        (quote_toggle escaping c st) text'
  end.

Definition in_string_as_specified (line : string) (pos : Z) : bool :=
  let '(in_single, in_double) :=
    quotes_after_unescaped false (false, false)
      (Py.take (Z.to_nat pos) line) in
  in_single || in_double.

(** [quote_step] with the verdict on the character before index 0 given
    from outside. *)
Definition quote_step_after (after_backslash : bool) (line : string)
  (st : bool * bool) (i : nat) : bool * bool :=
  match Py.char_at line i with
  | Some char =>
      quote_toggle
        (match i with
         | O => after_backslash
         | S j => match Py.char_at line j with
                  | Some b => is_backslash b
                  | None => false
                  end
         end) char st
  | None => st
  end.

(** ** The body locator in the words of the specification *)

(** A line the locator does not skip as a comment. *)
Definition counted (self : LuaParser) (line_num : nat) : bool :=
  negb (_is_in_comment self line_num 0).

(** What the counted lines among [line_nums] add to the depth counter: for
    each, its whole-word [function] keywords minus its whole-word [end]
    keywords. *)
Definition depth_sum (self : LuaParser) (line_nums : list nat) : Z :=
  fold_right Z.add 0%Z
    (map (fun line_num => depth_delta (line_at self line_num))
       (filter (counted self) line_nums)).

(** The depth counter once the lines from [start_pos] to [line_num] have
    been read. *)
Definition depth_after (self : LuaParser) (start_pos line_num : nat) : Z :=
  depth_sum self (range start_pos (line_num + 1)).

(** [line_num] is a line after the start line, not skipped, at which the
    depth counter is back to 0. *)
Definition depth_returns_at (self : LuaParser) (start_pos line_num : nat)
  : Prop :=
  start_pos < line_num /\ line_num < List.length (lines self)
  /\ counted self line_num = true
  /\ depth_after self start_pos line_num = 0%Z.

(** The test of the search for [start_pos] at a line number. *)
Definition defines_at (self : LuaParser) (function_name : string)
  (line_num : nat) : bool :=
  defines_here self function_name line_num (line_at self line_num).

(** ** The handler flag along a body *)

(** The handler state after the lines [line_nums], comment lines left
    out, as [check_lines] threads it. *)
Fixpoint handler_run (self : LuaParser) (start_pos : nat)
  (line_nums : list nat) (st : handler_state) : handler_state :=
  match line_nums with
  | [] => st
  | line_num :: more =>
      if _is_in_comment self line_num 0
      then handler_run self start_pos more st
      else handler_run self start_pos more
             (fst (handler_step start_pos line_num (line_at self line_num) st))
  end.

(** The handler state when the scan of a body that starts at [start_pos]
    reaches [line_num]. *)
Definition handler_before (self : LuaParser) (start_pos line_num : nat)
  : handler_state :=
  handler_run self start_pos (range start_pos line_num) handler_init.

(** The handler state when the scan leaves [line_num]. *)
Definition handler_after (self : LuaParser) (start_pos line_num : nat)
  : handler_state :=
  handler_run self start_pos (range start_pos (line_num + 1)) handler_init.

(** The scan of the body from [start_pos] checks [line_num] for forbidden
    globals: the line does not start in a comment and the handler
    bookkeeping lets it through. *)
Definition line_checked (self : LuaParser) (start_pos line_num : nat) : bool :=
  negb (_is_in_comment self line_num 0)
  && snd (handler_step start_pos line_num (line_at self line_num)
            (handler_before self start_pos line_num)).

(** The errors of [check_lines] when no line is out of range. *)
Fixpoint checked_errors (self : LuaParser) (function_name : string)
  (start_pos : nat) (line_nums : list nat) (st : handler_state)
  : list (nat * message) :=
  match line_nums with
  | [] => []
  | line_num :: more =>
      if _is_in_comment self line_num 0
      then checked_errors self function_name start_pos more st
      else
        let line := line_at self line_num in
        let '(st', checked) := handler_step start_pos line_num line st in
        (if checked then forbidden_accesses function_name line_num line
         else [])
        ++ checked_errors self function_name start_pos more st'
  end.

(** [line_num] lies in the body that [check_forbidden_globals] scans for
    [function_name], and the scan checks it. *)
Definition checked_in_body (self : LuaParser) (function_name : string)
  (line_num : nat) : bool :=
  match find_function_start self function_name with
  | Some start_pos =>
      (start_pos <=? line_num)
      && (line_num <=? find_function_end self start_pos)
      && line_checked self start_pos line_num
  | None => false
  end.

(** ** Example sources *)

(** A function whose definition line registers an event handler and closes
    every block it opens, followed by a line outside the function. *)
Definition handler_on_start_line : LuaParser :=
  LuaParser_init (Py.join_lines
    ["function f() script.on_event(e, function(x) end) end";
     "game.print(1)"]).

(** [setup] registers a handler whose [function] keyword is followed by a
    blank; the handler prints through [game]. *)
Definition handler_with_blank_source : LuaParser :=
  LuaParser_init (Py.join_lines
    ["function setup()";
     "  script.on_event(defines.events.on_tick, function (e)";
     "    game.print(1)";
     "  end)";
     "end"]).

(** A line holding a double-quoted string that ends in an escaped
    backslash, then a blank and an [x]: the closing quote is at index 4. *)
Definition escaped_backslash_line : string :=
  String Py.dquote
    (String "a" (String Py.backslash (String Py.backslash
       (String Py.dquote " x")))).

(** A double-quoted string that holds an escaped double quote. *)
Definition escaped_quote_line : string :=
  String Py.dquote
    (String "a" (String Py.backslash (String Py.dquote
       (String "b" (String Py.dquote EmptyString))))).

(** [setup] registers a handler that prints through [game], then clears
    through [rendering] at top level. *)
Definition nested_handler_source : LuaParser :=
  LuaParser_init (Py.join_lines
    ["function setup()";
     "  script.on_event(defines.events.on_tick, function(e)";
     "    game.print(1)";
     "  end)";
     "  rendering.clear()";
     "end"]).

(** [f] calls itself and [g]; [g] calls [f]. *)
Definition recursive_corpus : list lua_file :=
  [("mod/control.lua",
    Some (Py.join_lines ["script.on_load(function()"; "  f()"; "end)"]));
   ("mod/a.lua",
    Some (Py.join_lines
            ["function f()"; "  f()"; "  g()"; "end";
             "function g()"; "  f()"; "end"]))].

(** An entry file whose on_load handler calls [f]; the body of [f] is
    never closed. *)
Definition unterminated_corpus : list lua_file :=
  [("control.lua",
    Some (Py.join_lines ["script.on_load(function() f() end)";
                         "function f()"]))].

(** ** Equality of diagnostics *)

Definition message_eq_dec (x y : message) : {x = y} + {x <> y}.
Proof. decide equality; apply string_dec. Defined.

Definition error_eq_dec (x y : nat * message) : {x = y} + {x <> y}.
Proof. decide equality; [apply message_eq_dec | apply Nat.eq_dec]. Defined.

Definition diagnostic_eq_dec (x y : diagnostic) : {x = y} + {x <> y}.
Proof.
  decide equality; [apply message_eq_dec|].
  decide equality; [apply Nat.eq_dec | apply string_dec].
Defined.

(** An entry file whose on_load handler calls [setup]. *)
Definition control_calls_setup : string :=
  Py.join_lines ["script.on_load(function()"; "  setup()"; "end)"].


(** [setup] is defined twice in one file. *)
Definition setup_defined_twice : LuaParser :=
  LuaParser_init (Py.join_lines
    ["function setup()"; "  game.a()"; "end";
     "function setup()"; "  rendering.b()"; "end"]).

(** [setup] reads and writes [game] on one line. *)
Definition two_accesses_on_a_line : list lua_file :=
  [("mod/control.lua", Some control_calls_setup);
   ("mod/setup.lua",
    Some (Py.join_lines ["function setup()"; "  game.x = game.y"; "end"]))].

(** Scenario A of the specification: the on_load body calls [setup], which
    is defined in another file and draws at top level. *)
Definition scenario_a : list lua_file :=
  [("mod/control.lua", Some control_calls_setup);
   ("mod/lib/setup.lua",
    Some (Py.join_lines
            ["local function setup()"; "  rendering.draw_line()"; "end"]))].

(** Scenario A with an unreadable file between the two. *)
Definition scenario_a_with_unreadable_file : list lua_file :=
  [("mod/control.lua", Some control_calls_setup);
   ("mod/bad.lua", None);
   ("mod/lib/setup.lua",
    Some (Py.join_lines
            ["local function setup()"; "  rendering.draw_line()"; "end"]))].



(** [f] mentions [g] in a comment and [h] inside a string. *)
Definition calls_in_comment_and_string : LuaParser :=
  LuaParser_init (Py.join_lines
    ["function f()"; "-- g()"; "  local s = 'h()'"; "end"]).

(** The on_load body calls [f]; [old_init] is only named in a comment of
    [f]. *)
Definition call_only_in_comment : list lua_file :=
  [("mod/control.lua",
    Some (Py.join_lines ["script.on_load(function()"; "  f()"; "end)"]));
   ("mod/a.lua",
    Some (Py.join_lines
            ["function f()"; "-- old_init()"; "end";
             "function old_init()"; "  game.print(1)"; "end"]))].

(** The body of [setup] holds a comment line that starts with blanks and
    names the word [end]. *)
Definition indented_comment_text : string :=
  Py.join_lines
    ["function setup()"; "  -- the end is near"; "  game.print(1)"; "end"].

Definition indented_comment_source : LuaParser :=
  LuaParser_init indented_comment_text.

Definition indented_comment_corpus : list lua_file :=
  [("mod/control.lua", Some control_calls_setup);
   ("mod/setup.lua", Some indented_comment_text)].

(** ** The setup claim as stated *)





(** ** Reachability in the call graph *)

Section Reach.
Variable parsers : list (string * LuaParser).
Variable all_functions : list (string * string).

(** The names the tracer is meant to find from the seeds: an indexed
    seed, or an indexed name among the calls of a name already found. *)
Inductive reachable_from (seeds : list string) : string -> Prop :=
| reach_seed func_name :
    In func_name seeds ->
    Py.dict_has all_functions func_name = true ->
    reachable_from seeds func_name
| reach_call caller func_name :
    reachable_from seeds caller ->
    In func_name (calls_of parsers all_functions caller) ->
    Py.dict_has all_functions func_name = true ->
    reachable_from seeds func_name.
End Reach.

(** ** Character tests over a string *)

(** Every character of [s] passes [p]. *)
Fixpoint all_chars (p : ascii -> bool) (s : string) : bool :=
  match s with
  | EmptyString => true
  | String c s' => p c && all_chars p s'
  end.

(** [s] holds no line break. *)
Definition one_line (s : string) : bool :=
  all_chars (fun c => negb (Py.is_newline c)) s.

(** ** The definitions a file holds *)

(** What [find_function_definitions] writes for one line, in the order of
    the matches: nothing for a line that starts in a comment, and one
    entry for each match that does not start in a string. *)
Definition line_definitions (self : LuaParser) (line_num : nat)
  (line : string) : list (string * nat) :=
  if _is_in_comment self line_num 0 then []
  else
    flat_map
      (fun m =>
         if negb (_is_in_string line (Z.of_nat (Re.m_start m))) then
           match group_1_or_2 line m with
           | Some func_name => [(func_name, line_num + 1)]
           | None => []
           end
         else [])
      (Re.finditer definition_pattern line).

(** Every definition of the file, in scan order. *)
Definition definition_sites (self : LuaParser) : list (string * nat) :=
  flat_map (fun '(line_num, line) => line_definitions self line_num line)
    (enumerate (lines self)).

(** One write to a dictionary, as a pair of a key and a value. *)
Definition write {V} (d : list (string * V)) (w : string * V)
  : list (string * V) := Py.dict_set d (fst w) (snd w).

(** ** The function index of the corpus *)

(** What the first loop of [trace_call_chain] writes into [all_functions]
    for one file: each name the file defines, with the path of the file. *)
Definition file_writes (file : lua_file) : list (string * string) :=
  match snd file with
  | None => []
  | Some text =>
      map (fun func_name => (func_name, fst file))
        (Py.dict_keys (find_function_definitions (LuaParser_init text)))
  end.

(** [func_name in LuaParser(text).find_function_definitions()] *)
Definition defines (text func_name : string) : Prop :=
  In func_name (Py.dict_keys (find_function_definitions (LuaParser_init text))).

(** ** conftest.py, the comment helpers *)

(** [s.lstrip()], [s.rstrip()] and [s.strip()]: blanks are the characters
    of [str.isspace], the class [\s]. *)
Fixpoint lstrip (s : string) : string :=
  match s with
  | EmptyString => EmptyString
  | String c s' => if Py.is_space c then lstrip s' else s
  end.

Fixpoint rstrip (s : string) : string :=
  match s with
  | EmptyString => EmptyString
  | String c s' =>
      match rstrip s' with
      | EmptyString =>
          if Py.is_space c then EmptyString else String c EmptyString
      | kept => String c kept
      end
  end.

Definition strip (s : string) : string := rstrip (lstrip s).

Definition remove_comments_from_line (line : string) : string :=
  let comment_pos := Py.find line "--" in
  if negb (comment_pos =? -1)%Z
     && negb (is_in_string_literal line comment_pos)
  then rstrip (Py.take (Z.to_nat comment_pos) line)
  else line.

Definition is_multiline_comment_start (line : string) : bool :=
  Py.contains line "--[[".

Definition is_multiline_comment_end (line : string) : bool :=
  Py.contains line "]]".

Definition is_single_line_comment (line : string) : bool :=
  Py.startswith "--" (strip line).

(** The last character of [s] is a blank. *)
Fixpoint ends_with_space (s : string) : bool :=
  match s with
  | EmptyString => false
  | String c EmptyString => Py.is_space c
  | String _ s' => ends_with_space s'
  end.

(** ** The line checkers

    [check_game_print_usage] and the two [check_global_usage] share the
    loop over the lines of a file, word for word up to the test on the
    line without its comment and the text of the message. *)

(** What iterating over a file yields: its lines, each with its line
    break, and the text of the exception when the iteration raises before
    the end (the file cannot be opened, or a part of it cannot be
    decoded). *)
Record reading : Type := mkReading {
  yielded : list string;
  raised : option string
}.

(** [read_file_lines]: [enumerate(f, 1)] *)
Definition read_file_lines (file : reading) : list (nat * string) :=
  combine (seq 1 (List.length (yielded file))) (yielded file).

(** A diagnostic of a checker: [(str(filepath), line_num, error_msg)] *)
Definition lint : Type := string * nat * string.

Definition line_of (e : lint) : nat := snd (fst e).

(** The comment bookkeeping at the head of the loop: the flag
    [in_multiline_comment] after the line, and whether the line goes on
    to the test. *)
Definition comment_step (line : string) (in_multiline_comment : bool)
  : bool * bool :=
  let stripped := strip line in
  let in_multiline_comment :=
    if is_multiline_comment_start line then true
    else in_multiline_comment in
  if in_multiline_comment then
    ((if is_multiline_comment_end line then false else in_multiline_comment),
     false)
  else if is_single_line_comment stripped then (in_multiline_comment, false)
  else (in_multiline_comment, true).

(** The loop of a checker whose test on [line_no_comments] is [found]. *)
Fixpoint check_lines_with (found : string -> bool)
  (filepath error_msg : string) (numbered : list (nat * string))
  (in_multiline_comment : bool) : list lint :=
  match numbered with
  | [] => []
  | (line_num, line) :: more =>
      let '(in_multiline_comment, scanned) :=
        comment_step line in_multiline_comment in
      (if scanned && found (remove_comments_from_line line)
       then [(filepath, line_num, error_msg)]
       else [])
      ++ check_lines_with found filepath error_msg more in_multiline_comment
  end.

(** [except Exception as e]: the error appended when the iteration
    raises. *)
Definition failed_to_read (filepath : string) (file : reading) : list lint :=
  match raised file with
  | Some e => [(filepath, 0, "Failed to read file: " ++ e)%string]
  | None => []
  end.

(** The body of a checker. *)
Definition check_file_with (found : string -> bool)
  (filepath error_msg : string) (file : reading) : list lint :=
  check_lines_with found filepath error_msg (read_file_lines file) false
  ++ failed_to_read filepath file.

(** [\bgame\.print\s*\(] *)
Definition game_print_pattern : Re.regex :=
  Re.Bnd +++ Re.Lit "game.print" +++ Re.Rep 0 Re.sp +++ Re.Lit "(".

(** The test of [check_game_print_usage]: the first match of the pattern
    does not start in a string. *)
Definition uses_game_print (line_no_comments : string) : bool :=
  match Re.search game_print_pattern line_no_comments with
  | Some m =>
      negb (is_in_string_literal line_no_comments (Z.of_nat (Re.m_start m)))
  | None => false
  end.

Definition check_game_print_usage (filepath : string) (file : reading)
  : list lint :=
  check_file_with uses_game_print filepath
    "Use 'log' instead of 'game.print' for logging" file.

(** src/tests/test_global_usage.py *)
Module TestsGlobalUsage.

(** [\bglobal\s*[=\[]] *)
Definition global_assignment_pattern : Re.regex :=
  Re.Bnd +++ Re.Lit "global" +++ Re.Rep 0 Re.sp +++
  Re.Cls (fun c => Ascii.eqb c "=" || Ascii.eqb c "[").

(** [settings\.global\s*\[] *)
Definition settings_global_pattern : Re.regex :=
  Re.Lit "settings.global" +++ Re.Rep 0 Re.sp +++ Re.Lit "[".

Definition assigns_global (line_no_comments : string) : bool :=
  match Re.search global_assignment_pattern line_no_comments with
  | Some global_match =>
      if matches settings_global_pattern line_no_comments then false
      else negb (is_in_string_literal line_no_comments
                   (Z.of_nat (Re.m_start global_match)))
  | None => false
  end.

Definition check_global_usage (filepath : string) (file : reading)
  : list lint :=
  check_file_with assigns_global filepath
    "Use 'storage' instead of assigning to 'global' variable" file.

End TestsGlobalUsage.

(** src/validation/test_global_usage.py *)
Module ValidationGlobalUsage.

Definition uses_dot_global (line_no_comments : string) : bool :=
  let global_pos := Py.find line_no_comments ".global" in
  negb (global_pos =? -1)%Z
  && negb (is_in_string_literal line_no_comments global_pos).

Definition check_global_usage (filepath : string) (file : reading)
  : list lint :=
  check_file_with uses_dot_global filepath
    "Use 'storage' instead of '.global' (Factorio API change)" file.

End ValidationGlobalUsage.

(** The flag [in_multiline_comment] after the lines [ls], from [flag]. *)
Definition comment_flag_from (flag : bool) (ls : list string) : bool :=
  fold_left (fun flag line => fst (comment_step line flag)) ls flag.

(** The flag when the loop has read the lines [before]. *)
Definition in_multiline_comment_after (before : list string) : bool :=
  comment_flag_from false before.

(** The line that follows the lines [before] goes on to the test. *)
Definition line_scanned (before : list string) (line : string) : bool :=
  snd (comment_step line (in_multiline_comment_after before)).

(** ** Example lines and files for the checkers *)

Definition comment_after_blanks : string := "    -- game.print(1)".

Definition print_after_block_comment : reading :=
  mkReading
    [ "--[[ game.print(1)" ++ String Py.newline "";
      "game.print(2) ]]" ++ String Py.newline "";
      "game.print(3) -- game.print(4)" ++ String Py.newline "" ]%string
    None.

(** ** format_validation_errors *)

(** [str(n)] for a line number. *)
Definition decimal (n : nat) : string :=
  NilEmpty.string_of_uint (Nat.to_uint n).

(** [f"  {filepath}:{line_num}: {message}"] *)
Definition format_error (e : lint) : string :=
  let '(filepath, line_num, message) := e in
  ("  " ++ filepath ++ ":" ++ decimal line_num ++ ": " ++ message)%string.

Definition format_validation_errors (errors : list lint) : string :=
  match errors with
  | [] => EmptyString
  | _ => Py.join_lines (map format_error errors)
  end.

(** Neither the path nor the message of [e] holds a line break. *)
Definition on_one_line (e : lint) : bool :=
  let '(filepath, _, message) := e in one_line filepath && one_line message.

Definition two_errors : list lint :=
  [("control.lua", 12, "Use 'log' instead of 'game.print' for logging");
   ("scripts/core.lua", 0, "Failed to read file: ")].

(** ** What a pattern matches

    [matched r c c'] holds when the pattern [r] can take the matcher from
    the cursor [c] to the cursor [c']: one of the ways the backtracking
    search may go through [r]. *)
Fixpoint matched (r : Re.regex) (c c' : Re.cursor) : Prop :=
  match r with
  | Re.Lit s => Re.lit s c = Some c'
  | Re.Cls p =>
      exists a t,
        Re.rest c = String a t /\ p a = true /\ c' = Re.advance c a t
  | Re.Rep min p =>
      exists u,
        all_chars p u = true /\ min <= String.length u
        /\ Re.lit u c = Some c'
  | Re.RepLazy p =>
      exists u, all_chars p u = true /\ Re.lit u c = Some c'
  | Re.Seq r1 r2 => exists c1, matched r1 c c1 /\ matched r2 c1 c'
  | Re.Alt r1 r2 => matched r1 c c' \/ matched r2 c c'
  | Re.Opt r1 => matched r1 c c' \/ c' = c
  | Re.Grp n r1 =>
      exists c1,
        matched r1 c c1
        /\ c' = Re.mkCursor (Re.pos c1) (Re.prev c1) (Re.rest c1)
                  ((n, (Re.pos c, Re.pos c1)) :: Re.caps c1)
  | Re.Bnd =>
      xorb (Re.word_before c) (Re.word_after c) = true /\ c' = c
  end.

(** Two cursors at the same place of the same subject; their groups may
    differ. *)
Definition same_place (c d : Re.cursor) : Prop :=
  Re.pos c = Re.pos d /\ Re.prev c = Re.prev d /\ Re.rest c = Re.rest d.

(** The cursor [c] stands in [subject] at its own position. *)
Definition placed (subject : string) (c : Re.cursor) : Prop :=
  exists before,
    subject = (before ++ Re.rest c)%string
    /\ Re.pos c = String.length before.

(** The character before the end of [u], or [pv] when [u] is empty. *)
Fixpoint last_of (u : string) (pv : option ascii) : option ascii :=
  match u with
  | EmptyString => pv
  | String a u' => last_of u' (Some a)
  end.

(** A word: one or more characters of the class [\w]. *)
Definition is_word_string (s : string) : bool :=
  negb (String.eqb s EmptyString) && all_chars Py.is_word s.

(** The shape of [\w+(?:\.\w+)?]: a word, or two words around a dot. *)
Definition is_name (s : string) : Prop :=
  is_word_string s = true
  \/ exists a b,
       s = (a ++ "." ++ b)%string
       /\ is_word_string a = true /\ is_word_string b = true.

(** ** find_lua_files *)

(** [s.endswith(t)] *)
Fixpoint endswith (t s : string) : bool :=
  if String.eqb s t then true
  else match s with
       | EmptyString => false
       | String _ s' => endswith t s'
       end.

(** A directory as [os.walk] lists it: the names of its files and its
    sub-directories with their own listings, in the order of the walk. *)
#[warnings="-register-all"] Inductive directory : Type :=
| Dir (files : list string) (dirs : list (string * directory)).

Definition files_of (d : directory) : list string :=
  match d with Dir files _ => files end.

Definition dirs_of (d : directory) : list (string * directory) :=
  match d with Dir _ dirs => dirs end.

Definition exclude_dirs : list string :=
  ["archive"; "test"; "tests"; ".git"; "__pycache__"; "node_modules";
   "validation"; "references"].

(** The walk from the directory [root], a path given by its parts: the
    files of a directory first, then its sub-directories, those of
    [exclude_dirs] pruned. *)
Fixpoint walk_lua_files (root : list string) (d : directory)
  : list (list string) :=
  match d with
  | Dir files dirs =>
      map (fun file => root ++ [file]) (filter (endswith ".lua") files)
      ++ (fix walk_dirs (dirs : list (string * directory))
            : list (list string) :=
            match dirs with
            | [] => []
            | (name, sub) :: more =>
                (if Py.mem name exclude_dirs then []
                 else walk_lua_files (root ++ [name]) sub)
                ++ walk_dirs more
            end) dirs
  end.

Definition find_lua_files (project_root : list string) (tree : directory)
  : list (list string) :=
  walk_lua_files project_root tree.

(** Going down from a directory along the names [names] ends in the
    directory [d']. *)
Inductive reaches : directory -> list string -> directory -> Prop :=
| reaches_here d : reaches d [] d
| reaches_down d name sub names d' :
    In (name, sub) (dirs_of d) ->
    reaches sub names d' ->
    reaches d (name :: names) d'.

(** The height of a directory tree. *)
Fixpoint depth_of (d : directory) : nat :=
  match d with
  | Dir _ dirs =>
      S ((fix deepest (dirs : list (string * directory)) : nat :=
            match dirs with
            | [] => 0
            | (_, sub) :: more => Nat.max (depth_of sub) (deepest more)
            end) dirs)
  end.

Definition project_tree : directory :=
  Dir ["control.lua"; "info.json"; "tests.lua"]
    [("scripts", Dir ["core.lua"] [("tests", Dir ["core_test.lua"] [])]);
     ("tests", Dir ["helper.lua"] [])].

(** src/tests/test_require_placement.py *)
Module RequirePlacement.

(** [s.split()]: the runs of characters that are not blanks. *)
Fixpoint words (s : string) : list string :=
  match s with
  | EmptyString => []
  | String c s' =>
      if Py.is_space c then words s'
      else
        match s' with
        | EmptyString => [String c EmptyString]
        | String d _ =>
            if Py.is_space d then String c EmptyString :: words s'
            else match words s' with
                 | word :: more => String c word :: more
                 | [] => [String c EmptyString]
                 end
        end
  end.

(** [$] at the end of a pattern: the end of the subject, or the place
    before a line break that ends it. *)
Definition at_end (c : Re.cursor) : option Re.cursor :=
  match Re.rest c with
  | EmptyString => Some c
  | String a EmptyString => if Py.is_newline a then Some c else None
  | _ => None
  end.

(** [re.search] of a pattern followed by [$], as a truth value. *)
Fixpoint search_end_from (r : Re.regex) (i : nat) (pv : option ascii)
  (t : string) : bool :=
  match Re.exec r (Re.mkCursor i pv t []) at_end with
  | Some _ => true
  | None =>
      match t with
      | EmptyString => false
      | String a t' => search_end_from r (S i) (Some a) t'
      end
  end.

Definition search_end (r : Re.regex) (s : string) : bool :=
  search_end_from r 0 None s.

(** [re.match]: a match at the start of the subject. *)
Definition re_match (r : Re.regex) (s : string) : option Re.rmatch :=
  Re.match_at r 0 None s.

(** [^(local\s+)?function\s+(\w+)] *)
Definition function_statement : Re.regex :=
  Re.Opt (Re.Grp 1 (Re.Lit "local" +++ Re.Rep 1 Re.sp)) +++
  Re.Lit "function" +++ Re.Rep 1 Re.sp +++ Re.Grp 2 (Re.Rep 1 Re.w).

(** [^(?:local\s+)?function\s+(\w+)] *)
Definition named_function_statement : Re.regex :=
  Re.Opt (Re.Lit "local" +++ Re.Rep 1 Re.sp) +++
  Re.Lit "function" +++ Re.Rep 1 Re.sp +++ Re.Grp 1 (Re.Rep 1 Re.w).

(** [(\w+)\s*=\s*function\s*\(] *)
Definition function_assignment : Re.regex :=
  Re.Grp 1 (Re.Rep 1 Re.w) +++ Re.Rep 0 Re.sp +++ Re.Lit "=" +++
  Re.Rep 0 Re.sp +++ Re.Lit "function" +++ Re.Rep 0 Re.sp +++ Re.Lit "(".

(** [function\s*\(] *)
Definition function_expression : Re.regex :=
  Re.Lit "function" +++ Re.Rep 0 Re.sp +++ Re.Lit "(".

Definition is_some {A} (x : option A) : bool :=
  match x with Some _ => true | None => false end.

Definition starts_function (stripped : string) : bool :=
  is_some (re_match function_statement stripped)
  || matches function_assignment stripped
  || matches function_expression stripped.

(** The name kept for the function: a group of the match, or the
    placeholder. *)
Definition name_of_function (stripped : string) : option string :=
  match re_match named_function_statement stripped with
  | Some func_match => Re.group stripped func_match 1
  | None =>
      match Re.search function_assignment stripped with
      | Some func_match => Re.group stripped func_match 1
      | None => Some "<anonymous>"
      end
  end.

Definition block_keywords : list string :=
  ["if"; "for"; "while"; "repeat"; "do"].

(** [any(keyword in stripped.split() for keyword in ...)] *)
Definition keyword_in_words (stripped : string) : bool :=
  existsb (fun keyword => Py.mem keyword (words stripped)) block_keywords.

(** [^keyword\s], [\skeyword\s] or [\skeyword$] *)
Definition opens_block_with (keyword stripped : string) : bool :=
  is_some (re_match (Re.Lit keyword +++ Re.Cls Re.sp) stripped)
  || matches (Re.Cls Re.sp +++ Re.Lit keyword +++ Re.Cls Re.sp) stripped
  || search_end (Re.Cls Re.sp +++ Re.Lit keyword) stripped.

Definition opens_block (stripped : string) : bool :=
  existsb (fun keyword => opens_block_with keyword stripped) block_keywords.

Definition closes_block (stripped : string) : bool :=
  Py.startswith "end" stripped || String.eqb stripped "end".

(** [require\s*] before one of the three openers. *)
Definition require_before (opener : string) : Re.regex :=
  Re.Lit "require" +++ Re.Rep 0 Re.sp +++ Re.Lit opener.

(** [local\s+\w+\s*=\s*require\s*] before one of the three openers. *)
Definition local_require_before (opener : string) : Re.regex :=
  Re.Lit "local" +++ Re.Rep 1 Re.sp +++ Re.Rep 1 Re.w +++ Re.Rep 0 Re.sp +++
  Re.Lit "=" +++ Re.Rep 0 Re.sp +++ require_before opener.

Definition openers : list string :=
  ["("; String Py.dquote EmptyString; String Py.squote EmptyString].

Definition require_patterns : list Re.regex :=
  map require_before openers ++ map local_require_before openers.

(** ['require' in stripped] and one of the patterns is found. *)
Definition is_require (stripped : string) : bool :=
  Py.contains stripped "require"
  && existsb (fun pattern => matches pattern stripped) require_patterns.

Record state : Type := mkState {
  in_function : bool;
  function_depth : nat;
  function_name : option string;
  block_depth : nat
}.

Definition init : state := mkState false 0 None 0.

(** The tracking of functions, blocks and [end] for one line. *)
Definition track (stripped : string) (st : state) : state :=
  if starts_function stripped then
    let st :=
      if negb (in_function st)
      then mkState true (function_depth st) (name_of_function stripped)
             (block_depth st)
      else st in
    mkState (in_function st) (function_depth st + 1) (function_name st)
      (block_depth st + 1)
  else if keyword_in_words stripped then
    if opens_block stripped
    then mkState (in_function st) (function_depth st) (function_name st)
           (block_depth st + 1)
    else st
  else if closes_block stripped then
    if 0 <? block_depth st then
      let block_depth' := block_depth st - 1 in
      if in_function st && (0 <? function_depth st) then
        let function_depth' := function_depth st - 1 in
        if function_depth' =? 0
        then mkState false function_depth' None block_depth'
        else mkState (in_function st) function_depth' (function_name st)
               block_depth'
      else mkState (in_function st) (function_depth st) (function_name st)
             block_depth'
    else st
  else st.

(** The name as the message shows it; [None] is shown as None. *)
Definition show_name (function_name : option string) : string :=
  match function_name with
  | Some name => name
  | None => "None"
  end.

Definition inside_function (function_name : option string) : string :=
  ("require() must be at top-level, not inside function '"
   ++ show_name function_name ++ "'")%string.

Definition inside_block : string :=
  "require() must be at top-level, not inside conditional or loop blocks".

(** The check for require statements on one line, after the tracking. *)
Definition require_error (filepath : string) (line_num : nat)
  (stripped : string) (st : state) : list lint :=
  if is_require stripped then
    if in_function st
    then [(filepath, line_num, inside_function (function_name st))]
    else if 0 <? block_depth st
    then [(filepath, line_num, inside_block)]
    else []
  else [].

Fixpoint check_lines (filepath : string) (numbered : list (nat * string))
  (in_multiline_comment : bool) (st : state) : list lint :=
  match numbered with
  | [] => []
  | (line_num, line) :: more =>
      let '(in_multiline_comment, scanned) :=
        comment_step line in_multiline_comment in
      if scanned then
        let stripped := strip (remove_comments_from_line line) in
        let st := track stripped st in
        require_error filepath line_num stripped st
        ++ check_lines filepath more in_multiline_comment st
      else check_lines filepath more in_multiline_comment st
  end.

Definition check_require_placement (filepath : string) (file : reading)
  : list lint :=
  check_lines filepath (read_file_lines file) false init
  ++ failed_to_read filepath file.

End RequirePlacement.

(** The state of [check_require_placement] when the loop, started with
    the flag [flag] and the state [st], has read the lines [ls]. *)
Fixpoint placement_state_from (flag : bool) (st : RequirePlacement.state)
  (ls : list string) : RequirePlacement.state :=
  match ls with
  | [] => st
  | line :: more =>
      let '(flag', scanned) := comment_step line flag in
      placement_state_from flag'
        (if scanned
         then RequirePlacement.track (strip (remove_comments_from_line line)) st
         else st)
        more
  end.

Definition placement_state_after (before : list string)
  : RequirePlacement.state :=
  placement_state_from false RequirePlacement.init before.

(** What the loop keeps true of its counters. *)
Definition placement_invariant (st : RequirePlacement.state) : Prop :=
  RequirePlacement.function_depth st <= RequirePlacement.block_depth st
  /\ RequirePlacement.in_function st
     = (0 <? RequirePlacement.function_depth st)
  /\ (RequirePlacement.in_function st = false ->
      RequirePlacement.function_name st = None)
  /\ (RequirePlacement.in_function st = true ->
      RequirePlacement.function_name st <> None).

Definition require_in_nested_if : reading :=
  mkReading
    [ "function f()" ++ String Py.newline "";
      "  if x then" ++ String Py.newline "";
      "  end" ++ String Py.newline "";
      "  local a = require('a')" ++ String Py.newline "";
      "end" ++ String Py.newline "";
      "local b = require('b')" ++ String Py.newline "" ]%string
    None.

(** ** Sources with a block inside a body *)

(** [setup] closes an [if] block and then prints through [game] at top
    level. *)
Definition access_after_inner_block_text : string :=
  Py.join_lines
    ["function setup()"; "  if ready then"; "  end"; "  game.print(1)";
     "end"].

Definition access_after_inner_block_source : LuaParser :=
  LuaParser_init access_after_inner_block_text.

Definition access_after_inner_block_corpus : list lua_file :=
  [("mod/control.lua", Some control_calls_setup);
   ("mod/setup.lua", Some access_after_inner_block_text)].

(** [setup] registers a handler whose closure closes an [if] block and
    then prints through [game], still inside the closure. *)
Definition handler_with_inner_block_text : string :=
  Py.join_lines
    ["function setup()";
     "  script.on_event(defines.events.on_tick, function(e)";
     "    if e.tick then";
     "    end";
     "    game.print(1)";
     "  end)";
     "end"].

Definition handler_with_inner_block_source : LuaParser :=
  LuaParser_init handler_with_inner_block_text.

Definition handler_with_inner_block_corpus : list lua_file :=
  [("mod/control.lua", Some control_calls_setup);
   ("mod/setup.lua", Some handler_with_inner_block_text)].

(** A line that logs a double-quoted string ending in an escaped
    backslash and then prints through [game]: the string is closed by the
    quote at index 11 and the access starts at index 14. *)
Definition escaped_backslash_access_line : string :=
  ("  log("
   ++ String Py.dquote
        ("C:"
         ++ String Py.backslash
              (String Py.backslash
                 (String Py.dquote ") game.print(1)"))))%string.

Definition escaped_backslash_access_text : string :=
  Py.join_lines ["function setup()"; escaped_backslash_access_line; "end"].

Definition escaped_backslash_access_corpus : list lua_file :=
  [("mod/control.lua", Some control_calls_setup);
   ("mod/setup.lua", Some escaped_backslash_access_text)].

(** * Properties *)

(** ** Lists, dictionaries and loops *)

Lemma mem_In (x : string) (xs : list string) :
  Py.mem x xs = true <-> In x xs.
Proof.
  unfold Py.mem. rewrite existsb_exists. split.
  - intros [y [Hy Heq]]. apply String.eqb_eq in Heq. now subst.
  - intros H. exists x. split; [assumption | apply String.eqb_refl].
Qed.

Lemma mem_not_In (x : string) (xs : list string) :
  Py.mem x xs = false <-> ~ In x xs.
Proof.
  rewrite <- mem_In. destruct (Py.mem x xs); split; congruence.
Qed.

Lemma fold_left_same {A B} (f g : A -> B -> A) (xs : list B) :
  (forall a x, f a x = g a x) ->
  forall a, fold_left f xs a = fold_left g xs a.
Proof.
  intros Hfg. induction xs as [|x xs IH]; intros a; simpl; [reflexivity|].
  now rewrite Hfg, IH.
Qed.

Section DictFacts.
Context {V : Type}.
Implicit Types (d : list (string * V)) (k : string) (v : V).

Lemma dict_keys_set d k v :
  forall k', In k' (Py.dict_keys (Py.dict_set d k v))
             <-> k' = k \/ In k' (Py.dict_keys d).
Proof.
  induction d as [|[k0 v0] d IH]; intros k'; simpl.
  - intuition auto.
  - destruct (String.eqb_spec k k0) as [->|Hne]; simpl.
    + intuition auto.
    + rewrite IH. intuition auto.
Qed.

Lemma dict_keys_set_NoDup d k v :
  NoDup (Py.dict_keys d) -> NoDup (Py.dict_keys (Py.dict_set d k v)).
Proof.
  induction d as [|[k0 v0] d IH]; simpl; intros Hnd.
  - constructor; [intros [] | constructor].
  - inversion Hnd as [|? ? Hnotin Hnd']; subst.
    destruct (String.eqb_spec k k0) as [->|Hne]; simpl.
    + constructor; assumption.
    + constructor; [|auto].
      intros Hin. apply (dict_keys_set d k v) in Hin.
      destruct Hin as [->|Hin]; [now apply Hne | now apply Hnotin].
Qed.

Lemma dict_get_set_same d k v : Py.dict_get (Py.dict_set d k v) k = Some v.
Proof.
  induction d as [|[k0 v0] d IH]; simpl.
  - now rewrite String.eqb_refl.
  - destruct (String.eqb_spec k k0) as [->|Hne]; simpl.
    + now rewrite String.eqb_refl.
    + destruct (String.eqb_spec k k0); [contradiction | exact IH].
Qed.

Lemma dict_get_set_other d k v k' :
  k' <> k -> Py.dict_get (Py.dict_set d k v) k' = Py.dict_get d k'.
Proof.
  intros Hne. induction d as [|[k0 v0] d IH]; simpl.
  - destruct (String.eqb_spec k' k); [contradiction | reflexivity].
  - destruct (String.eqb_spec k k0) as [->|Hne0]; simpl.
    + destruct (String.eqb_spec k' k0); [contradiction | reflexivity].
    + destruct (String.eqb_spec k' k0); [reflexivity | exact IH].
Qed.

Lemma dict_get_In d k v :
  NoDup (Py.dict_keys d) -> In (k, v) d -> Py.dict_get d k = Some v.
Proof.
  induction d as [|[k0 v0] d IH]; simpl; intros Hnd Hin; [contradiction|].
  inversion Hnd as [|? ? Hnotin Hnd']; subst.
  destruct Hin as [Heq|Hin].
  - inversion Heq; subst. now rewrite String.eqb_refl.
  - destruct (String.eqb_spec k k0) as [->|Hne]; [|auto].
    exfalso. apply Hnotin. apply (in_map fst) in Hin. exact Hin.
Qed.
End DictFacts.

Lemma fold_dict_set_NoDup {V} (ks : list string) (v : V) :
  forall d, NoDup (Py.dict_keys d) ->
    NoDup (Py.dict_keys (fold_left (fun all k => Py.dict_set all k v) ks d)).
Proof.
  induction ks as [|k ks IH]; simpl; intros d Hnd; [assumption|].
  apply IH. now apply dict_keys_set_NoDup.
Qed.

Lemma index_files_NoDup (lua_files : list lua_file) :
  NoDup (Py.dict_keys (fst (index_files lua_files)))
  /\ NoDup (Py.dict_keys (snd (index_files lua_files))).
Proof.
  unfold index_files.
  assert (H : forall acc : list (string * LuaParser) * list (string * string),
             NoDup (Py.dict_keys (fst acc)) /\ NoDup (Py.dict_keys (snd acc)) ->
             NoDup (Py.dict_keys (fst (fold_left index_file lua_files acc)))
             /\ NoDup (Py.dict_keys (snd (fold_left index_file lua_files acc)))).
  { induction lua_files as [|[path text] files IH]; simpl; intros acc Hacc;
      [assumption|].
    apply IH. destruct acc as [parsers all]. unfold index_file. simpl.
    destruct text as [text|]; simpl; [|assumption].
    destruct Hacc as [Hp Ha]. simpl in *. split.
    - now apply dict_keys_set_NoDup.
    - now apply fold_dict_set_NoDup. }
  apply H. simpl. split; constructor.
Qed.

(** ** The call-chain loop ends *)

Section TraceFacts.
Variable parsers : list (string * LuaParser).
Variable all_functions : list (string * string).

Lemma mem_app_one (x y : string) (xs : list string) :
  Py.mem x (xs ++ [y]) = Py.mem x xs || String.eqb x y.
Proof.
  unfold Py.mem. rewrite existsb_app. simpl. now rewrite orb_false_r.
Qed.

Lemma unvisited_cost_le (visited : list string) (f : string)
  (names : list string) :
  list_sum (map (cost parsers all_functions) (unvisited (visited ++ [f]) names))
  <= list_sum (map (cost parsers all_functions) (unvisited visited names)).
Proof.
  induction names as [|n names IH]; simpl; [lia|].
  rewrite mem_app_one.
  destruct (Py.mem n visited); simpl; [exact IH|].
  destruct (String.eqb n f); simpl; lia.
Qed.

Lemma unvisited_cost_lt (visited : list string) (f : string)
  (names : list string) :
  In f names -> Py.mem f visited = false ->
  cost parsers all_functions f
  + list_sum (map (cost parsers all_functions)
                (unvisited (visited ++ [f]) names))
  <= list_sum (map (cost parsers all_functions) (unvisited visited names)).
Proof.
  intros Hin Hnew.
  induction names as [|n names IH]; simpl; [contradiction|].
  rewrite mem_app_one.
  destruct (String.eqb_spec n f) as [->|Hne].
  - rewrite Hnew. simpl.
    pose proof (unvisited_cost_le visited f names).
    unfold cost in *. lia.
  - destruct Hin as [Heq|Hin]; [contradiction|].
    specialize (IH Hin).
    destruct (Py.mem n visited); simpl; unfold cost in *; lia.
Qed.

Lemma turns_left_visit (visited to_visit : list string) (f : string) :
  Py.mem f visited || negb (Py.dict_has all_functions f) = false ->
  turns_left parsers all_functions (visited ++ [f])
    (to_visit ++ calls_of parsers all_functions f)
  < turns_left parsers all_functions visited (f :: to_visit).
Proof.
  intros Hc. apply orb_false_elim in Hc. destruct Hc as [Hnew Hidx].
  apply negb_false_iff in Hidx. unfold Py.dict_has in Hidx.
  apply mem_In in Hidx.
  unfold turns_left. rewrite length_app. cbn [List.length].
  pose proof (unvisited_cost_lt visited f _ Hidx Hnew) as H.
  unfold cost at 1 in H. lia.
Qed.

(** With [turns_left] units of fuel the loop runs to its end. *)
Lemma trace_loop_traces (fuel : nat) :
  forall visited to_visit,
    turns_left parsers all_functions visited to_visit <= fuel ->
    traces parsers all_functions visited to_visit
      (trace_loop parsers all_functions fuel visited to_visit).
Proof.
  induction fuel as [|fuel IH]; intros visited to_visit Hfuel.
  - destruct to_visit as [|f q]; [constructor|].
    unfold turns_left in Hfuel. simpl in Hfuel. lia.
  - destruct to_visit as [|f q]; [constructor|]. simpl.
    destruct (Py.mem f visited || negb (Py.dict_has all_functions f))
      eqn:Hc.
    + apply traces_skip; [assumption|]. apply IH.
      unfold turns_left in *. simpl in Hfuel. lia.
    + apply traces_visit; [assumption|]. apply IH.
      pose proof (turns_left_visit visited q f Hc). lia.
Qed.

(** The visited set only grows, stays duplicate-free and holds indexed
    names only. *)
Lemma traces_invariant (visited to_visit result : list string) :
  traces parsers all_functions visited to_visit result ->
  NoDup visited -> incl visited (Py.dict_keys all_functions) ->
  incl visited result /\ NoDup result
  /\ incl result (Py.dict_keys all_functions).
Proof.
  induction 1 as [v | v f q r Hc _ IH | v f q r Hc _ IH]; intros Hnd Hincl.
  - repeat split; [apply incl_refl | assumption | assumption].
  - now apply IH.
  - apply orb_false_elim in Hc. destruct Hc as [Hnew Hidx].
    apply negb_false_iff in Hidx. apply mem_In in Hidx.
    apply mem_not_In in Hnew.
    destruct IH as [Hgrow [Hnd' Hincl']].
    + apply NoDup_app; [assumption | constructor; [intros [] | constructor] |].
      intros x Hx [<-|[]]. contradiction.
    + apply incl_app; [assumption|]. intros x [<-|[]]. exact Hidx.
    + repeat split; [|assumption|assumption].
      intros x Hx. apply Hgrow. apply in_or_app. now left.
Qed.

Lemma traces_functional (visited to_visit r1 r2 : list string) :
  traces parsers all_functions visited to_visit r1 ->
  traces parsers all_functions visited to_visit r2 -> r1 = r2.
Proof.
  intros H1. revert r2.
  induction H1 as [v | v f q r Hc _ IH | v f q r Hc _ IH]; intros r2 H2;
    inversion H2; subst; try congruence; auto.
Qed.
End TraceFacts.

Lemma trace_call_chain_unfold (initial_functions : list string)
  (lua_files : list lua_file) :
  trace_call_chain initial_functions lua_files =
  trace_loop (fst (index_files lua_files)) (function_index lua_files)
    (turns_left (fst (index_files lua_files)) (function_index lua_files)
       [] initial_functions)
    [] initial_functions.
Proof.
  unfold trace_call_chain, function_index.
  now destruct (index_files lua_files).
Qed.

(** C3. For every seed list and every corpus the loop of
    [trace_call_chain] runs to its end (an execution of the loop from the
    empty visited set exists and yields the returned set, also when
    functions call themselves or each other): every turn either drops the
    head of the queue or adds a new indexed name to the visited set, and
    [turns_left] bounds the turns.  Along an execution the visited set
    only grows; the returned set has no duplicates, holds only names of
    the function index, and so has at most as many elements as the index
    has distinct names. *)
Theorem trace_call_chain_terminates_bounded :
  forall (initial_functions : list string) (lua_files : list lua_file),
    let reachable := trace_call_chain initial_functions lua_files in
    let indexed := Py.dict_keys (function_index lua_files) in
    traces (fst (index_files lua_files)) (function_index lua_files)
      [] initial_functions reachable
    /\ (forall visited to_visit result,
           NoDup visited -> incl visited indexed ->
           traces (fst (index_files lua_files)) (function_index lua_files)
             visited to_visit result ->
           incl visited result)
    /\ NoDup reachable
    /\ incl reachable indexed
    /\ NoDup indexed
    /\ List.length reachable <= List.length indexed.
Proof.
  intros initial_functions lua_files reachable indexed.
  assert (Hgrow : forall visited to_visit result,
             NoDup visited -> incl visited indexed ->
             traces (fst (index_files lua_files)) (function_index lua_files)
               visited to_visit result ->
             incl visited result).
  { intros visited to_visit result Hnd Hincl Hrun.
    now destruct (traces_invariant _ _ _ _ _ Hrun Hnd Hincl). }
  assert (Hrun : traces (fst (index_files lua_files))
                   (function_index lua_files) [] initial_functions reachable).
  { unfold reachable. rewrite trace_call_chain_unfold.
    apply trace_loop_traces. apply Nat.le_refl. }
  destruct (traces_invariant _ _ _ _ _ Hrun) as [_ [Hnd Hincl]].
  { constructor. }
  { intros x []. }
  split; [exact Hrun|].
  split; [exact Hgrow|].
  split; [exact Hnd|].
  split; [exact Hincl|].
  split; [apply index_files_NoDup|].
  apply NoDup_incl_length; assumption.
Qed.

(** A function that calls itself and two functions that call each other
    are each visited once. *)
Example trace_call_chain_recursive :
  trace_call_chain ["f"] recursive_corpus = ["f"; "g"]
  /\ calls_of (fst (index_files recursive_corpus))
       (function_index recursive_corpus) "f" = ["f"; "f"; "g"]
  /\ calls_of (fst (index_files recursive_corpus))
       (function_index recursive_corpus) "g" = ["g"; "f"].
Proof. repeat split; vm_compute; reflexivity. Qed.

(** ** The in-string test *)

Lemma quote_step_is_after (line : string) (st : bool * bool) (i : nat) :
  quote_step line st i = quote_step_after false line st i.
Proof.
  unfold quote_step, quote_step_after, quote_toggle, is_backslash.
  destruct st as [in_single in_double].
  destruct (Py.char_at line i) as [char|]; [|reflexivity].
  destruct i as [|j]; simpl.
  - now rewrite !andb_true_r.
  - rewrite Nat.sub_0_r.
    destruct (Py.char_at line j) as [b|]; simpl; [reflexivity|].
    now rewrite !andb_true_r.
Qed.

Lemma quote_step_after_head (b : bool) (c : ascii) (line : string)
  (st : bool * bool) :
  quote_step_after b (String c line) st 0 = quote_toggle b c st.
Proof. reflexivity. Qed.

Lemma quote_step_after_tail (b : bool) (c : ascii) (line : string)
  (st : bool * bool) (i : nat) :
  quote_step_after b (String c line) st (S i)
  = quote_step_after (is_backslash c) line st i.
Proof.
  unfold quote_step_after, Py.char_at. simpl.
  destruct (String.get i line) as [char|]; [|reflexivity].
  destruct i as [|j]; reflexivity.
Qed.

Lemma fold_quote_steps (line : string) :
  forall (n : nat) (b : bool) (st : bool * bool),
    fold_left (quote_step_after b line) (seq 0 n) st
    = quotes_after_backslash b st (Py.take n line).
Proof.
  induction line as [|c line IH]; intros n b st.
  - assert (Hnil : Py.take n EmptyString = EmptyString) by now destruct n.
    rewrite Hnil. simpl. generalize (seq 0 n). intros l.
    induction l as [|i l IHl]; simpl; [reflexivity | exact IHl].
  - destruct n as [|n]; [reflexivity|].
    cbn [seq fold_left Py.take quotes_after_backslash].
    rewrite quote_step_after_head, <- seq_shift, <- IH.
    generalize (quote_toggle b c st), (seq 0 n). intros st' l. revert st'.
    induction l as [|i l IHl]; intros st'; simpl; [reflexivity|].
    rewrite quote_step_after_tail. apply IHl.
Qed.

Lemma take_min (n : nat) (line : string) :
  Py.take (Nat.min n (String.length line)) line = Py.take n line.
Proof.
  revert n. induction line as [|c line IH]; intros n.
  - destruct n; reflexivity.
  - destruct n as [|n]; [reflexivity|]. simpl. now rewrite IH.
Qed.

Lemma scanned_prefix (line : string) (pos : Z) :
  Z.to_nat (Z.min pos (Z.of_nat (String.length line)))
  = Nat.min (Z.to_nat pos) (String.length line).
Proof. lia. Qed.

Lemma _is_in_string_after_backslash (line : string) (pos : Z) :
  _is_in_string line pos = in_string_after_backslash line pos.
Proof.
  unfold _is_in_string, in_string_after_backslash.
  rewrite scanned_prefix.
  rewrite (fold_left_same (quote_step line) (quote_step_after false line))
    by (intros; apply quote_step_is_after).
  now rewrite fold_quote_steps, take_min.
Qed.

(** The [while] loop of conftest.py runs the same steps as the [for]
    loop of the parser, and its fuel is never short. *)
Lemma is_in_string_literal_loop_fold (line : string) (position : Z)
  (fuel : nat) :
  forall (i : nat) (st : bool * bool),
    is_in_string_literal_loop fuel line position i st
    = fold_left (quote_step line)
        (seq i (Nat.min fuel
                  (Z.to_nat (Z.min position (Z.of_nat (String.length line)))
                   - i))) st.
Proof.
  induction fuel as [|fuel IH]; intros i st; [reflexivity|].
  cbn [is_in_string_literal_loop].
  destruct ((Z.of_nat i <? position)%Z && (i <? String.length line)) eqn:Hc.
  - apply andb_true_iff in Hc. destruct Hc as [H1 H2].
    apply Z.ltb_lt in H1. apply Nat.ltb_lt in H2.
    rewrite IH.
    replace (Nat.min (S fuel)
               (Z.to_nat (Z.min position (Z.of_nat (String.length line))) - i))
      with (S (Nat.min fuel
               (Z.to_nat (Z.min position (Z.of_nat (String.length line)))
                - S i))) by lia.
    reflexivity.
  - replace (Z.to_nat (Z.min position (Z.of_nat (String.length line))) - i)
      with 0; [now rewrite Nat.min_0_r|].
    apply andb_false_iff in Hc. destruct Hc as [H|H].
    + apply Z.ltb_ge in H. lia.
    + apply Nat.ltb_ge in H. lia.
Qed.

Lemma is_in_string_literal_is_in_string (line : string) (position : Z) :
  is_in_string_literal line position = _is_in_string line position.
Proof.
  unfold is_in_string_literal, _is_in_string.
  rewrite is_in_string_literal_loop_fold, Nat.sub_0_r.
  replace (Nat.min (String.length line)
             (Z.to_nat (Z.min position (Z.of_nat (String.length line)))))
    with (Z.to_nat (Z.min position (Z.of_nat (String.length line)))) by lia.
  reflexivity.
Qed.

(** The closing quote at index 4 follows a backslash that is itself
    escaped by the one before it: it is not preceded by an unescaped
    backslash, so a scanner that tracks escapes closes the string there
    and index 5 is outside it, while both scanners of the source look one
    character back only and keep the string open. *)
Lemma in_string_escaped_backslash_counterexample :
  after_unescaped_backslash escaped_backslash_line 4 = false
  /\ in_string_as_specified escaped_backslash_line 5 = false
  /\ _is_in_string escaped_backslash_line 5 = true
  /\ is_in_string_literal escaped_backslash_line 5 = true.
Proof. repeat split; reflexivity. Qed.

Lemma quote_step_after_unescaped_backslash (line : string)
  (st : bool * bool) (i : nat) :
  after_unescaped_backslash line i = true -> quote_step line st i = st.
Proof.
  unfold after_unescaped_backslash, quote_step. intros Hodd.
  destruct st as [in_single in_double].
  destruct i as [|j]; [discriminate|].
  cbn [backslashes_before] in Hodd. simpl. rewrite Nat.sub_0_r.
  destruct (Py.char_at line j) as [b|]; [|discriminate].
  unfold is_backslash in Hodd.
  destruct (Ascii.eqb b Py.backslash); [|discriminate]. simpl.
  destruct (Py.char_at line (S j)); [|reflexivity].
  now rewrite !andb_false_r.
Qed.

(** X23. What the two in-string tests of the source compute.  For every
    line and position both scan the line from the left up to the
    position, toggling the double-quote state on a double quote and the
    single-quote state on a single quote; a quote right after a backslash
    character does not toggle, in particular one right after an unescaped
    backslash; the two states are tracked apart: a single quote inside an
    open double-quoted string does not toggle, and vice versa; the answer
    is whether either state is on.  So the two tests agree everywhere. *)
Theorem in_string_scans_quotes_after_backslash :
  (forall (line : string) (pos : Z),
      _is_in_string line pos = in_string_after_backslash line pos
      /\ is_in_string_literal line pos = in_string_after_backslash line pos)
  /\ (forall line st i,
         after_unescaped_backslash line i = true ->
         quote_step line st i = st)
  /\ (forall char st, quote_toggle true char st = st)
  /\ (forall quiet in_single,
         quote_toggle quiet Py.squote (in_single, true) = (in_single, true))
  /\ (forall quiet in_double,
         quote_toggle quiet Py.dquote (true, in_double) = (true, in_double))
  /\ (forall in_double,
         quote_toggle false Py.dquote (false, in_double)
         = (false, negb in_double))
  /\ (forall in_single,
         quote_toggle false Py.squote (in_single, false)
         = (negb in_single, false)).
Proof.
  split.
  { intros line pos. split.
    - apply _is_in_string_after_backslash.
    - rewrite is_in_string_literal_is_in_string.
      apply _is_in_string_after_backslash. }
  split.
  { intros line st i. apply quote_step_after_unescaped_backslash. }
  split.
  { intros char [in_single in_double]. unfold quote_toggle.
    now rewrite !andb_false_r. }
  split.
  { intros quiet in_single. unfold quote_toggle. simpl.
    now destruct in_single, quiet. }
  split.
  { intros quiet in_double. unfold quote_toggle. simpl.
    now destruct in_double, quiet. }
  split; intros; reflexivity.
Qed.

(** The quote at index 3 follows an unescaped backslash and leaves the
    open double-quoted string open. *)
Lemma in_string_scans_quotes_after_backslash_witness :
  quote_step escaped_quote_line (false, true) 3 = (false, true).
Proof.
  apply (proj1 (proj2 in_string_scans_quotes_after_backslash)
           escaped_quote_line (false, true) 3).
  reflexivity.
Defined.

(** C9, the code at the failing input.  [setup] logs a double-quoted
    string that ends in an escaped backslash and then reads [game] on
    the same line.  The closing quote, at index 11, follows a backslash
    that is escaped by the one before it, so it is not preceded by an
    unescaped backslash and closes the string: the access at index 14 is
    outside every string.  Both in-string tests look one character back
    only, whatever stands before that backslash, so they leave the
    string open, place the access inside it and drop it: the analysis
    returns no diagnostic for a reachable function that reads [game] at
    top level. *)
Theorem escaped_backslash_hides_forbidden_access :
  (forall (line : string) (pos : Z),
      _is_in_string line pos = in_string_after_backslash line pos
      /\ is_in_string_literal line pos = in_string_after_backslash line pos)
  /\ Py.char_at escaped_backslash_access_line 11 = Some Py.dquote
  /\ after_unescaped_backslash escaped_backslash_access_line 11 = false
  /\ in_string_as_specified escaped_backslash_access_line 14 = false
  /\ _is_in_string escaped_backslash_access_line 14 = true
  /\ is_in_string_literal escaped_backslash_access_line 14 = true
  /\ map Re.m_start
       (Re.finditer (global_pattern "game") escaped_backslash_access_line)
     = [14]
  /\ global_accesses "game" escaped_backslash_access_line = []
  /\ In "setup" (trace_call_chain ["setup"] escaped_backslash_access_corpus)
  /\ check_on_load_globals escaped_backslash_access_corpus = Return [].
Proof.
  split.
  { intros line pos. split.
    - apply _is_in_string_after_backslash.
    - rewrite is_in_string_literal_is_in_string.
      apply _is_in_string_after_backslash. }
  split; [vm_compute; reflexivity|].
  split; [vm_compute; reflexivity|].
  split; [vm_compute; reflexivity|].
  split; [vm_compute; reflexivity|].
  split; [vm_compute; reflexivity|].
  split; [vm_compute; reflexivity|].
  split; [vm_compute; reflexivity|].
  split; [vm_compute; left; reflexivity|].
  vm_compute. reflexivity.
Qed.

(** ** The body locator *)

Lemma depth_sum_app (self : LuaParser) (l1 l2 : list nat) :
  depth_sum self (l1 ++ l2) = (depth_sum self l1 + depth_sum self l2)%Z.
Proof.
  unfold depth_sum. induction l1 as [|n l1 IH]; simpl; [reflexivity|].
  destruct (counted self n); simpl; [rewrite IH; lia | exact IH].
Qed.

Lemma range_snoc (a b : nat) :
  a <= b -> range a (b + 1) = range a b ++ [b].
Proof.
  intros Hab. unfold range.
  replace (b + 1 - a) with (S (b - a)) by lia.
  rewrite seq_S. repeat f_equal. lia.
Qed.

Lemma depth_after_step (self : LuaParser) (start_pos a : nat) :
  start_pos <= a ->
  depth_after self start_pos a
  = (depth_sum self (range start_pos a)
     + (if counted self a then depth_delta (line_at self a) else 0))%Z.
Proof.
  intros Hle. unfold depth_after.
  rewrite range_snoc by assumption. rewrite depth_sum_app.
  f_equal. unfold depth_sum. simpl.
  destruct (counted self a); simpl; lia.
Qed.

Lemma find_function_end_loop_first (self : LuaParser) (start_pos : nat) :
  forall (k a : nat) (depth : Z),
    a + k = List.length (lines self) ->
    start_pos <= a ->
    depth = depth_sum self (range start_pos a) ->
    (forall e, start_pos < e < a -> ~ depth_returns_at self start_pos e) ->
    let end_pos := find_function_end_loop self start_pos (seq a k) depth in
    end_pos <= List.length (lines self)
    /\ (end_pos < List.length (lines self) ->
        depth_returns_at self start_pos end_pos)
    /\ (forall e, depth_returns_at self start_pos e -> end_pos <= e).
Proof.
  induction k as [|k IH]; intros a depth Hlen Hle Hdepth Hnone; simpl.
  - split; [lia|]. split; [lia|].
    intros e He. destruct (Nat.lt_ge_cases e (List.length (lines self)))
      as [Hlt|Hge]; [|exact Hge].
    exfalso. apply (Hnone e); [|exact He].
    destruct He as [H1 _]. lia.
  - pose proof (depth_after_step self start_pos a Hle) as Hstep.
    unfold counted in Hstep.
    destruct (_is_in_comment self a 0) eqn:Hcomment; simpl in Hstep.
    + apply IH; [lia | lia | |].
      * unfold depth_after in Hstep.
        replace (S a) with (a + 1) by lia. rewrite Hstep. lia.
      * intros e He Hret.
        destruct (Nat.eq_dec e a) as [->|Hne].
        -- destruct Hret as [_ [_ [Hc _]]]. unfold counted in Hc.
           rewrite Hcomment in Hc. discriminate.
        -- apply (Hnone e); [lia | exact Hret].
    + destruct ((depth + depth_delta (line_at self a) =? 0)%Z
                && (start_pos <? a)) eqn:Hstop.
      * apply andb_true_iff in Hstop. destruct Hstop as [Hzero Hafter].
        apply Z.eqb_eq in Hzero. apply Nat.ltb_lt in Hafter.
        split; [lia|]. split.
        -- intros _. unfold depth_returns_at, counted.
           rewrite Hcomment, Hstep. repeat split; lia.
        -- intros e He.
           destruct (Nat.lt_ge_cases e a) as [Hlt|Hge]; [|exact Hge].
           exfalso. apply (Hnone e); [|exact He].
           destruct He as [H1 _]. lia.
      * apply IH; [lia | lia | |].
        -- unfold depth_after in Hstep.
           replace (S a) with (a + 1) by lia. rewrite Hstep. lia.
        -- intros e He Hret.
           destruct (Nat.eq_dec e a) as [->|Hne].
           ++ destruct Hret as [Hafter [_ [_ Hzero]]].
              rewrite Hstep in Hzero.
              apply andb_false_iff in Hstop. destruct Hstop as [H|H].
              ** apply Z.eqb_neq in H. lia.
              ** apply Nat.ltb_ge in H. lia.
           ++ apply (Hnone e); [lia | exact Hret].
Qed.

(** Whole words only: of [friend], [endings] and [end] the last alone is
    counted, and [functional] is not a [function] keyword. *)
Example keyword_counts_whole_words :
  Re.count end_keyword "friend(endings) end" = 1
  /\ Re.count function_keyword "functional = function(f) end" = 1.
Proof. split; reflexivity. Qed.

(** X1. The depth counting of the body locator.  For every parser and
    start line, the loop reads the lines from the start line on, skips the
    lines that [_is_in_comment] places in a comment at column 0, adds for
    every other line its whole-word [function] keywords and subtracts its
    whole-word [end] keywords, and returns the first line after the start
    line at which the counter is back to 0 (the number of lines when there
    is none). *)
Lemma find_function_end_first_return_to_zero :
  forall (self : LuaParser) (start_pos : nat),
    let end_pos := find_function_end self start_pos in
    end_pos <= List.length (lines self)
    /\ (end_pos < List.length (lines self) ->
        depth_returns_at self start_pos end_pos)
    /\ (forall e, depth_returns_at self start_pos e -> end_pos <= e).
Proof.
  intros self start_pos. unfold find_function_end, range.
  destruct (Nat.le_gt_cases start_pos (List.length (lines self)))
    as [Hle|Hgt].
  - apply find_function_end_loop_first.
    + lia.
    + apply Nat.le_refl.
    + unfold range. now rewrite Nat.sub_diag.
    + intros e He. lia.
  - replace (List.length (lines self) - start_pos) with 0 by lia. simpl.
    split; [lia|]. split; [lia|].
    intros e [H1 [H2 _]]. lia.
Qed.

(** The depth counting at work: the body of [setup] in scenario A ends at
    its third line. *)
Lemma find_function_end_first_return_to_zero_witness :
  depth_returns_at
    (LuaParser_init
       (Py.join_lines
          ["local function setup()"; "  rendering.draw_line()"; "end"]))
    0 2.
Proof.
  apply (proj1 (proj2 (find_function_end_first_return_to_zero
                         (LuaParser_init
                            (Py.join_lines
                               ["local function setup()";
                                "  rendering.draw_line()"; "end"])) 0))).
  vm_compute. reflexivity.
Defined.

(** ** The start of a body *)

Lemma nth_error_combine_seq {A} (xs : list A) :
  forall a n,
    nth_error (combine (seq a (List.length xs)) xs) n
    = option_map (pair (a + n)) (nth_error xs n).
Proof.
  induction xs as [|x xs IH]; intros a n; simpl.
  - now destruct n.
  - destruct n as [|n]; simpl.
    + now rewrite Nat.add_0_r.
    + rewrite IH. now rewrite Nat.add_succ_r.
Qed.

Lemma nth_error_enumerate {A} (xs : list A) (n : nat) :
  nth_error (enumerate xs) n = option_map (pair n) (nth_error xs n).
Proof. unfold enumerate. now rewrite nth_error_combine_seq. Qed.

Lemma find_function_start_loop_first (self : LuaParser)
  (function_name : string) (numbered : list (nat * string))
  (start_pos : nat) :
  find_function_start_loop self function_name numbered = Some start_pos ->
  exists k line,
    nth_error numbered k = Some (start_pos, line)
    /\ defines_here self function_name start_pos line = true
    /\ forall j n l, j < k -> nth_error numbered j = Some (n, l) ->
                     defines_here self function_name n l = false.
Proof.
  induction numbered as [|[n0 l0] more IH]; simpl; [discriminate|].
  destruct (defines_here self function_name n0 l0) eqn:H0.
  - intros H. inversion H; subst. exists 0, l0.
    repeat split; [assumption|]. intros j n l Hj. lia.
  - intros H. destruct (IH H) as [k [line [Hk [Hd Hbefore]]]].
    exists (S k), line. repeat split; [assumption | assumption |].
    intros [|j] n l Hj Hn; simpl in Hn.
    + inversion Hn; subst. exact H0.
    + apply (Hbefore j); [lia | exact Hn].
Qed.

(** [find_function_start] returns the lowest line that matches the
    definition pattern of the name and does not start in a comment. *)
Lemma find_function_start_first (self : LuaParser) (function_name : string)
  (start_pos : nat) :
  find_function_start self function_name = Some start_pos ->
  start_pos < List.length (lines self)
  /\ defines_at self function_name start_pos = true
  /\ forall n, n < start_pos -> defines_at self function_name n = false.
Proof.
  unfold find_function_start. intros H.
  apply find_function_start_loop_first in H.
  destruct H as [k [line [Hk [Hd Hbefore]]]].
  rewrite nth_error_enumerate in Hk.
  destruct (nth_error (lines self) k) as [l|] eqn:Hl; [|discriminate].
  simpl in Hk. inversion Hk; subst. clear Hk.
  assert (Hlen : start_pos < List.length (lines self)).
  { apply nth_error_Some. congruence. }
  assert (Hline : line_at self start_pos = line).
  { unfold line_at. now apply nth_error_nth. }
  repeat split; [exact Hlen | |].
  - unfold defines_at. now rewrite Hline.
  - intros n Hn.
    destruct (nth_error (lines self) n) as [ln|] eqn:Hnth.
    + specialize (Hbefore n n ln Hn).
      rewrite nth_error_enumerate, Hnth in Hbefore.
      specialize (Hbefore eq_refl).
      unfold defines_at, line_at. now rewrite (nth_error_nth _ _ _ Hnth).
    + apply nth_error_None in Hnth. lia.
Qed.

Lemma find_function_start_loop_finds (self : LuaParser)
  (function_name : string) (numbered : list (nat * string))
  (line_num : nat) (line : string) :
  In (line_num, line) numbered ->
  defines_here self function_name line_num line = true ->
  find_function_start_loop self function_name numbered <> None.
Proof.
  induction numbered as [|[n l] more IH]; intros Hin Hd; [contradiction|].
  simpl. destruct (defines_here self function_name n l) eqn:Hn;
    [discriminate|].
  destruct Hin as [Heq|Hin]; [|now apply IH].
  inversion Heq; subst. congruence.
Qed.



Lemma find_function_end_bounds (self : LuaParser) (start_pos : nat) :
  start_pos < List.length (lines self) ->
  find_function_end self start_pos <= List.length (lines self)
  /\ (find_function_end self start_pos < List.length (lines self) ->
      start_pos < find_function_end self start_pos).
Proof.
  intros Hstart. unfold find_function_end, range.
  destruct (find_function_end_loop_first self start_pos
              (List.length (lines self) - start_pos) start_pos 0%Z)
    as [Hle [Hret _]].
  - lia.
  - apply Nat.le_refl.
  - unfold range. now rewrite Nat.sub_diag.
  - intros e He. lia.
  - split; [exact Hle|]. intros Hlt. now destruct (Hret Hlt).
Qed.

(** ** The scan of a body *)

Lemma get_line_Return (self : LuaParser) (line_num : nat) (line : string) :
  get_line self line_num = Return line ->
  line_num < List.length (lines self) /\ line = line_at self line_num.
Proof.
  unfold get_line, line_at. intros H.
  destruct (nth_error (lines self) line_num) as [l|] eqn:Hnth;
    [|discriminate].
  inversion H; subst. split.
  - apply nth_error_Some. congruence.
  - symmetry. now apply nth_error_nth.
Qed.

Lemma get_line_in_range (self : LuaParser) (line_num : nat) :
  line_num < List.length (lines self) ->
  get_line self line_num = Return (line_at self line_num).
Proof.
  unfold get_line, line_at. intros H.
  destruct (nth_error (lines self) line_num) as [l|] eqn:Hnth.
  - f_equal. symmetry. now apply nth_error_nth.
  - apply nth_error_None in Hnth. lia.
Qed.

Lemma get_line_out_of_range (self : LuaParser) (line_num : nat) :
  List.length (lines self) <= line_num ->
  get_line self line_num = Raise IndexError.
Proof.
  unfold get_line. intros H.
  apply nth_error_None in H. now rewrite H.
Qed.

(** The scan returns the errors of the checked lines when every line
    number is in range, and raises [IndexError] otherwise. *)
Lemma check_lines_in_range (self : LuaParser) (function_name : string)
  (start_pos : nat) (line_nums : list nat) :
  forall st,
    (forall n, In n line_nums -> n < List.length (lines self)) ->
    check_lines self function_name start_pos line_nums st
    = Return (checked_errors self function_name start_pos line_nums st).
Proof.
  induction line_nums as [|n more IH]; intros st Hrange; simpl;
    [reflexivity|].
  rewrite get_line_in_range by (apply Hrange; now left). simpl.
  assert (Hmore : forall m, In m more -> m < List.length (lines self))
    by (intros m Hm; apply Hrange; now right).
  destruct (_is_in_comment self n 0); [now apply IH|].
  destruct (handler_step start_pos n (line_at self n) st) as [st' checked].
  now rewrite IH.
Qed.

Lemma check_lines_out_of_range (self : LuaParser) (function_name : string)
  (start_pos : nat) (line_nums : list nat) :
  forall st,
    (exists n, In n line_nums /\ List.length (lines self) <= n) ->
    check_lines self function_name start_pos line_nums st = Raise IndexError.
Proof.
  induction line_nums as [|n more IH]; intros st [m [Hin Hm]]; simpl;
    [contradiction|].
  destruct (Nat.le_gt_cases (List.length (lines self)) n) as [Hout|Hok].
  - now rewrite get_line_out_of_range.
  - rewrite get_line_in_range by assumption. simpl.
    assert (Hmore : exists k, In k more /\ List.length (lines self) <= k).
    { destruct Hin as [->|Hin]; [lia | now exists m]. }
    destruct (_is_in_comment self n 0); [now apply IH|].
    destruct (handler_step start_pos n (line_at self n) st) as [st' checked].
    now rewrite IH.
Qed.

Lemma handler_run_app (self : LuaParser) (start_pos : nat)
  (l1 l2 : list nat) :
  forall st,
    handler_run self start_pos (l1 ++ l2) st
    = handler_run self start_pos l2 (handler_run self start_pos l1 st).
Proof.
  induction l1 as [|n l1 IH]; intros st; simpl; [reflexivity|].
  destruct (_is_in_comment self n 0); apply IH.
Qed.

Lemma handler_before_next (self : LuaParser) (start_pos a : nat) :
  start_pos <= a ->
  handler_before self start_pos (S a)
  = if _is_in_comment self a 0 then handler_before self start_pos a
    else fst (handler_step start_pos a (line_at self a)
                (handler_before self start_pos a)).
Proof.
  intros Hle. unfold handler_before.
  replace (S a) with (a + 1) by lia.
  rewrite range_snoc by assumption. rewrite handler_run_app. simpl.
  now destruct (_is_in_comment self a 0).
Qed.

Lemma forbidden_accesses_line (function_name : string) (n : nat)
  (line : string) (line_no : nat) (msg : message) :
  In (line_no, msg) (forbidden_accesses function_name n line) ->
  line_no = n + 1
  /\ exists global_name,
       In global_name FORBIDDEN_ON_LOAD_GLOBALS
       /\ msg = ForbiddenGlobal function_name global_name
       /\ global_accesses global_name line <> [].
Proof.
  unfold forbidden_accesses. intros H.
  apply in_flat_map in H. destruct H as [g [Hg H]].
  apply in_map_iff in H. destruct H as [m [Heq Hm]].
  inversion Heq; subst. split; [reflexivity|].
  exists g. repeat split; [assumption|].
  intros Hnil. rewrite Hnil in Hm. contradiction.
Qed.

(** The errors of a scan of the lines [a], ..., [a + k - 1] are those of
    its checked lines. *)
Lemma checked_errors_In (self : LuaParser) (function_name : string)
  (start_pos : nat) (e : nat * message) :
  forall (k a : nat),
    start_pos <= a ->
    In e (checked_errors self function_name start_pos (seq a k)
            (handler_before self start_pos a))
    <-> exists n, a <= n < a + k
                  /\ line_checked self start_pos n = true
                  /\ In e (forbidden_accesses function_name n
                             (line_at self n)).
Proof.
  induction k as [|k IH]; intros a Hle; simpl.
  - split; [contradiction | intros [n [Hn _]]; lia].
  - pose proof (handler_before_next self start_pos a Hle) as Hnext.
    assert (Hchk : line_checked self start_pos a
                   = negb (_is_in_comment self a 0)
                     && snd (handler_step start_pos a (line_at self a)
                               (handler_before self start_pos a)))
      by reflexivity.
    destruct (_is_in_comment self a 0) eqn:Hcomment.
    + rewrite <- Hnext, IH by lia. split.
      * intros [n [Hn H]]. exists n. split; [lia | exact H].
      * intros [n [Hn [Hc H]]]. exists n.
        destruct (Nat.eq_dec n a) as [->|Hne].
        -- rewrite Hchk in Hc. discriminate.
        -- split; [lia | now split].
    + destruct (handler_step start_pos a (line_at self a)
                  (handler_before self start_pos a)) as [st' checked] eqn:Hs.
      simpl in Hnext, Hchk. rewrite <- Hnext.
      rewrite in_app_iff, IH by lia. split.
      * intros [H|[n [Hn H]]].
        -- exists a. destruct checked; [|contradiction].
           split; [lia | split; [exact Hchk | exact H]].
        -- exists n. split; [lia | exact H].
      * intros [n [Hn [Hc H]]].
        destruct (Nat.eq_dec n a) as [->|Hne].
        -- left. rewrite Hchk in Hc. subst checked. rewrite Hc. exact H.
        -- right. exists n. split; [lia | now split].
Qed.

(** [check_forbidden_globals] raises exactly when the body locator found
    no end for the body of the function. *)
Lemma check_forbidden_globals_outcome (self : LuaParser)
  (function_name : string) :
  match find_function_start self function_name with
  | None => check_forbidden_globals self function_name = Return []
  | Some start_pos =>
      let end_pos := find_function_end self start_pos in
      if end_pos <? List.length (lines self)
      then check_forbidden_globals self function_name
           = Return (checked_errors self function_name start_pos
                       (range start_pos (end_pos + 1)) handler_init)
      else check_forbidden_globals self function_name = Raise IndexError
  end.
Proof.
  unfold check_forbidden_globals.
  destruct (find_function_start self function_name) as [start_pos|] eqn:Hs;
    [|reflexivity].
  cbv zeta.
  apply find_function_start_first in Hs. destruct Hs as [Hstart _].
  destruct (find_function_end_bounds self start_pos Hstart) as [Hle Hret].
  destruct (find_function_end self start_pos <? List.length (lines self))
    eqn:Hend.
  - apply Nat.ltb_lt in Hend. apply check_lines_in_range.
    intros n Hn. unfold range in Hn. apply in_seq in Hn.
    specialize (Hret Hend). lia.
  - apply Nat.ltb_ge in Hend. apply check_lines_out_of_range.
    exists (find_function_end self start_pos). split; [|exact Hend].
    unfold range. apply in_seq. lia.
Qed.

(** ** The handler flag *)

Lemma handler_step_checked (start_pos line_num : nat) (line : string)
  (st : handler_state) :
  snd (handler_step start_pos line_num line st) = true ->
  enters_event_handler line = false
  /\ in_event_handler st = false
  /\ fst (handler_step start_pos line_num line st) = st.
Proof.
  unfold handler_step.
  destruct (enters_event_handler line); simpl.
  - destruct ((depth_delta line <=? 0)%Z && (start_pos <? line_num));
      discriminate.
  - destruct (in_event_handler st) eqn:Hflag; simpl.
    + destruct ((event_handler_depth st + depth_delta line <=? 0)%Z
                && (start_pos <? line_num)); discriminate.
    + intros _. repeat split.
Qed.

Lemma handler_after_is_next (self : LuaParser) (start_pos line_num : nat) :
  handler_after self start_pos line_num
  = handler_before self start_pos (S line_num).
Proof.
  unfold handler_after, handler_before. now rewrite Nat.add_1_r.
Qed.

Lemma handler_before_start (self : LuaParser) (start_pos : nat) :
  handler_before self start_pos start_pos = handler_init.
Proof. unfold handler_before, range. now rewrite Nat.sub_diag. Qed.

(** The errors of [check_forbidden_globals] come from checked lines of
    the scanned body. *)
Lemma check_forbidden_globals_In (self : LuaParser) (function_name : string)
  (errs : list (nat * message)) (e : nat * message) :
  check_forbidden_globals self function_name = Return errs ->
  In e errs ->
  exists start_pos n,
    find_function_start self function_name = Some start_pos
    /\ start_pos <= n <= find_function_end self start_pos
    /\ find_function_end self start_pos < List.length (lines self)
    /\ line_checked self start_pos n = true
    /\ In e (forbidden_accesses function_name n (line_at self n)).
Proof.
  intros Hret Hin.
  pose proof (check_forbidden_globals_outcome self function_name) as Hout.
  destruct (find_function_start self function_name) as [start_pos|] eqn:Hs.
  - cbv zeta in Hout.
    destruct (find_function_end self start_pos <? List.length (lines self))
      eqn:Hend; [|congruence].
    rewrite Hout in Hret. inversion Hret; subst. clear Hret.
    rewrite <- (handler_before_start self start_pos) in Hin.
    unfold range in Hin. apply checked_errors_In in Hin; [|apply Nat.le_refl].
    destruct Hin as [n [Hn [Hc He]]].
    apply Nat.ltb_lt in Hend.
    exists start_pos, n. repeat split; try assumption; lia.
  - rewrite Hout in Hret. inversion Hret; subst. contradiction.
Qed.


(** The second line of [setup] holds the registration pattern and a
    function-opening keyword, but not the text [function(]: the source
    tests for that text, so the scan stays in Normal, and the access to
    [game] inside the handler closure is reported. *)
Lemma handler_with_blank_not_entered_counterexample :
  Py.contains (line_at handler_with_blank_source 1) "script.on_event" = true
  /\ Re.count function_keyword (line_at handler_with_blank_source 1) = 1
  /\ enters_event_handler (line_at handler_with_blank_source 1) = false
  /\ in_event_handler (handler_after handler_with_blank_source 0 1) = false
  /\ check_forbidden_globals handler_with_blank_source "setup"
     = Return [(3, ForbiddenGlobal "setup" "game")].
Proof. repeat split; vm_compute; reflexivity. Qed.

(** Only a line after the definition line can end the handler state: a
    definition line that registers a handler and closes every block it
    opens leaves the flag on with the counter at 0, and the next line is
    the one that turns it off. *)
Remark handler_kept_on_definition_line :
  find_function_start handler_on_start_line "f" = Some 0
  /\ enters_event_handler (line_at handler_on_start_line 0) = true
  /\ handler_after handler_on_start_line 0 0 = mkHandlerState true 0
  /\ handler_after handler_on_start_line 0 1 = mkHandlerState false 0
  /\ check_forbidden_globals handler_on_start_line "f" = Return [].
Proof. repeat split; reflexivity. Qed.

Lemma handler_before_on_after_start (self : LuaParser)
  (start_pos line_num : nat) :
  in_event_handler (handler_before self start_pos line_num) = true ->
  start_pos < line_num.
Proof.
  intros Hon.
  destruct (Nat.lt_ge_cases start_pos line_num) as [Hlt|Hge]; [exact Hlt|].
  unfold handler_before, range in Hon.
  replace (line_num - start_pos) with 0 in Hon by lia.
  discriminate.
Qed.

Lemma handler_after_line (self : LuaParser) (start_pos line_num : nat) :
  start_pos <= line_num ->
  _is_in_comment self line_num 0 = false ->
  handler_after self start_pos line_num
  = fst (handler_step start_pos line_num (line_at self line_num)
           (handler_before self start_pos line_num)).
Proof.
  intros Hle Hcomment.
  rewrite handler_after_is_next, handler_before_next by assumption.
  now rewrite Hcomment.
Qed.

(** X22. The handler flag of [check_forbidden_globals].  The scan of a
    body keeps a flag (off: Normal, on: InNestedClosure) and a nested
    depth counter.  A line holding the text [script.on_event] and the
    text [function(] (the keyword directly followed by the parenthesis)
    is handled as if the flag were on with the counter at 0, and is not
    checked.  A line that the scan reaches with the flag on is not
    checked; it adds its [function] keywords to the counter and
    subtracts its [end] keywords, and the scan leaves the line with the
    flag off exactly when the counter is then 0 or below.  Every error
    of [check_forbidden_globals] is on a line that the scan reaches and
    leaves with the flag off and that registers no handler. *)
Theorem diagnostics_only_outside_event_handlers :
  (forall start_pos line_num line st,
      enters_event_handler line = true ->
      handler_step start_pos line_num line st
      = handler_step start_pos line_num line (mkHandlerState true 0)
      /\ snd (handler_step start_pos line_num line st) = false)
  /\ (forall self start_pos line_num,
         _is_in_comment self line_num 0 = false ->
         in_event_handler (handler_before self start_pos line_num) = true ->
         line_checked self start_pos line_num = false
         /\ event_handler_depth (handler_after self start_pos line_num)
            = ((if enters_event_handler (line_at self line_num) then 0
                else event_handler_depth
                       (handler_before self start_pos line_num))
               + depth_delta (line_at self line_num))%Z
         /\ in_event_handler (handler_after self start_pos line_num)
            = negb (event_handler_depth
                      (handler_after self start_pos line_num) <=? 0)%Z)
  /\ (forall self function_name errs line_no msg,
         check_forbidden_globals self function_name = Return errs ->
         In (line_no, msg) errs ->
         exists start_pos line_num,
           find_function_start self function_name = Some start_pos
           /\ line_no = line_num + 1
           /\ _is_in_comment self line_num 0 = false
           /\ enters_event_handler (line_at self line_num) = false
           /\ in_event_handler (handler_before self start_pos line_num)
              = false
           /\ in_event_handler (handler_after self start_pos line_num)
              = false).
Proof.
  split.
  { intros start_pos line_num line st Henter. unfold handler_step.
    rewrite Henter. simpl.
    destruct ((depth_delta line <=? 0)%Z && (start_pos <? line_num));
      split; reflexivity. }
  split.
  { intros self start_pos line_num Hcomment Hon.
    pose proof (handler_before_on_after_start _ _ _ Hon) as Hafter.
    unfold line_checked.
    rewrite handler_after_line by (lia || assumption).
    rewrite Hcomment. unfold handler_step.
    apply Nat.ltb_lt in Hafter.
    destruct (enters_event_handler (line_at self line_num)); simpl.
    - rewrite Hafter, andb_true_r.
      destruct (depth_delta (line_at self line_num) <=? 0)%Z eqn:Hd;
        simpl; rewrite ?Hd; repeat split.
    - rewrite Hon, Hafter, andb_true_r.
      destruct (event_handler_depth (handler_before self start_pos line_num)
                + depth_delta (line_at self line_num) <=? 0)%Z eqn:Hd;
        simpl; rewrite ?Hd; repeat split. }
  intros self function_name errs line_no msg Hret Hin.
  destruct (check_forbidden_globals_In _ _ _ _ Hret Hin)
    as [start_pos [n [Hs [Hn [_ [Hc He]]]]]].
  apply forbidden_accesses_line in He. destruct He as [Hno _].
  unfold line_checked in Hc. apply andb_true_iff in Hc.
  destruct Hc as [Hcomment Hstep]. apply negb_true_iff in Hcomment.
  pose proof (handler_step_checked _ _ _ _ Hstep) as [Henter [Hoff Hsame]].
  exists start_pos, n. repeat split; try assumption.
  rewrite handler_after_line by (lia || assumption).
  rewrite Hsame. exact Hoff.
Qed.

(** The flag at work: in the body of [setup] the handler closure
    spans lines 2 to 4, and the only error is on line 5. *)
Lemma diagnostics_only_outside_event_handlers_witness :
  exists start_pos line_num,
    find_function_start nested_handler_source "setup" = Some start_pos
    /\ 5 = line_num + 1
    /\ _is_in_comment nested_handler_source line_num 0 = false
    /\ enters_event_handler (line_at nested_handler_source line_num) = false
    /\ in_event_handler
         (handler_before nested_handler_source start_pos line_num) = false
    /\ in_event_handler
         (handler_after nested_handler_source start_pos line_num) = false.
Proof.
  apply (proj2 (proj2 diagnostics_only_outside_event_handlers)
           nested_handler_source "setup"
           [(5, ForbiddenGlobal "setup" "rendering")] 5
           (ForbiddenGlobal "setup" "rendering")).
  - vm_compute. reflexivity.
  - simpl. left. reflexivity.
Defined.

(** C6, the code at the failing input.  [setup] registers a handler on
    its second line, and the scan enters InNestedClosure there with the
    counter at 1.  The closure closes an [if] block on its fourth line.
    The nested counter takes the word [function] for the only opener and
    every word [end] for a closer: the [if] line adds nothing, its [end]
    brings the counter to 0 and the scan returns to Normal while the
    closure is still open.  The access to [game] on the fifth line,
    written inside the recognized closure, is checked and reported. *)
Theorem inner_block_end_leaves_handler_closure :
  find_function_start handler_with_inner_block_source "setup" = Some 0
  /\ find_function_end handler_with_inner_block_source 0 = 5
  /\ enters_event_handler (line_at handler_with_inner_block_source 1) = true
  /\ handler_after handler_with_inner_block_source 0 1
     = mkHandlerState true 1
  /\ depth_delta (line_at handler_with_inner_block_source 2) = 0%Z
  /\ handler_after handler_with_inner_block_source 0 2
     = mkHandlerState true 1
  /\ depth_delta (line_at handler_with_inner_block_source 3) = (-1)%Z
  /\ handler_after handler_with_inner_block_source 0 3
     = mkHandlerState false 0
  /\ line_checked handler_with_inner_block_source 0 4 = true
  /\ check_forbidden_globals handler_with_inner_block_source "setup"
     = Return [(5, ForbiddenGlobal "setup" "game")]
  /\ In "setup" (trace_call_chain ["setup"] handler_with_inner_block_corpus)
  /\ check_on_load_globals handler_with_inner_block_corpus
     = Return [("mod/setup.lua", 5, ForbiddenGlobal "setup" "game")].
Proof.
  split; [vm_compute; reflexivity|].
  split; [vm_compute; reflexivity|].
  split; [vm_compute; reflexivity|].
  split; [vm_compute; reflexivity|].
  split; [vm_compute; reflexivity|].
  split; [vm_compute; reflexivity|].
  split; [vm_compute; reflexivity|].
  split; [vm_compute; reflexivity|].
  split; [vm_compute; reflexivity|].
  split; [vm_compute; reflexivity|].
  split; [vm_compute; left; reflexivity|].
  vm_compute. reflexivity.
Qed.

(** ** A body that is never closed *)

(** C2, the code at the failing input.  When the body locator finds no
    end for the body of a reachable function, [end_pos] is the number of
    lines and the scan indexes the line list one past its end: the
    [IndexError] leaves [check_forbidden_globals] and, uncaught, the whole
    analysis. *)
Theorem unterminated_body_raises_IndexError :
  check_on_load_globals unterminated_corpus = Raise IndexError
  /\ (forall self function_name start_pos,
         find_function_start self function_name = Some start_pos ->
         find_function_end self start_pos = List.length (lines self) ->
         check_forbidden_globals self function_name = Raise IndexError).
Proof.
  split; [vm_compute; reflexivity|].
  intros self function_name start_pos Hs Hend.
  pose proof (check_forbidden_globals_outcome self function_name) as Hout.
  rewrite Hs in Hout. cbv zeta in Hout.
  rewrite Hend, Nat.ltb_irrefl in Hout. exact Hout.
Qed.

(** ** The driver *)

Lemma for_each_In {A B} (xs : list A) (body : A -> outcome (list B)) :
  forall out,
    for_each xs body = Return out ->
    forall y, In y out
              <-> exists x ys, In x xs /\ body x = Return ys /\ In y ys.
Proof.
  induction xs as [|x xs IH]; simpl; intros out Hout y.
  - inversion Hout; subst. split; [contradiction|].
    intros [x [ys [[] _]]].
  - destruct (body x) as [here|e] eqn:Hx; simpl in Hout; [|discriminate].
    destruct (for_each xs body) as [later|e] eqn:Hxs; simpl in Hout;
      [|discriminate].
    inversion Hout; subst. rewrite in_app_iff, (IH later eq_refl y). split.
    + intros [H|[x' [ys [Hin H]]]].
      * exists x, here. auto.
      * exists x', ys. split; [now right | exact H].
    + intros [x' [ys [[<-|Hin] [Hb Hy]]]].
      * left. congruence.
      * right. now exists x', ys.
Qed.

Lemma for_each_Return_each {A B} (xs : list A) (body : A -> outcome (list B)) :
  forall out,
    for_each xs body = Return out ->
    forall x, In x xs -> exists ys, body x = Return ys.
Proof.
  induction xs as [|x0 xs IH]; simpl; intros out Hout x Hin;
    [contradiction|].
  destruct (body x0) as [here|e] eqn:Hx; simpl in Hout; [|discriminate].
  destruct (for_each xs body) as [later|e] eqn:Hxs; simpl in Hout;
    [|discriminate].
  destruct Hin as [<-|Hin]; [now exists here | now apply (IH later)].
Qed.

Lemma trace_call_chain_no_seed (lua_files : list lua_file) :
  trace_call_chain [] lua_files = [].
Proof.
  rewrite trace_call_chain_unfold.
  now destruct (turns_left _ _ [] []).
Qed.

Lemma check_on_load_globals_traverses (lua_files : list lua_file)
  (entry text : string) (on_load_functions : list string) :
  find_control_lua lua_files = Some (entry, Some text) ->
  find_on_load_functions (LuaParser_init text) = Some on_load_functions ->
  on_load_functions <> [] ->
  check_on_load_globals lua_files
  = for_each (trace_call_chain on_load_functions lua_files)
      (check_function (load_parsers lua_files)).
Proof.
  intros Hc Hl Hne. unfold check_on_load_globals. rewrite Hc, Hl.
  destruct on_load_functions; [contradiction | reflexivity].
Qed.

Lemma check_function_In (parsers : list (string * LuaParser))
  (func_name : string) (out : list diagnostic) :
  check_function parsers func_name = Return out ->
  forall file line_no msg,
    In (file, line_no, msg) out
    <-> exists parser errs,
          In (file, parser) parsers
          /\ check_forbidden_globals parser func_name = Return errs
          /\ In (line_no, msg) errs.
Proof.
  intros Hout file line_no msg. unfold check_function in Hout.
  rewrite (for_each_In _ _ _ Hout). split.
  - intros [[file' parser] [ys [Hin [Hb Hy]]]].
    destruct (check_forbidden_globals parser func_name) as [errs|e] eqn:He;
      simpl in Hb; [|discriminate].
    inversion Hb; subst. apply in_map_iff in Hy.
    destruct Hy as [[l m] [Heq Hlm]]. inversion Heq; subst.
    now exists parser, errs.
  - intros [parser [errs [Hin [He Hlm]]]].
    exists (file, parser). eexists. split; [exact Hin|].
    rewrite He. simpl. split; [reflexivity|].
    apply in_map_iff. now exists (line_no, msg).
Qed.



(** ** Counting diagnostics *)

Lemma for_each_count {A B} (dec : forall x y : B, {x = y} + {x <> y})
  (xs : list A) (body : A -> outcome (list B)) (y : B) :
  forall out,
    for_each xs body = Return out ->
    count_occ dec out y
    = list_sum (map (fun x => match body x with
                              | Return ys => count_occ dec ys y
                              | Raise _ => 0
                              end) xs).
Proof.
  induction xs as [|x xs IH]; simpl; intros out Hout.
  - now inversion Hout.
  - destruct (body x) as [here|e] eqn:Hx; simpl in Hout; [|discriminate].
    destruct (for_each xs body) as [later|e] eqn:Hxs; simpl in Hout;
      [|discriminate].
    inversion Hout; subst. rewrite count_occ_app. now rewrite (IH later).
Qed.

Lemma list_sum_zero {A} (g : A -> nat) (xs : list A) :
  (forall x, In x xs -> g x = 0) -> list_sum (map g xs) = 0.
Proof.
  induction xs as [|x xs IH]; simpl; intros Hzero; [reflexivity|].
  rewrite (Hzero x) by now left.
  apply IH. intros y Hy. apply Hzero. now right.
Qed.

Lemma list_sum_single {A} (g : A -> nat) (xs : list A) (x0 : A) :
  NoDup xs -> In x0 xs ->
  (forall x, In x xs -> x <> x0 -> g x = 0) ->
  list_sum (map g xs) = g x0.
Proof.
  induction xs as [|x xs IH]; simpl; intros Hnd Hin Hzero; [contradiction|].
  inversion Hnd as [|? ? Hnotin Hnd']; subst.
  destruct Hin as [->|Hin].
  - rewrite list_sum_zero; [lia|].
    intros y Hy. apply Hzero; [now right|].
    intros ->. contradiction.
  - rewrite IH; [| assumption | assumption |].
    + rewrite (Hzero x); [lia | now left |].
      intros ->. contradiction.
    + intros y Hy. apply Hzero. now right.
Qed.

Lemma count_occ_const {A B} (dec : forall x y : B, {x = y} + {x <> y})
  (c y : B) (l : list A) :
  count_occ dec (map (fun _ => c) l) y
  = if dec c y then List.length l else 0.
Proof.
  induction l as [|a l IH]; simpl.
  - now destruct (dec c y).
  - destruct (dec c y); [now rewrite IH | exact IH].
Qed.

Lemma checked_errors_count (self : LuaParser) (function_name : string)
  (start_pos : nat) (e : nat * message) :
  forall (k a : nat),
    start_pos <= a ->
    count_occ error_eq_dec
      (checked_errors self function_name start_pos (seq a k)
         (handler_before self start_pos a)) e
    = list_sum
        (map (fun n =>
                if line_checked self start_pos n
                then count_occ error_eq_dec
                       (forbidden_accesses function_name n (line_at self n)) e
                else 0)
           (seq a k)).
Proof.
  induction k as [|k IH]; intros a Hle; simpl; [reflexivity|].
  pose proof (handler_before_next self start_pos a Hle) as Hnext.
  assert (Hchk : line_checked self start_pos a
                 = negb (_is_in_comment self a 0)
                   && snd (handler_step start_pos a (line_at self a)
                             (handler_before self start_pos a)))
    by reflexivity.
  destruct (_is_in_comment self a 0) eqn:Hcomment.
  - rewrite <- Hnext, IH by lia. now rewrite Hchk.
  - destruct (handler_step start_pos a (line_at self a)
                (handler_before self start_pos a)) as [st' checked] eqn:Hs.
    simpl in Hnext, Hchk. rewrite <- Hnext.
    rewrite count_occ_app, IH by lia. rewrite Hchk.
    now destruct checked.
Qed.

Lemma forbidden_accesses_count (function_name global_name : string)
  (n : nat) (line : string) :
  In global_name FORBIDDEN_ON_LOAD_GLOBALS ->
  count_occ error_eq_dec (forbidden_accesses function_name n line)
    (n + 1, ForbiddenGlobal function_name global_name)
  = List.length (global_accesses global_name line).
Proof.
  intros Hg. unfold forbidden_accesses, FORBIDDEN_ON_LOAD_GLOBALS in *.
  cbn [flat_map]. rewrite !count_occ_app, !count_occ_const.
  cbn [count_occ].
  destruct Hg as [<-|[<-|[]]];
    repeat match goal with
           | |- context [error_eq_dec ?a ?b] =>
               let H := fresh in
               destruct (error_eq_dec a b) as [H|H];
               [try discriminate H | try (now contradiction H)]
           end; lia.
Qed.

Lemma check_forbidden_globals_count (self : LuaParser)
  (function_name global_name : string) (line_num : nat)
  (errs : list (nat * message)) :
  check_forbidden_globals self function_name = Return errs ->
  In global_name FORBIDDEN_ON_LOAD_GLOBALS ->
  checked_in_body self function_name line_num = true ->
  count_occ error_eq_dec errs
    (line_num + 1, ForbiddenGlobal function_name global_name)
  = List.length (global_accesses global_name (line_at self line_num)).
Proof.
  intros Hret Hg Hbody.
  pose proof (check_forbidden_globals_outcome self function_name) as Hout.
  unfold checked_in_body in Hbody.
  destruct (find_function_start self function_name) as [start_pos|] eqn:Hs;
    [|discriminate].
  cbv zeta in Hout.
  destruct (find_function_end self start_pos <? List.length (lines self))
    eqn:Hend; [|congruence].
  rewrite Hout in Hret. inversion Hret; subst. clear Hret Hout.
  apply andb_true_iff in Hbody. destruct Hbody as [Hrange Hchecked].
  apply andb_true_iff in Hrange. destruct Hrange as [Hlo Hhi].
  apply Nat.leb_le in Hlo. apply Nat.leb_le in Hhi.
  rewrite <- (handler_before_start self start_pos). unfold range.
  rewrite checked_errors_count by apply Nat.le_refl.
  rewrite (list_sum_single _ _ line_num).
  - rewrite Hchecked. now apply forbidden_accesses_count.
  - apply seq_NoDup.
  - apply in_seq. lia.
  - intros n _ Hne.
    destruct (line_checked self start_pos n); [|reflexivity].
    apply count_occ_not_In. intros Hin.
    apply forbidden_accesses_line in Hin. destruct Hin as [Heq _]. lia.
Qed.

Lemma load_parsers_NoDup (lua_files : list lua_file) :
  NoDup (Py.dict_keys (load_parsers lua_files)).
Proof.
  unfold load_parsers.
  assert (H : forall acc : list (string * LuaParser),
             NoDup (Py.dict_keys acc) ->
             NoDup (Py.dict_keys
                      (fold_left
                         (fun parsers (file : lua_file) =>
                            match snd file with
                            | Some text =>
                                Py.dict_set parsers (fst file)
                                  (LuaParser_init text)
                            | None => parsers
                            end) lua_files acc))).
  { induction lua_files as [|[path text] files IH]; simpl; intros acc Hacc;
      [assumption|].
    apply IH. destruct text; [now apply dict_keys_set_NoDup | assumption]. }
  apply H. constructor.
Qed.

Lemma check_function_count (parsers : list (string * LuaParser))
  (func_name file : string) (parser : LuaParser) (out : list diagnostic)
  (errs : list (nat * message)) (line_no : nat) (msg : message) :
  NoDup (Py.dict_keys parsers) ->
  In (file, parser) parsers ->
  check_function parsers func_name = Return out ->
  check_forbidden_globals parser func_name = Return errs ->
  count_occ diagnostic_eq_dec out (file, line_no, msg)
  = count_occ error_eq_dec errs (line_no, msg).
Proof.
  intros Hnd Hin Hout Herrs. unfold check_function in Hout.
  rewrite (for_each_count diagnostic_eq_dec _ _ _ _ Hout).
  rewrite (list_sum_single _ _ (file, parser)).
  - rewrite Herrs. cbn [bind].
    symmetry.
    apply (count_occ_map
             (fun '(line_num, error_msg) => (file, line_num, error_msg))
             error_eq_dec diagnostic_eq_dec).
    intros [l1 m1] [l2 m2] Heq. now inversion Heq.
  - now apply NoDup_map_inv in Hnd.
  - exact Hin.
  - intros [file' parser'] Hin' Hne.
    destruct (check_forbidden_globals parser' func_name) as [errs'|];
      simpl; [|reflexivity].
    apply count_occ_not_In. intros Hd.
    apply in_map_iff in Hd. destruct Hd as [[l m] [Heq _]].
    inversion Heq; subst.
    apply Hne. f_equal.
    pose proof (dict_get_In _ _ _ Hnd Hin) as H1.
    pose proof (dict_get_In _ _ _ Hnd Hin') as H2.
    congruence.
Qed.

Lemma trace_call_chain_NoDup (initial_functions : list string)
  (lua_files : list lua_file) :
  NoDup (trace_call_chain initial_functions lua_files).
Proof.
  rewrite trace_call_chain_unfold.
  eapply traces_invariant.
  - apply trace_loop_traces. apply Nat.le_refl.
  - constructor.
  - intros x [].
Qed.

(** The second line of [setup] holds two accesses to [game] at top level,
    and the output holds two diagnostics for that file, line and global:
    each match gives a diagnostic of its own. *)
Lemma two_accesses_two_diagnostics_counterexample :
  In "setup" (trace_call_chain ["setup"] two_accesses_on_a_line)
  /\ checked_in_body
       (LuaParser_init
          (Py.join_lines ["function setup()"; "  game.x = game.y"; "end"]))
       "setup" 1 = true
  /\ check_on_load_globals two_accesses_on_a_line
     = Return [("mod/setup.lua", 2, ForbiddenGlobal "setup" "game");
               ("mod/setup.lua", 2, ForbiddenGlobal "setup" "game")].
Proof.
  split; [vm_compute; left; reflexivity|].
  split; vm_compute; reflexivity.
Qed.

(** X21. One diagnostic for each match on a checked line.  When the
    analysis returns, then for every forbidden global, every reachable
    function name, every loaded file and every line that the scan of the
    body located for that name in that file checks (a line from the
    located start to the located end that does not start in a comment
    and that the handler flag lets through), the output holds one
    diagnostic for that file, line, function name and global for each
    match of the global on the line that does not start inside a string:
    as many equal diagnostics as matches, so at least one when there is
    a match. *)
Theorem forbidden_access_reported_once_per_match :
  forall lua_files entry text on_load_functions out
         func_name file parser global_name line_num,
    find_control_lua lua_files = Some (entry, Some text) ->
    find_on_load_functions (LuaParser_init text) = Some on_load_functions ->
    check_on_load_globals lua_files = Return out ->
    In func_name (trace_call_chain on_load_functions lua_files) ->
    In (file, parser) (load_parsers lua_files) ->
    In global_name FORBIDDEN_ON_LOAD_GLOBALS ->
    checked_in_body parser func_name line_num = true ->
    count_occ diagnostic_eq_dec out
      (file, line_num + 1, ForbiddenGlobal func_name global_name)
    = List.length (global_accesses global_name (line_at parser line_num))
    /\ (global_accesses global_name (line_at parser line_num) <> [] ->
        In (file, line_num + 1, ForbiddenGlobal func_name global_name) out).
Proof.
  intros lua_files entry text on_load_functions out func_name file parser
    global_name line_num Hc Hl Hout Hf Hp Hg Hbody.
  assert (Hne : on_load_functions <> []).
  { intros ->. now rewrite trace_call_chain_no_seed in Hf. }
  rewrite (check_on_load_globals_traverses _ _ _ _ Hc Hl Hne) in Hout.
  assert (Hcount :
    count_occ diagnostic_eq_dec out
      (file, line_num + 1, ForbiddenGlobal func_name global_name)
    = List.length (global_accesses global_name (line_at parser line_num))).
  { rewrite (for_each_count diagnostic_eq_dec _ _ _ _ Hout).
    rewrite (list_sum_single _ _ func_name).
    - destruct (for_each_Return_each _ _ _ Hout func_name Hf) as [ys Hys].
      rewrite Hys.
      destruct (check_forbidden_globals parser func_name) as [errs|e]
        eqn:Herrs.
      + rewrite (check_function_count _ _ _ _ _ errs
                   (line_num + 1) (ForbiddenGlobal func_name global_name)
                   (load_parsers_NoDup lua_files) Hp Hys Herrs).
        now apply check_forbidden_globals_count.
      + exfalso. unfold check_function in Hys.
        destruct (for_each_Return_each _ _ _ Hys (file, parser) Hp)
          as [zs Hzs].
        rewrite Herrs in Hzs. discriminate.
    - apply trace_call_chain_NoDup.
    - exact Hf.
    - intros f' Hf' Hne'.
      destruct (check_function (load_parsers lua_files) f') as [ys|] eqn:Hys;
        [|reflexivity].
      apply count_occ_not_In. intros Hd.
      apply (check_function_In _ _ _ Hys) in Hd.
      destruct Hd as [parser' [errs [_ [He Hin]]]].
      destruct (check_forbidden_globals_In _ _ _ _ He Hin)
        as [s [n [_ [_ [_ [_ Hacc]]]]]].
      apply forbidden_accesses_line in Hacc.
      destruct Hacc as [_ [g [_ [Hmsg _]]]]. congruence. }
  split; [exact Hcount|].
  intros Hacc. apply (count_occ_In diagnostic_eq_dec). rewrite Hcount.
  destruct (global_accesses global_name (line_at parser line_num));
    [contradiction | simpl; lia].
Qed.

(** Scenario A: one access on the checked line, one diagnostic. *)
Lemma forbidden_access_reported_once_per_match_witness :
  count_occ diagnostic_eq_dec
    [("mod/lib/setup.lua", 2, ForbiddenGlobal "setup" "rendering")]
    ("mod/lib/setup.lua", 1 + 1, ForbiddenGlobal "setup" "rendering")
  = List.length
      (global_accesses "rendering"
         (line_at
            (LuaParser_init
               (Py.join_lines
                  ["local function setup()"; "  rendering.draw_line()";
                   "end"])) 1))
  /\ (global_accesses "rendering"
        (line_at
           (LuaParser_init
              (Py.join_lines
                 ["local function setup()"; "  rendering.draw_line()";
                  "end"])) 1) <> [] ->
      In ("mod/lib/setup.lua", 1 + 1, ForbiddenGlobal "setup" "rendering")
        [("mod/lib/setup.lua", 2, ForbiddenGlobal "setup" "rendering")]).
Proof.
  apply (forbidden_access_reported_once_per_match scenario_a
           "mod/control.lua" control_calls_setup ["setup"]).
  - vm_compute. reflexivity.
  - vm_compute. reflexivity.
  - vm_compute. reflexivity.
  - vm_compute. left. reflexivity.
  - vm_compute. right. left. reflexivity.
  - vm_compute. right. left. reflexivity.
  - vm_compute. reflexivity.
Defined.

(** C1, the code at the failing input.  [setup] is reachable; its body
    closes an [if] block on its third line and reads [game] on its
    fourth line, at top level: outside every string, comment and handler
    closure.  The body locator takes the word [function] for the only
    opener and every word [end] for a closer: the [if] line adds
    nothing, its [end] brings the counter back to 0, and the located
    body ends on the third line.  The fourth line is never scanned and
    the analysis returns no diagnostic where the claim asks for one.  No
    error of [check_forbidden_globals] ever lies after the located end
    of the body. *)
Theorem access_after_inner_block_is_not_reported :
  In "setup" (trace_call_chain ["setup"] access_after_inner_block_corpus)
  /\ find_function_start access_after_inner_block_source "setup" = Some 0
  /\ depth_delta (line_at access_after_inner_block_source 1) = 0%Z
  /\ depth_delta (line_at access_after_inner_block_source 2) = (-1)%Z
  /\ find_function_end access_after_inner_block_source 0 = 2
  /\ _is_in_comment access_after_inner_block_source 3 0 = false
  /\ List.length
       (global_accesses "game" (line_at access_after_inner_block_source 3))
     = 1
  /\ check_forbidden_globals access_after_inner_block_source "setup"
     = Return []
  /\ check_on_load_globals access_after_inner_block_corpus = Return []
  /\ (forall self function_name errs start_pos line_no msg,
         check_forbidden_globals self function_name = Return errs ->
         find_function_start self function_name = Some start_pos ->
         In (line_no, msg) errs ->
         line_no <= find_function_end self start_pos + 1).
Proof.
  split; [vm_compute; left; reflexivity|].
  split; [vm_compute; reflexivity|].
  split; [vm_compute; reflexivity|].
  split; [vm_compute; reflexivity|].
  split; [vm_compute; reflexivity|].
  split; [vm_compute; reflexivity|].
  split; [vm_compute; reflexivity|].
  split; [vm_compute; reflexivity|].
  split; [vm_compute; reflexivity|].
  intros self function_name errs start_pos line_no msg Hret Hs Hin.
  destruct (check_forbidden_globals_In _ _ _ _ Hret Hin)
    as [s [n [Hs' [Hn [_ [_ He]]]]]].
  rewrite Hs in Hs'. inversion Hs'; subst s.
  destruct (forbidden_accesses_line _ _ _ _ _ He) as [-> _]. lia.
Qed.

(** ** The setup error *)




(** ** Unreadable files *)

Lemma find_skips (f : lua_file -> bool) (x : lua_file)
  (before after : list lua_file) :
  f x = false ->
  List.find f (before ++ x :: after) = List.find f (before ++ after).
Proof.
  intros Hx. induction before as [|y before IH]; simpl.
  - now rewrite Hx.
  - destruct (f y); [reflexivity | exact IH].
Qed.

Lemma index_files_skips_unreadable (before after : list lua_file)
  (path : string) :
  index_files (before ++ (path, None) :: after)
  = index_files (before ++ after).
Proof.
  unfold index_files. rewrite !fold_left_app. simpl.
  now destruct (fold_left index_file before ([], [])).
Qed.

Lemma load_parsers_skips_unreadable (before after : list lua_file)
  (path : string) :
  load_parsers (before ++ (path, None) :: after)
  = load_parsers (before ++ after).
Proof. unfold load_parsers. now rewrite !fold_left_app. Qed.

(** C5, the claim as stated fails.  Scenario A with an unreadable file
    added gives the output of scenario A: one content violation, and no
    diagnostic at line 0 for the unreadable file. *)
Lemma unreadable_file_no_diagnostic_counterexample :
  In ("mod/bad.lua", None) scenario_a_with_unreadable_file
  /\ check_on_load_globals scenario_a_with_unreadable_file
     = Return [("mod/lib/setup.lua", 2, ForbiddenGlobal "setup" "rendering")].
Proof.
  split; [right; left; reflexivity | vm_compute; reflexivity].
Qed.

(** C5, amended.  A file of the corpus that cannot be read, other than
    the entry file, is skipped without a diagnostic: the parsers, the
    function index and the whole output are those of the corpus without
    that file, so its functions are absent from the index and every other
    file is indexed, traversed and checked as before. *)
Theorem unreadable_file_skipped_silently :
  forall (before after : list lua_file) (path : string),
    path_name path <> "control.lua" ->
    index_files (before ++ (path, None) :: after)
    = index_files (before ++ after)
    /\ load_parsers (before ++ (path, None) :: after)
       = load_parsers (before ++ after)
    /\ check_on_load_globals (before ++ (path, None) :: after)
       = check_on_load_globals (before ++ after).
Proof.
  intros before after path Hname.
  split; [apply index_files_skips_unreadable|].
  split; [apply load_parsers_skips_unreadable|].
  unfold check_on_load_globals, find_control_lua, trace_call_chain.
  rewrite find_skips by (simpl; now apply String.eqb_neq).
  now rewrite index_files_skips_unreadable, load_parsers_skips_unreadable.
Qed.

Lemma unreadable_file_skipped_silently_witness :
  index_files scenario_a_with_unreadable_file = index_files scenario_a
  /\ load_parsers scenario_a_with_unreadable_file = load_parsers scenario_a
  /\ check_on_load_globals scenario_a_with_unreadable_file
     = check_on_load_globals scenario_a.
Proof.
  apply (unreadable_file_skipped_silently
           [("mod/control.lua", Some control_calls_setup)]
           [("mod/lib/setup.lua",
             Some (Py.join_lines
                     ["local function setup()"; "  rendering.draw_line()";
                      "end"]))]
           "mod/bad.lua").
  vm_compute. discriminate.
Defined.

(** ** Calls in comments and strings *)

(** C8, the code at the failing input.  [find_function_calls] joins the
    lines of the body and takes every match of the call pattern in the
    joined text: [g], on a line that starts in a comment, and [h], whose
    match starts inside a string, are returned with [f].  A function
    named only in a comment thereby becomes reachable and is checked. *)
Theorem find_function_calls_keeps_comments_and_strings :
  find_function_calls calls_in_comment_and_string "f" = ["f"; "g"; "h"]
  /\ _is_in_comment calls_in_comment_and_string 1 0 = true
  /\ Py.char_at (line_at calls_in_comment_and_string 2) 13 = Some "h"%char
  /\ _is_in_string (line_at calls_in_comment_and_string 2) 13 = true
  /\ trace_call_chain ["f"] call_only_in_comment = ["f"; "old_init"]
  /\ check_on_load_globals call_only_in_comment
     = Return [("mod/a.lua", 5, ForbiddenGlobal "old_init" "game")].
Proof. repeat split; vm_compute; reflexivity. Qed.

(** ** Indented comment lines *)

(** C7, the code at the failing input.  The locator asks whether column 0
    of a line lies in a comment, so a comment line that starts with blanks
    is not skipped: the [end] in the comment on the second line of [setup]
    is counted, the counter is back to 0 there, and the body ends at the
    comment instead of the last line.  The access to [game] on the third
    line is then outside the scanned body and the analysis reports
    nothing. *)
Theorem indented_comment_line_is_counted :
  Py.find (line_at indented_comment_source 1) "--" = 2%Z
  /\ _is_in_string (line_at indented_comment_source 1) 2 = false
  /\ _is_in_comment indented_comment_source 1 0 = false
  /\ depth_delta (line_at indented_comment_source 1) = (-1)%Z
  /\ find_function_start indented_comment_source "setup" = Some 0
  /\ find_function_end indented_comment_source 0 = 1
  /\ check_forbidden_globals indented_comment_source "setup" = Return []
  /\ check_on_load_globals indented_comment_corpus = Return [].
Proof. repeat split; vm_compute; reflexivity. Qed.

(** * Further properties of the code *)

(** ** The tracer computes reachability *)

Section ReachFacts.
Variable parsers : list (string * LuaParser).
Variable all_functions : list (string * string).
Variable seeds : list string.

Let found := reachable_from parsers all_functions seeds.

Lemma traces_sound (visited to_visit result : list string) :
  traces parsers all_functions visited to_visit result ->
  (forall x, In x visited -> found x) ->
  (forall x, In x to_visit ->
             Py.dict_has all_functions x = true -> found x) ->
  forall x, In x result -> found x.
Proof.
  induction 1 as [v | v f q r Hc _ IH | v f q r Hc _ IH]; intros Hv Hq.
  - exact Hv.
  - apply IH; [exact Hv|]. intros x Hx. apply Hq. now right.
  - apply orb_false_elim in Hc. destruct Hc as [_ Hidx].
    apply negb_false_iff in Hidx.
    assert (Hf : found f) by (apply Hq; [now left | exact Hidx]).
    apply IH.
    + intros x Hx. apply in_app_or in Hx.
      destruct Hx as [Hx|[<-|[]]]; [now apply Hv | exact Hf].
    + intros x Hx Hix. apply in_app_or in Hx. destruct Hx as [Hx|Hx].
      * apply Hq; [now right | exact Hix].
      * now apply (reach_call _ _ _ f).
Qed.

Lemma traces_complete (visited to_visit result : list string) :
  traces parsers all_functions visited to_visit result ->
  (forall s, In s seeds -> Py.dict_has all_functions s = true ->
             In s visited \/ In s to_visit) ->
  (forall x g, In x visited -> In g (calls_of parsers all_functions x) ->
               Py.dict_has all_functions g = true ->
               In g visited \/ In g to_visit) ->
  (forall s, In s seeds -> Py.dict_has all_functions s = true -> In s result)
  /\ (forall x g, In x result -> In g (calls_of parsers all_functions x) ->
                  Py.dict_has all_functions g = true -> In g result).
Proof.
  induction 1 as [v | v f q r Hc _ IH | v f q r Hc _ IH]; intros Hs Hcl.
  - split.
    + intros s H1 H2. destruct (Hs s H1 H2) as [H|[]]. exact H.
    + intros x g H1 H2 H3. destruct (Hcl x g H1 H2 H3) as [H|[]]. exact H.
  - assert (Hdrop : forall y, Py.dict_has all_functions y = true ->
                              In y v \/ In y (f :: q) -> In y v \/ In y q).
    { intros y Hy [H|[<-|H]]; [now left | | now right].
      left. apply orb_true_iff in Hc. destruct Hc as [Hm|Hn].
      - now apply mem_In.
      - rewrite Hy in Hn. discriminate. }
    apply IH.
    + intros s H1 H2. apply Hdrop; [exact H2 | now apply Hs].
    + intros x g H1 H2 H3. apply Hdrop; [exact H3 | now apply (Hcl x)].
  - assert (Hmove : forall y, In y v \/ In y (f :: q) ->
                              In y (v ++ [f])
                              \/ In y (q ++ calls_of parsers all_functions f)).
    { intros y [H|[<-|H]].
      - left. apply in_or_app. now left.
      - left. apply in_or_app. right. now left.
      - right. apply in_or_app. now left. }
    apply IH.
    + intros s H1 H2. apply Hmove. now apply Hs.
    + intros x g H1 H2 H3. apply in_app_or in H1.
      destruct H1 as [H1|[<-|[]]].
      * apply Hmove. now apply (Hcl x).
      * right. apply in_or_app. now right.
Qed.
End ReachFacts.

(** X2. The set returned by [trace_call_chain] is exactly the set of
    indexed names that can be reached from the seeds: a name is returned
    if and only if it is an indexed seed or an indexed name among the
    calls found in the body of a returned name.  Seeds and calls that the
    index does not know are dropped and never followed. *)
Theorem trace_call_chain_reachability :
  forall (initial_functions : list string) (lua_files : list lua_file)
         (func_name : string),
    In func_name (trace_call_chain initial_functions lua_files)
    <-> reachable_from (fst (index_files lua_files))
          (function_index lua_files) initial_functions func_name.
Proof.
  intros seeds lua_files func_name.
  assert (Hrun : traces (fst (index_files lua_files))
                   (function_index lua_files) [] seeds
                   (trace_call_chain seeds lua_files)).
  { rewrite trace_call_chain_unfold.
    apply trace_loop_traces. apply Nat.le_refl. }
  split.
  - apply (traces_sound _ _ seeds _ _ _ Hrun).
    + intros x [].
    + intros x Hx Hix. now apply reach_seed.
  - destruct (traces_complete _ _ seeds _ _ _ Hrun) as [Hseed Hclosed].
    + intros s H1 H2. now right.
    + intros x g [].
    + induction 1 as [f Hin Hix | f g _ IH Hcall Hix].
      * now apply Hseed.
      * now apply (Hclosed f).
Qed.

(** ** Lines and positions *)

Lemma split_lines_not_nil (s : string) : Py.split_lines s <> [].
Proof.
  destruct s as [|c s]; simpl; [discriminate|].
  destruct (Py.is_newline c); [discriminate|].
  destruct (Py.split_lines s); discriminate.
Qed.

Lemma join_split_lines (s : string) : Py.join_lines (Py.split_lines s) = s.
Proof.
  induction s as [|c s IH]; [reflexivity|].
  cbn [Py.split_lines].
  destruct (Py.is_newline c) eqn:Hc.
  - apply Ascii.eqb_eq in Hc. subst c.
    destruct (Py.split_lines s) as [|h t] eqn:Hs.
    + now apply split_lines_not_nil in Hs.
    + cbn [Py.join_lines]. simpl. now rewrite <- IH.
  - destruct (Py.split_lines s) as [|h t] eqn:Hs.
    + now apply split_lines_not_nil in Hs.
    + rewrite <- IH. destruct t; reflexivity.
Qed.

Lemma split_lines_one_line (s : string) :
  Forall (fun line => one_line line = true) (Py.split_lines s).
Proof.
  induction s as [|c s IH]; simpl.
  - constructor; [reflexivity | constructor].
  - destruct (Py.is_newline c) eqn:Hc.
    + constructor; [reflexivity | exact IH].
    + destruct (Py.split_lines s) as [|h t]; inversion IH; subst.
      * constructor; [|constructor]. unfold one_line. simpl. now rewrite Hc.
      * constructor; [|assumption]. unfold one_line in *. simpl.
        now rewrite Hc.
Qed.

Lemma split_join_lines (ls : list string) :
  ls <> [] -> Forall (fun line => one_line line = true) ls ->
  Py.split_lines (Py.join_lines ls) = ls.
Proof.
  induction ls as [|l ls IH]; intros Hne Hall; [contradiction|].
  inversion Hall as [|? ? Hl Hls]; subst. clear Hne Hall.
  destruct ls as [|l' ls'].
  - simpl. clear IH Hls. induction l as [|c l IHl]; [reflexivity|].
    unfold one_line in Hl. simpl in Hl. apply andb_true_iff in Hl.
    destruct Hl as [Hc Hl]. apply negb_true_iff in Hc.
    simpl. rewrite Hc. now rewrite (IHl Hl).
  - assert (IH' : Py.split_lines (Py.join_lines (l' :: ls')) = l' :: ls')
      by (apply IH; [discriminate | assumption]).
    cbn [Py.join_lines]. cbn [Py.join_lines] in IH'.
    clear IH Hls. induction l as [|c l IHl].
    + simpl. now rewrite IH'.
    + unfold one_line in Hl. simpl in Hl. apply andb_true_iff in Hl.
      destruct Hl as [Hc Hl]. apply negb_true_iff in Hc.
      simpl. rewrite Hc. now rewrite (IHl Hl).
Qed.

Lemma join_lines_cons (l : string) (ls : list string) :
  ls <> [] ->
  Py.join_lines (l :: ls)
  = (l ++ String Py.newline (Py.join_lines ls))%string.
Proof. destruct ls; [contradiction | reflexivity]. Qed.

Lemma char_at_join_lines (ls : list string) :
  forall (n pos : nat),
    n < List.length ls ->
    pos < String.length (nth n ls EmptyString) ->
    Py.char_at (Py.join_lines ls)
      (list_sum (map (fun line => String.length line + 1) (firstn n ls)) + pos)
    = Py.char_at (nth n ls EmptyString) pos.
Proof.
  unfold Py.char_at.
  induction ls as [|l ls IH]; intros n pos Hn Hpos; [simpl in Hn; lia|].
  destruct n as [|n].
  - simpl in *. destruct ls as [|l' ls']; [reflexivity|].
    symmetry. now apply append_correct1.
  - assert (Hne : ls <> []) by (intros ->; simpl in Hn; lia).
    rewrite (join_lines_cons l ls Hne).
    simpl in Hn, Hpos. simpl firstn. simpl map. simpl list_sum. simpl nth.
    replace (String.length l + 1
             + list_sum (map (fun line => String.length line + 1)
                           (firstn n ls)) + pos)
      with (S (list_sum (map (fun line => String.length line + 1)
                           (firstn n ls)) + pos)
            + String.length l) by lia.
    rewrite <- append_correct2. simpl String.get.
    apply IH; [lia | exact Hpos].
Qed.

(** X3. The parser keeps its text and its lines in step.  The lines of
    [LuaParser.__init__] are never empty as a list, hold no line break
    and join back to the text; and for a position inside a line
    [_line_pos_to_absolute] gives the index of the same character in the
    text. *)
Theorem line_positions_address_the_text :
  forall (content : string),
    lines (LuaParser_init content) <> []
    /\ Forall (fun line => one_line line = true)
         (lines (LuaParser_init content))
    /\ Py.join_lines (lines (LuaParser_init content)) = content
    /\ forall line_num pos,
         line_num < List.length (lines (LuaParser_init content)) ->
         pos < String.length (line_at (LuaParser_init content) line_num) ->
         Py.char_at content
           (_line_pos_to_absolute (LuaParser_init content) line_num pos)
         = Py.char_at (line_at (LuaParser_init content) line_num) pos.
Proof.
  intros content. simpl.
  split; [apply split_lines_not_nil|].
  split; [apply split_lines_one_line|].
  split; [apply join_split_lines|].
  intros line_num pos Hn Hpos.
  unfold _line_pos_to_absolute, line_at in *. simpl in *.
  rewrite <- (join_split_lines content) at 1.
  now apply char_at_join_lines.
Qed.

(** X3 at work: column 2 of the second line of scenario A's entry file. *)
Lemma line_positions_address_the_text_witness :
  Py.char_at control_calls_setup
    (_line_pos_to_absolute (LuaParser_init control_calls_setup) 1 2)
  = Py.char_at (line_at (LuaParser_init control_calls_setup) 1) 2.
Proof.
  apply (proj2 (proj2 (proj2
           (line_positions_address_the_text control_calls_setup)))).
  - vm_compute. lia.
  - vm_compute. lia.
Defined.

(** ** The function index of one file *)

Lemma fold_left_flat_map {A B C} (g : A -> C -> A) (f : B -> list C)
  (xs : list B) :
  forall a,
    fold_left g (flat_map f xs) a
    = fold_left (fun a x => fold_left g (f x) a) xs a.
Proof.
  induction xs as [|x xs IH]; intros a; simpl; [reflexivity|].
  now rewrite fold_left_app, IH.
Qed.

Lemma find_function_definitions_writes (self : LuaParser) :
  find_function_definitions self = fold_left write (definition_sites self) [].
Proof.
  unfold find_function_definitions, definition_sites.
  rewrite fold_left_flat_map.
  apply fold_left_same. intros d [line_num line].
  unfold line_definitions.
  destruct (_is_in_comment self line_num 0); [reflexivity|].
  rewrite fold_left_flat_map.
  apply fold_left_same. intros d' m.
  destruct (negb (_is_in_string line (Z.of_nat (Re.m_start m))));
    [|reflexivity].
  destruct (group_1_or_2 line m); reflexivity.
Qed.

Lemma dict_set_In {V} (d : list (string * V)) (k : string) (v : V) :
  NoDup (Py.dict_keys d) ->
  forall k' v',
    In (k', v') (Py.dict_set d k v)
    <-> (k' = k /\ v' = v) \/ (k' <> k /\ In (k', v') d).
Proof.
  induction d as [|[k0 v0] d IH]; simpl; intros Hnd k' v'.
  - split.
    + intros [H|[]]. inversion H. now left.
    + intros [[-> ->]|[_ []]]. now left.
  - inversion Hnd as [|? ? Hnotin Hnd']; subst.
    destruct (String.eqb_spec k k0) as [->|Hne]; simpl.
    + split.
      * intros [H|H]; [inversion H; now left|].
        right. split; [|now right].
        intros ->. apply Hnotin. apply (in_map fst) in H. exact H.
      * intros [[-> ->]|[Hk [H|H]]]; [now left | | now right].
        inversion H. congruence.
    + rewrite (IH Hnd'). split.
      * intros [H|[H|[Hk H]]].
        -- inversion H; subst. right. split; [congruence | now left].
        -- now left.
        -- right. split; [exact Hk | now right].
      * intros [H|[Hk [H|H]]].
        -- right. now left.
        -- now left.
        -- right. right. now split.
Qed.

(** A dictionary filled by a list of writes holds, for each key, the
    value of the last write to it. *)
Lemma fold_write_In {V} (ws : list (string * V)) :
  forall (d : list (string * V)),
    NoDup (Py.dict_keys d) ->
    NoDup (Py.dict_keys (fold_left write ws d))
    /\ forall k v,
         In (k, v) (fold_left write ws d)
         <-> (exists l1 l2, ws = l1 ++ (k, v) :: l2 /\ ~ In k (map fst l2))
             \/ (~ In k (map fst ws) /\ In (k, v) d).
Proof.
  induction ws as [|[k0 v0] ws IH]; intros d Hnd; simpl.
  - split; [exact Hnd|]. intros k v. split.
    + intros H. right. split; [intros [] | exact H].
    + intros [[l1 [l2 [H _]]]|[_ H]]; [|exact H].
      destruct l1; discriminate.
  - assert (Hnd' : NoDup (Py.dict_keys (write d (k0, v0))))
      by now apply dict_keys_set_NoDup.
    destruct (IH _ Hnd') as [Hres Hin]. split; [exact Hres|].
    intros k v. rewrite Hin. unfold write at 1. simpl.
    rewrite (dict_set_In d k0 v0 Hnd). split.
    + intros [[l1 [l2 [-> Hl2]]]|[Hk [[-> ->]|[Hne H]]]].
      * left. exists ((k0, v0) :: l1), l2. now split.
      * left. exists [], ws. now split.
      * right. split; [|exact H]. intros [Heq|Hin']; [congruence | now apply Hk].
    + intros [[l1 [l2 [Heq Hl2]]]|[Hk H]].
      * destruct l1 as [|w l1]; simpl in Heq; inversion Heq; subst.
        -- right. split; [exact Hl2 | now left].
        -- left. now exists l1, l2.
      * right. split; [intros Hin'; apply Hk; now right|].
        right. split; [|exact H]. intros ->. apply Hk. now left.
Qed.

Lemma nth_error_In_enumerate {A} (xs : list A) (n : nat) (x : A) :
  In (n, x) (enumerate xs) <-> nth_error xs n = Some x.
Proof.
  split.
  - intros H. apply In_nth_error in H. destruct H as [k Hk].
    rewrite nth_error_enumerate in Hk.
    destruct (nth_error xs k) eqn:Hx; [|discriminate].
    simpl in Hk. inversion Hk; subst. exact Hx.
  - intros H. apply (nth_error_In _ n).
    rewrite nth_error_enumerate, H. reflexivity.
Qed.

Lemma line_definitions_In (self : LuaParser) (line_num : nat) (line : string)
  (name : string) (n : nat) :
  In (name, n) (line_definitions self line_num line)
  <-> n = line_num + 1
      /\ _is_in_comment self line_num 0 = false
      /\ exists m,
           In m (Re.finditer definition_pattern line)
           /\ _is_in_string line (Z.of_nat (Re.m_start m)) = false
           /\ group_1_or_2 line m = Some name.
Proof.
  unfold line_definitions.
  destruct (_is_in_comment self line_num 0).
  - split; [contradiction | intros [_ [H _]]; discriminate].
  - rewrite in_flat_map. split.
    + intros [m [Hm H]].
      destruct (_is_in_string line (Z.of_nat (Re.m_start m))) eqn:Hs;
        simpl in H; [contradiction|].
      destruct (group_1_or_2 line m) as [f|] eqn:Hg; [|contradiction].
      destruct H as [H|[]]. inversion H; subst.
      split; [reflexivity|]. split; [reflexivity|]. now exists m.
    + intros [-> [_ [m [Hm [Hs Hg]]]]]. exists m. split; [exact Hm|].
      rewrite Hs, Hg. now left.
Qed.

Lemma definition_sites_In (self : LuaParser) (name : string) (n : nat) :
  In (name, n) (definition_sites self)
  <-> exists line_num m,
        n = line_num + 1
        /\ line_num < List.length (lines self)
        /\ _is_in_comment self line_num 0 = false
        /\ In m (Re.finditer definition_pattern (line_at self line_num))
        /\ _is_in_string (line_at self line_num) (Z.of_nat (Re.m_start m))
           = false
        /\ group_1_or_2 (line_at self line_num) m = Some name.
Proof.
  unfold definition_sites. rewrite in_flat_map. split.
  - intros [[line_num line] [Hin H]].
    apply nth_error_In_enumerate in Hin.
    apply line_definitions_In in H. destruct H as [-> [Hc [m [Hm [Hs Hg]]]]].
    assert (Hline : line_at self line_num = line)
      by (unfold line_at; now apply nth_error_nth).
    exists line_num, m. rewrite Hline.
    repeat split; try assumption.
    apply nth_error_Some. congruence.
  - intros [line_num [m [-> [Hlen [Hc [Hm [Hs Hg]]]]]]].
    exists (line_num, line_at self line_num). split.
    + apply nth_error_In_enumerate. unfold line_at.
      destruct (nth_error (lines self) line_num) as [l|] eqn:Hl.
      * now rewrite (nth_error_nth _ _ _ Hl).
      * apply nth_error_None in Hl. lia.
    + apply line_definitions_In. split; [reflexivity|].
      split; [exact Hc|]. now exists m.
Qed.

Lemma StronglySorted_app {A} (R : A -> A -> Prop) (l1 l2 : list A) :
  StronglySorted R l1 -> StronglySorted R l2 ->
  (forall x y, In x l1 -> In y l2 -> R x y) ->
  StronglySorted R (l1 ++ l2).
Proof.
  induction l1 as [|a l1 IH]; simpl; intros H1 H2 Hx; [exact H2|].
  inversion H1 as [|? ? Hs Hf]; subst. constructor.
  - apply IH; auto.
  - apply Forall_app. split; [exact Hf|].
    apply Forall_forall. intros y Hy. apply Hx; auto.
Qed.

Lemma StronglySorted_split {A} (R : A -> A -> Prop) (l1 : list A) (x : A)
  (l2 : list A) :
  StronglySorted R (l1 ++ x :: l2) -> forall y, In y l1 -> R y x.
Proof.
  induction l1 as [|a l1 IH]; simpl; intros H y Hy; [contradiction|].
  inversion H as [|? ? Hs Hf]; subst. destruct Hy as [<-|Hy].
  - rewrite Forall_forall in Hf. apply Hf. apply in_or_app. right. now left.
  - now apply IH.
Qed.

(** The sites come in the order of their lines. *)
Lemma definition_sites_sorted (self : LuaParser) :
  StronglySorted (fun y x : string * nat => snd y <= snd x)
    (definition_sites self).
Proof.
  unfold definition_sites, enumerate.
  generalize 0 as a. generalize (lines self) as xs.
  induction xs as [|line xs IH]; intros a; simpl; [constructor|].
  assert (Hlater : forall ys k z,
             In z (flat_map
                     (fun '(line_num, line) =>
                        line_definitions self line_num line)
                     (combine (seq k (List.length ys)) ys)) ->
             k + 1 <= snd z).
  { induction ys as [|l ys IHys]; intros k z Hz; [contradiction|].
    simpl in Hz. apply in_app_or in Hz. destruct Hz as [Hz|Hz].
    - destruct z as [zn zl]. apply line_definitions_In in Hz.
      destruct Hz as [-> _]. simpl. lia.
    - apply IHys in Hz. lia. }
  assert (Hhere : forall z, In z (line_definitions self a line) ->
                            snd z = a + 1).
  { intros [zn zl] Hz. apply line_definitions_In in Hz. now destruct Hz. }
  apply StronglySorted_app.
  - revert Hhere. generalize (line_definitions self a line) as l.
    induction l as [|z l IHl]; intros Hh; constructor.
    + apply IHl. intros z' Hz'. apply Hh. now right.
    + apply Forall_forall. intros z' Hz'.
      rewrite (Hh z (or_introl eq_refl)), (Hh z' (or_intror Hz')). lia.
  - apply IH.
  - intros x y Hx Hy. rewrite (Hhere x Hx). apply Hlater in Hy. lia.
Qed.

(** X4. The index [find_function_definitions] builds for one file has one
    entry for each name the file defines and no other: an entry is a
    definition site, that is a match of the definition pattern on a line
    that does not start in a comment, at a position outside a string,
    whose first or second group is the name; the line recorded for a name
    is that of its last definition, counted from 1; and every name with a
    definition site has an entry. *)
Theorem find_function_definitions_records_last_definition :
  forall (self : LuaParser),
    NoDup (Py.dict_keys (find_function_definitions self))
    /\ (forall func_name n,
          In (func_name, n) (find_function_definitions self) ->
          In (func_name, n) (definition_sites self)
          /\ forall n', In (func_name, n') (definition_sites self) -> n' <= n)
    /\ (forall func_name n',
          In (func_name, n') (definition_sites self) ->
          exists n, In (func_name, n) (find_function_definitions self))
    /\ (forall func_name n,
          In (func_name, n) (definition_sites self)
          <-> exists line_num m,
                n = line_num + 1
                /\ line_num < List.length (lines self)
                /\ _is_in_comment self line_num 0 = false
                /\ In m (Re.finditer definition_pattern
                           (line_at self line_num))
                /\ _is_in_string (line_at self line_num)
                     (Z.of_nat (Re.m_start m)) = false
                /\ group_1_or_2 (line_at self line_num) m = Some func_name).
Proof.
  intros self.
  destruct (fold_write_In (definition_sites self) [] (NoDup_nil _))
    as [Hnd Hin].
  rewrite <- find_function_definitions_writes in Hnd, Hin.
  split; [exact Hnd|]. split; [|split].
  - intros func_name n H. apply Hin in H.
    destruct H as [[l1 [l2 [Heq Hl2]]]|[_ []]]. split.
    + rewrite Heq. apply in_or_app. right. now left.
    + intros n' Hn'. rewrite Heq in Hn'. apply in_app_or in Hn'.
      destruct Hn' as [Hn'|[Hn'|Hn']].
      * pose proof (definition_sites_sorted self) as Hs. rewrite Heq in Hs.
        apply (StronglySorted_split _ _ _ _ Hs (func_name, n') Hn').
      * inversion Hn'. lia.
      * exfalso. apply Hl2. apply (in_map fst) in Hn'. exact Hn'.
  - intros func_name n' H.
    assert (Hlast : forall ws : list (string * nat),
               In func_name (map fst ws) ->
               exists n l1 l2, ws = l1 ++ (func_name, n) :: l2
                               /\ ~ In func_name (map fst l2)).
    { induction ws as [|[k v] ws IHws]; simpl; intros Hk; [contradiction|].
      destruct (in_dec string_dec func_name (map fst ws)) as [Hi|Hi].
      - destruct (IHws Hi) as [n [l1 [l2 [-> Hl2]]]].
        exists n, ((k, v) :: l1), l2. now split.
      - destruct Hk as [->|Hk]; [|contradiction].
        exists v, [], ws. now split. }
    destruct (Hlast (definition_sites self)) as [n [l1 [l2 [Heq Hl2]]]].
    { apply (in_map fst) in H. exact H. }
    exists n. apply Hin. left. now exists l1, l2.
  - apply definition_sites_In.
Qed.

(** ** The function index of the corpus *)

Lemma find_function_definitions_NoDup (self : LuaParser) :
  NoDup (Py.dict_keys (find_function_definitions self)).
Proof.
  rewrite find_function_definitions_writes.
  apply (fold_write_In (definition_sites self) []). constructor.
Qed.

Lemma index_files_app (l : list lua_file) (file : lua_file) :
  index_files (l ++ [file]) = index_file (index_files l) file.
Proof. unfold index_files. now rewrite fold_left_app. Qed.

Lemma load_parsers_app (l : list lua_file) (file : lua_file) :
  load_parsers (l ++ [file])
  = match snd file with
    | Some text => Py.dict_set (load_parsers l) (fst file) (LuaParser_init text)
    | None => load_parsers l
    end.
Proof. unfold load_parsers. now rewrite fold_left_app. Qed.

Lemma index_file_writes (acc : list (string * LuaParser) * list (string * string))
  (file : lua_file) :
  snd (index_file acc file) = fold_left write (file_writes file) (snd acc).
Proof.
  destruct acc as [parsers all]. unfold index_file, file_writes.
  destruct (snd file) as [text|]; [|reflexivity]. simpl.
  generalize (Py.dict_keys (find_function_definitions (LuaParser_init text))).
  intros ks. revert all.
  induction ks as [|k ks IH]; intros all; simpl; [reflexivity|]. apply IH.
Qed.

Lemma index_files_parsers (lua_files : list lua_file) :
  fst (index_files lua_files) = load_parsers lua_files.
Proof.
  induction lua_files as [|file l IH] using rev_ind; [reflexivity|].
  rewrite index_files_app, load_parsers_app, <- IH.
  destruct (index_files l) as [parsers all]. unfold index_file.
  now destruct (snd file).
Qed.

Lemma file_writes_In (file : lua_file) (func_name path : string) :
  In (func_name, path) (file_writes file)
  <-> exists text, file = (path, Some text) /\ defines text func_name.
Proof.
  destruct file as [p [t|]]; unfold file_writes, defines; simpl.
  - rewrite in_map_iff. split.
    + intros [n [Heq Hn]]. inversion Heq; subst. now exists t.
    + intros [text [Heq Hd]]. inversion Heq; subst. now exists func_name.
  - split; [contradiction | intros [text [Heq _]]; discriminate].
Qed.

Lemma file_writes_keys (file : lua_file) (func_name : string) :
  In func_name (map fst (file_writes file))
  <-> exists text, snd file = Some text /\ defines text func_name.
Proof.
  destruct file as [p [t|]]; unfold file_writes, defines; simpl.
  - rewrite map_map. simpl. rewrite map_id. split.
    + intros H. now exists t.
    + intros [text [Heq Hd]]. now inversion Heq; subst.
  - split; [contradiction | intros [text [Heq _]]; discriminate].
Qed.

(** One file of the first loop: the names it defines are set to its path,
    the other entries are kept. *)
Lemma index_file_In (acc : list (string * LuaParser) * list (string * string))
  (file : lua_file) (func_name path : string) :
  NoDup (Py.dict_keys (snd acc)) ->
  In (func_name, path) (snd (index_file acc file))
  <-> In (func_name, path) (file_writes file)
      \/ (~ In func_name (map fst (file_writes file))
          /\ In (func_name, path) (snd acc)).
Proof.
  intros Hnd. rewrite index_file_writes.
  destruct (fold_write_In (file_writes file) (snd acc) Hnd) as [_ Hin].
  rewrite Hin. split.
  - intros [[l1 [l2 [Heq _]]]|H]; [left | now right].
    rewrite Heq. apply in_or_app. right. now left.
  - intros [H|H]; [left | now right].
    assert (Hkeys : NoDup (map fst (file_writes file))).
    { unfold file_writes. destruct (snd file); [|constructor].
      rewrite map_map. simpl. rewrite map_id.
      apply find_function_definitions_NoDup. }
    apply in_split in H. destruct H as [l1 [l2 Heq]].
    exists l1, l2. split; [exact Heq|].
    rewrite Heq, map_app in Hkeys. simpl in Hkeys.
    apply NoDup_remove_2 in Hkeys. intros Hin2. apply Hkeys.
    apply in_or_app. now right.
Qed.

Lemma exists_last_or_nil {A} (l : list A) :
  l = [] \/ exists l' x, l = l' ++ [x].
Proof.
  induction l as [|x l' _] using rev_ind; [now left|].
  right. now exists l', x.
Qed.

Lemma function_index_In (lua_files : list lua_file) (func_name path : string) :
  In (func_name, path) (function_index lua_files)
  <-> exists before text after,
        lua_files = before ++ (path, Some text) :: after
        /\ defines text func_name
        /\ forall later text',
             In (later, Some text') after -> ~ defines text' func_name.
Proof.
  unfold function_index.
  induction lua_files as [|file l IH] using rev_ind.
  - split; [contradiction|].
    intros [before [text [after [Heq _]]]]. destruct before; discriminate.
  - rewrite index_files_app.
    rewrite (index_file_In _ _ _ _ (proj2 (index_files_NoDup l))).
    rewrite file_writes_In, file_writes_keys, IH. split.
    + intros [[text [-> Hd]]|[Hno [before [text [after [-> [Hd Hafter]]]]]]].
      * exists l, text, []. split; [reflexivity|]. split; [exact Hd|].
        intros later text' [].
      * exists before, text, (after ++ [file]).
        split; [now rewrite <- app_assoc|]. split; [exact Hd|].
        intros later text' Hin. apply in_app_or in Hin.
        destruct Hin as [Hin|[Hlast|[]]]; [now apply (Hafter later)|].
        intros Hd'. apply Hno. exists text'. now rewrite Hlast.
    + intros [before [text [after [Heq [Hd Hafter]]]]].
      destruct (exists_last_or_nil after) as [->|[after' [last ->]]].
      * apply app_inj_tail in Heq. destruct Heq as [-> ->].
        left. now exists text.
      * change (l ++ [file]
                = before ++ ((path, Some text) :: after') ++ [last]) in Heq.
        rewrite app_assoc in Heq.
        apply app_inj_tail in Heq. destruct Heq as [-> ->].
        right. split.
        -- intros [text' [Hs Hd']]. destruct last as [later t].
           simpl in Hs. subst t. apply (Hafter later text'); [|exact Hd'].
           apply in_or_app. right. now left.
        -- exists before, text, after'. split; [reflexivity|].
           split; [exact Hd|]. intros later text' Hin.
           apply (Hafter later). apply in_or_app. now left.
Qed.

Lemma load_parsers_get (lua_files : list lua_file) (path text : string) :
  In (path, Some text) lua_files ->
  exists text',
    In (path, Some text') lua_files
    /\ Py.dict_get (load_parsers lua_files) path
       = Some (LuaParser_init text').
Proof.
  induction lua_files as [|[p t] l IH] using rev_ind; [contradiction|].
  intros Hin. rewrite load_parsers_app. simpl.
  assert (Hold : In (path, Some text) l ->
                 exists text',
                   In (path, Some text') (l ++ [(p, t)])
                   /\ Py.dict_get (load_parsers l) path
                      = Some (LuaParser_init text')).
  { intros H. destruct (IH H) as [text' [H1 H2]]. exists text'.
    split; [apply in_or_app; now left | exact H2]. }
  apply in_app_or in Hin. destruct t as [t|].
  - destruct (string_dec path p) as [->|Hne].
    + exists t. split; [apply in_or_app; right; now left|].
      apply dict_get_set_same.
    + rewrite dict_get_set_other by exact Hne.
      destruct Hin as [Hin|[Heq|[]]]; [now apply Hold | congruence].
  - destruct Hin as [Hin|[Heq|[]]]; [now apply Hold | discriminate].
Qed.

(** X5. The two loading loops build the same dictionary of parsers.  The
    function index maps a name to the path of the last readable file of
    the list that defines it, and to nothing when no readable file
    defines it; and the path an indexed name is mapped to always has a
    parser, built from the text of a readable file of that path, so the
    test [lua_file in parsers] of the call-chain loop never fails. *)
Theorem function_index_names_last_defining_file :
  forall (lua_files : list lua_file),
    fst (index_files lua_files) = load_parsers lua_files
    /\ (forall func_name path,
          In (func_name, path) (function_index lua_files)
          <-> exists before text after,
                lua_files = before ++ (path, Some text) :: after
                /\ defines text func_name
                /\ forall later text',
                     In (later, Some text') after ->
                     ~ defines text' func_name)
    /\ (forall func_name path,
          In (func_name, path) (function_index lua_files) ->
          exists text,
            In (path, Some text) lua_files
            /\ Py.dict_get (fst (index_files lua_files)) path
               = Some (LuaParser_init text)).
Proof.
  intros lua_files. split; [apply index_files_parsers|].
  split; [apply function_index_In|].
  intros func_name path H. apply function_index_In in H.
  destruct H as [before [text [after [Heq _]]]].
  rewrite index_files_parsers. apply (load_parsers_get _ _ text).
  rewrite Heq. apply in_or_app. right. now left.
Qed.

(** ** The comment test at the start of a line *)

Lemma find_from_range (t s : string) :
  forall i, Py.find_from t s i = (-1)%Z \/ (Z.of_nat i <= Py.find_from t s i)%Z.
Proof.
  induction s as [|c s IH]; intros i; simpl.
  - destruct (Py.startswith t EmptyString); [right; lia | now left].
  - destruct (Py.startswith t (String c s)); [right; lia|].
    destruct (IH (S i)) as [H|H]; [now left | right; lia].
Qed.

Lemma find_at_start (s t : string) :
  (negb (Py.find s t =? -1)%Z && (Py.find s t <=? 0)%Z) = Py.startswith t s.
Proof.
  unfold Py.find. destruct s as [|c s]; simpl.
  - now destruct (Py.startswith t EmptyString).
  - destruct (Py.startswith t (String c s)); [reflexivity|].
    destruct (find_from_range t s 1) as [H|H].
    + now rewrite H.
    + destruct (Py.find_from t s 1 <=? 0)%Z eqn:Hle;
        [apply Z.leb_le in Hle; lia | apply andb_false_r].
Qed.

(** X6. Every caller asks [_is_in_comment] about position 0 of a line.
    There the test holds exactly when the line begins with the two
    dashes, or when the text before the line has more openers of
    multi-line comments than closers: dashes further right on the line,
    after blanks or after code, never make it hold. *)
Theorem is_in_comment_at_line_start :
  forall (self : LuaParser) (line_num : nat),
    _is_in_comment self line_num 0
    = Py.startswith "--" (line_at self line_num)
      || (Re.count (Re.Lit "]]")
            (Py.take (_line_pos_to_absolute self line_num 0) (content self))
          <? Re.count (Re.Lit "--[[")
               (Py.take (_line_pos_to_absolute self line_num 0)
                  (content self))).
Proof.
  intros self line_num. unfold _is_in_comment. cbv zeta.
  change (Z.of_nat 0) with 0%Z.
  rewrite (find_at_start (line_at self line_num) "--").
  destruct (Py.startswith "--" (line_at self line_num)) eqn:Hs.
  - assert (Hz : Py.find (line_at self line_num) "--" = 0%Z).
    { unfold Py.find. destruct (line_at self line_num); simpl in *;
        [discriminate|]. now rewrite Hs. }
    rewrite Hz. unfold _is_in_string.
    replace (Z.to_nat
               (Z.min 0 (Z.of_nat (String.length (line_at self line_num)))))
      with 0 by lia.
    reflexivity.
  - reflexivity.
Qed.

(** ** Stripping blanks and comments *)

Lemma rstrip_cons (c : ascii) (s : string) :
  rstrip (String c s)
  = if Py.is_space c && String.eqb (rstrip s) EmptyString then EmptyString
    else String c (rstrip s).
Proof.
  simpl. destruct (rstrip s); simpl.
  - now destruct (Py.is_space c).
  - now rewrite andb_false_r.
Qed.

Lemma rstrip_idempotent (s : string) : rstrip (rstrip s) = rstrip s.
Proof.
  induction s as [|c s IH]; [reflexivity|].
  rewrite rstrip_cons.
  destruct (Py.is_space c && String.eqb (rstrip s) EmptyString) eqn:Hc;
    [reflexivity|].
  now rewrite rstrip_cons, IH, Hc.
Qed.

Lemma rstrip_prefix (s : string) :
  exists blanks,
    s = (rstrip s ++ blanks)%string /\ all_chars Py.is_space blanks = true.
Proof.
  induction s as [|c s [blanks [Heq Hb]]].
  - now exists EmptyString.
  - rewrite rstrip_cons.
    destruct (Py.is_space c) eqn:Hc; simpl.
    + destruct (String.eqb_spec (rstrip s) EmptyString) as [He|He].
      * exists (String c blanks). simpl. rewrite Hc, Hb. split; [|reflexivity].
        rewrite He in Heq. simpl in Heq. now rewrite <- Heq.
      * exists blanks. simpl. now rewrite <- Heq.
    + exists blanks. simpl. now rewrite <- Heq.
Qed.

Lemma rstrip_blanks (s : string) :
  all_chars Py.is_space s = true -> rstrip s = EmptyString.
Proof.
  induction s as [|c s IH]; [reflexivity|]. simpl.
  intros H. apply andb_prop in H. destruct H as [Hc Hs].
  now rewrite (IH Hs), Hc.
Qed.

Lemma rstrip_no_trailing_blank (s : string) :
  ends_with_space (rstrip s) = false.
Proof.
  induction s as [|c s IH]; [reflexivity|].
  rewrite rstrip_cons.
  destruct (Py.is_space c) eqn:Hc; simpl.
  - destruct (String.eqb_spec (rstrip s) EmptyString) as [He|He];
      [reflexivity|].
    simpl. destruct (rstrip s); [contradiction | exact IH].
  - destruct (rstrip s); [exact Hc | exact IH].
Qed.

Lemma lstrip_split (s : string) :
  exists blanks,
    s = (blanks ++ lstrip s)%string /\ all_chars Py.is_space blanks = true.
Proof.
  induction s as [|c s [blanks [Heq Hb]]].
  - now exists EmptyString.
  - simpl. destruct (Py.is_space c) eqn:Hc.
    + exists (String c blanks). simpl. now rewrite Hc, Hb, <- Heq.
    + now exists EmptyString.
Qed.

Lemma lstrip_head (s : string) :
  lstrip s = EmptyString
  \/ exists c s', lstrip s = String c s' /\ Py.is_space c = false.
Proof.
  induction s as [|c s IH]; [now left|]. simpl.
  destruct (Py.is_space c) eqn:Hc; [exact IH|].
  right. now exists c, s.
Qed.

Lemma strip_idempotent (s : string) : strip (strip s) = strip s.
Proof.
  unfold strip. destruct (lstrip_head s) as [->|[c [s' [-> Hc]]]];
    [reflexivity|].
  rewrite rstrip_cons, Hc. cbn [andb lstrip]. rewrite Hc.
  rewrite rstrip_cons, Hc. cbn [andb]. now rewrite rstrip_idempotent.
Qed.

Lemma startswith_app (t u v : string) :
  Py.startswith t u = true -> Py.startswith t (u ++ v) = true.
Proof.
  revert u. induction t as [|a t IH]; intros u H; [reflexivity|].
  destruct u as [|b u]; simpl in *; [discriminate|].
  apply andb_prop in H. destruct H as [Hab Hu].
  now rewrite Hab, (IH u Hu).
Qed.

Lemma startswith_nonempty (t : string) :
  t <> EmptyString -> Py.startswith t EmptyString = false.
Proof. destruct t; [contradiction | reflexivity]. Qed.

(** A text without an occurrence of [t] has none in its prefixes. *)
Lemma find_from_prefix (t u v : string) :
  t <> EmptyString ->
  forall i j,
    Py.find_from t (u ++ v) i = (-1)%Z -> Py.find_from t u j = (-1)%Z.
Proof.
  intros Ht. induction u as [|c u IH]; intros i j H.
  - simpl. now rewrite (startswith_nonempty t Ht).
  - simpl in H. cbn [Py.find_from].
    destruct (Py.startswith t (String c u)) eqn:Hs.
    + change (String c (u ++ v)) with (String c u ++ v)%string in H.
      rewrite (startswith_app t (String c u) v Hs) in H.
      lia.
    + destruct (Py.startswith t (String c (u ++ v))); [lia|].
      now apply (IH (S i)).
Qed.

Lemma take_prefix (n : nat) (s : string) :
  exists v, s = (Py.take n s ++ v)%string.
Proof.
  revert n. induction s as [|a s IH]; intros n.
  - exists EmptyString. now destruct n.
  - destruct n as [|n]; [now exists (String a s)|].
    destruct (IH n) as [v Hv]. exists v. simpl. now rewrite <- Hv.
Qed.

(** The text before the first occurrence of [t] has no occurrence. *)
Lemma find_from_take (t s : string) :
  t <> EmptyString ->
  forall i j,
    Py.find_from t s i <> (-1)%Z ->
    Py.find_from t (Py.take (Z.to_nat (Py.find_from t s i - Z.of_nat i)) s) j
    = (-1)%Z.
Proof.
  intros Ht. induction s as [|c s IH]; intros i j H.
  - simpl in *. rewrite (startswith_nonempty t Ht) in *.
    now destruct (Z.to_nat _).
  - cbn [Py.find_from] in *.
    destruct (Py.startswith t (String c s)) eqn:Hs.
    + rewrite Z.sub_diag. simpl. now rewrite (startswith_nonempty t Ht).
    + destruct (find_from_range t s (S i)) as [Hn|Hge]; [contradiction|].
      replace (Z.to_nat (Py.find_from t s (S i) - Z.of_nat i))
        with (S (Z.to_nat (Py.find_from t s (S i) - Z.of_nat (S i))))
        by lia.
      cbn [Py.take Py.find_from].
      destruct (Py.startswith t
                  (String c
                     (Py.take
                        (Z.to_nat (Py.find_from t s (S i) - Z.of_nat (S i)))
                        s))) eqn:Hp.
      * exfalso.
        assert (Hpre : exists v,
                   String c s
                   = (String c
                        (Py.take
                           (Z.to_nat
                              (Py.find_from t s (S i) - Z.of_nat (S i))) s)
                      ++ v)%string).
        { destruct (take_prefix
                      (Z.to_nat (Py.find_from t s (S i) - Z.of_nat (S i))) s)
            as [v Hv].
          exists v. cbn [append]. now rewrite <- Hv. }
        destruct Hpre as [v Hv]. rewrite Hv in Hs.
        rewrite (startswith_app _ _ v Hp) in Hs. discriminate.
      * now apply IH.
Qed.

Lemma append_assoc (a b c : string) :
  ((a ++ b) ++ c = a ++ (b ++ c))%string.
Proof. induction a as [|x a IH]; simpl; [reflexivity | now rewrite IH]. Qed.

Lemma append_empty_r (s : string) : (s ++ EmptyString)%string = s.
Proof. induction s as [|c s IH]; [reflexivity | simpl; now rewrite IH]. Qed.

(** The two ways out of [remove_comments_from_line]. *)
Lemma remove_comments_from_line_cases (line : string) :
  remove_comments_from_line line = line
  \/ (remove_comments_from_line line
      = rstrip (Py.take (Z.to_nat (Py.find line "--")) line)
      /\ Py.find line "--" <> (-1)%Z).
Proof.
  unfold remove_comments_from_line. cbv zeta.
  destruct (Z.eqb_spec (Py.find line "--") (-1)) as [He|He]; simpl;
    [now left|].
  destruct (is_in_string_literal line (Py.find line "--")); simpl;
    [now left | now right].
Qed.

Lemma remove_comments_from_line_prefix (line : string) :
  exists removed, line = (remove_comments_from_line line ++ removed)%string.
Proof.
  destruct (remove_comments_from_line_cases line) as [->|[-> _]].
  - exists EmptyString. now rewrite append_empty_r.
  - destruct (take_prefix (Z.to_nat (Py.find line "--")) line) as [v Hv].
    destruct (rstrip_prefix (Py.take (Z.to_nat (Py.find line "--")) line))
      as [blanks [Hpre _]].
    exists (blanks ++ v)%string.
    rewrite <- append_assoc, <- Hpre. exact Hv.
Qed.

Lemma remove_comments_from_line_no_dashes (line : string) :
  remove_comments_from_line line <> line ->
  Py.find (remove_comments_from_line line) "--" = (-1)%Z.
Proof.
  intros Hne.
  destruct (remove_comments_from_line_cases line) as [Hsame|[Heq Hfound]];
    [contradiction|].
  rewrite Heq. unfold Py.find in *.
  destruct (rstrip_prefix
              (Py.take (Z.to_nat (Py.find_from "--" line 0)) line))
    as [blanks [Hpre _]].
  apply (find_from_prefix "--" _ blanks ltac:(discriminate) 0 0).
  rewrite <- Hpre.
  pose proof (find_from_take "--" line ltac:(discriminate) 0 0 Hfound)
    as Htake.
  change (Z.of_nat 0) with 0%Z in Htake.
  rewrite Z.sub_0_r in Htake. exact Htake.
Qed.

(** X7. [remove_comments_from_line] only cuts the line at its right end,
    and applying it twice changes nothing more.  A line without the two
    dashes comes back as it is; and whenever the line is cut, what
    remains holds no two dashes in a row and does not end in a blank. *)
Theorem remove_comments_from_line_cuts_once :
  forall (line : string),
    (exists removed,
        line = (remove_comments_from_line line ++ removed)%string)
    /\ remove_comments_from_line (remove_comments_from_line line)
       = remove_comments_from_line line
    /\ (Py.contains line "--" = false ->
        remove_comments_from_line line = line)
    /\ (remove_comments_from_line line <> line ->
        Py.contains (remove_comments_from_line line) "--" = false
        /\ ends_with_space (remove_comments_from_line line) = false).
Proof.
  intros line.
  split; [apply remove_comments_from_line_prefix|]. split; [|split].
  - destruct (string_dec (remove_comments_from_line line) line) as [He|Hne];
      [now rewrite He|].
    unfold remove_comments_from_line at 1. cbv zeta.
    now rewrite (remove_comments_from_line_no_dashes line Hne).
  - unfold Py.contains, remove_comments_from_line. cbv zeta.
    intros H. apply negb_false_iff in H. now rewrite H.
  - intros Hne. split.
    + unfold Py.contains.
      now rewrite (remove_comments_from_line_no_dashes line Hne).
    + destruct (remove_comments_from_line_cases line) as [Hsame|[-> _]];
        [contradiction|].
      apply rstrip_no_trailing_blank.
Qed.

Lemma space_is_no_dash (c : ascii) :
  Py.is_space c = true -> Ascii.eqb "-" c = false.
Proof.
  intros H. destruct (Ascii.eqb_spec "-" c) as [<-|_]; [|reflexivity].
  discriminate.
Qed.

Lemma find_from_blanks (blanks text : string) :
  all_chars Py.is_space blanks = true ->
  Py.startswith "--" text = true ->
  forall i,
    Py.find_from "--" (blanks ++ text) i
    = Z.of_nat (i + String.length blanks).
Proof.
  intros Hb Ht. induction blanks as [|c blanks IH]; intros i.
  - simpl. destruct text; simpl in *; [discriminate|].
    rewrite Ht. f_equal. lia.
  - simpl in Hb. apply andb_prop in Hb. destruct Hb as [Hc Hb].
    change (String c blanks ++ text)%string
      with (String c (blanks ++ text)).
    cbn [Py.find_from Py.startswith].
    rewrite (space_is_no_dash c Hc). cbn [andb].
    rewrite (IH Hb). f_equal. simpl. lia.
Qed.

Lemma take_append (u v : string) : Py.take (String.length u) (u ++ v) = u.
Proof. induction u as [|c u IH]; simpl; [now destruct v | now rewrite IH]. Qed.

Lemma quotes_after_blanks (blanks : string) :
  all_chars Py.is_space blanks = true ->
  forall b st, quotes_after_backslash b st blanks = st.
Proof.
  induction blanks as [|c blanks IH]; intros Hb b st; [reflexivity|].
  simpl in Hb. apply andb_prop in Hb. destruct Hb as [Hc Hb].
  simpl. rewrite (IH Hb). unfold quote_toggle. destruct st as [s d].
  destruct (Ascii.eqb_spec c Py.dquote) as [->|_]; [discriminate|].
  destruct (Ascii.eqb_spec c Py.squote) as [->|_]; [discriminate|].
  reflexivity.
Qed.

(** A line that holds only a comment, after blanks, is cut to the empty
    string. *)
Lemma remove_comments_from_comment_line (blanks text : string) :
  all_chars Py.is_space blanks = true ->
  Py.startswith "--" text = true ->
  remove_comments_from_line (blanks ++ text) = EmptyString.
Proof.
  intros Hb Ht. unfold remove_comments_from_line. cbv zeta.
  unfold Py.find. rewrite (find_from_blanks blanks text Hb Ht 0).
  rewrite Nat.add_0_l, Nat2Z.id, take_append.
  rewrite is_in_string_literal_is_in_string, _is_in_string_after_backslash.
  unfold in_string_after_backslash.
  rewrite Nat2Z.id, take_append, (quotes_after_blanks blanks Hb).
  destruct (Z.eqb_spec (Z.of_nat (String.length blanks)) (-1)) as [He|_];
    [lia|].
  simpl. now apply rstrip_blanks.
Qed.

Lemma single_line_comment_split (line : string) :
  is_single_line_comment (strip line) = true ->
  exists blanks text,
    line = (blanks ++ text)%string
    /\ all_chars Py.is_space blanks = true
    /\ Py.startswith "--" text = true.
Proof.
  unfold is_single_line_comment. rewrite strip_idempotent. unfold strip.
  intros H. destruct (lstrip_split line) as [blanks [Heq Hb]].
  exists blanks, (lstrip line). split; [exact Heq|]. split; [exact Hb|].
  destruct (rstrip_prefix (lstrip line)) as [tail [Hpre _]].
  rewrite Hpre. now apply startswith_app.
Qed.

(** ** The comment bookkeeping of the line checkers *)

Lemma comment_step_flag (line : string) (flag : bool) :
  fst (comment_step line flag)
  = (is_multiline_comment_start line || flag)
    && negb (is_multiline_comment_end line).
Proof.
  unfold comment_step.
  destruct (is_multiline_comment_start line), flag,
    (is_multiline_comment_end line),
    (is_single_line_comment (strip line)); reflexivity.
Qed.

Lemma comment_step_scanned (line : string) (flag : bool) :
  snd (comment_step line flag)
  = negb flag && negb (is_multiline_comment_start line)
    && negb (is_single_line_comment (strip line)).
Proof.
  unfold comment_step.
  destruct (is_multiline_comment_start line), flag,
    (is_multiline_comment_end line),
    (is_single_line_comment (strip line)); reflexivity.
Qed.

Lemma in_multiline_comment_after_snoc (before : list string) (line : string) :
  in_multiline_comment_after (before ++ [line])
  = (is_multiline_comment_start line || in_multiline_comment_after before)
    && negb (is_multiline_comment_end line).
Proof.
  unfold in_multiline_comment_after, comment_flag_from.
  rewrite fold_left_app. simpl. apply comment_step_flag.
Qed.

(** X8. The bookkeeping of multi-line comments in the line checkers.
    After the lines [before] the flag is set exactly when one of them
    holds the opener and neither it nor a line after it holds the
    closer: an opener and a closer on one line leave the flag down.  The
    next line goes on to the test exactly when the flag is down, the line
    holds no opener, even after code or inside a string, and its
    stripped text does not begin with two dashes. *)
Theorem multiline_comment_bookkeeping :
  forall (before : list string) (line : string),
    (in_multiline_comment_after before = true
     <-> exists j,
           j < List.length before
           /\ is_multiline_comment_start (nth j before EmptyString) = true
           /\ forall i,
                j <= i < List.length before ->
                is_multiline_comment_end (nth i before EmptyString) = false)
    /\ line_scanned before line
       = negb (in_multiline_comment_after before)
         && negb (is_multiline_comment_start line)
         && negb (is_single_line_comment (strip line)).
Proof.
  intros before line. split; [|apply comment_step_scanned].
  induction before as [|x before IH] using rev_ind.
  - split; [discriminate | intros [j [Hj _]]; simpl in Hj; lia].
  - rewrite in_multiline_comment_after_snoc, length_app. simpl.
    rewrite andb_true_iff, orb_true_iff, negb_true_iff, IH. split.
    + intros [[Hs|[j [Hj [Hs Hno]]]] He].
      * exists (List.length before). split; [lia|].
        rewrite nth_middle. split; [exact Hs|].
        intros i Hi. replace i with (List.length before) by lia.
        now rewrite nth_middle.
      * exists j. split; [lia|].
        rewrite app_nth1 by exact Hj. split; [exact Hs|].
        intros i Hi.
        destruct (Nat.eq_dec i (List.length before)) as [->|Hne].
        -- now rewrite nth_middle.
        -- rewrite app_nth1 by lia. apply Hno. lia.
    + intros [j [Hj [Hs Hno]]]. split.
      * destruct (Nat.eq_dec j (List.length before)) as [->|Hne].
        -- left. now rewrite nth_middle in Hs.
        -- right. exists j. split; [lia|].
           rewrite app_nth1 in Hs by lia. split; [exact Hs|].
           intros i Hi. specialize (Hno i ltac:(lia)).
           now rewrite app_nth1 in Hno by lia.
      * specialize (Hno (List.length before) ltac:(lia)).
        now rewrite nth_middle in Hno.
Qed.

(** ** What a line checker reports *)

Lemma check_lines_with_In (found : string -> bool)
  (filepath error_msg : string) (ls : list string) :
  forall (a : nat) (flag : bool) (p : string) (n : nat) (msg : string),
    In (p, n, msg)
      (check_lines_with found filepath error_msg
         (combine (seq a (List.length ls)) ls) flag)
    <-> p = filepath /\ msg = error_msg
        /\ exists before line after,
             ls = before ++ line :: after
             /\ n = a + List.length before
             /\ snd (comment_step line (comment_flag_from flag before)) = true
             /\ found (remove_comments_from_line line) = true.
Proof.
  induction ls as [|x ls IH]; intros a flag p n msg.
  - simpl. split; [contradiction|].
    intros [_ [_ [before [line [after [H _]]]]]].
    destruct before; discriminate.
  - cbn [List.length seq combine check_lines_with].
    destruct (comment_step x flag) as [flag' scanned] eqn:Hstep.
    rewrite in_app_iff, IH. split.
    + intros [H|[-> [-> [before [line [after [-> [-> [Hs Hf]]]]]]]]].
      * destruct (scanned && found (remove_comments_from_line x)) eqn:Hc;
          [|contradiction].
        destruct H as [H|[]]. inversion H; subst.
        apply andb_prop in Hc. destruct Hc as [Hsc Hf].
        split; [reflexivity|]. split; [reflexivity|].
        exists [], x, ls. simpl. rewrite Hstep. simpl.
        repeat split; [lia | assumption | assumption].
      * split; [reflexivity|]. split; [reflexivity|].
        exists (x :: before), line, after. simpl. rewrite Hstep. simpl.
        repeat split; [lia | assumption | assumption].
    + intros [-> [-> [before [line [after [Heq [-> [Hs Hf]]]]]]]].
      destruct before as [|b before]; simpl in Heq; inversion Heq; subst.
      * left. simpl in Hs. rewrite Hstep in Hs. simpl in Hs. subst scanned.
        rewrite Hf. simpl. left. f_equal. f_equal. lia.
      * right. split; [reflexivity|]. split; [reflexivity|].
        exists before, line, after. simpl in Hs. rewrite Hstep in Hs.
        simpl in Hs. simpl.
        repeat split; [lia | assumption | assumption].
Qed.

Lemma check_lines_with_sorted (found : string -> bool)
  (filepath error_msg : string) (ls : list string) :
  forall (a : nat) (flag : bool),
    StronglySorted lt
      (map line_of
         (check_lines_with found filepath error_msg
            (combine (seq a (List.length ls)) ls) flag))
    /\ Forall (fun n => a <= n < a + List.length ls)
         (map line_of
            (check_lines_with found filepath error_msg
               (combine (seq a (List.length ls)) ls) flag)).
Proof.
  induction ls as [|x ls IH]; intros a flag.
  - simpl. split; constructor.
  - cbn [List.length seq combine check_lines_with].
    destruct (comment_step x flag) as [flag' scanned].
    destruct (IH (S a) flag') as [Hs Hb].
    assert (Hb' : Forall (fun n => a <= n < a + S (List.length ls))
                    (map line_of
                       (check_lines_with found filepath error_msg
                          (combine (seq (S a) (List.length ls)) ls) flag'))).
    { eapply Forall_impl; [|exact Hb]. simpl. intros n Hn. lia. }
    destruct (scanned && found (remove_comments_from_line x)); simpl.
    + split.
      * constructor; [exact Hs|].
        eapply Forall_impl; [|exact Hb]. simpl. unfold line_of. simpl.
        intros n Hn. lia.
      * constructor; [unfold line_of; simpl; lia | exact Hb'].
    + split; [exact Hs | exact Hb'].
Qed.

(** What the body shared by the checkers reports. *)
Lemma check_file_with_reports (found : string -> bool)
  (filepath error_msg : string) (file : reading) :
  (forall p n msg,
      In (p, n, msg) (check_file_with found filepath error_msg file)
      <-> p = filepath
          /\ ((exists before line after,
                  yielded file = before ++ line :: after
                  /\ n = List.length before + 1
                  /\ line_scanned before line = true
                  /\ found (remove_comments_from_line line) = true
                  /\ msg = error_msg)
              \/ (n = 0
                  /\ exists e,
                       raised file = Some e
                       /\ msg = ("Failed to read file: " ++ e)%string)))
  /\ exists reported,
       check_file_with found filepath error_msg file
       = reported ++ failed_to_read filepath file
       /\ StronglySorted lt (map line_of reported)
       /\ Forall (fun n => 1 <= n <= List.length (yielded file))
            (map line_of reported).
Proof.
  unfold check_file_with, read_file_lines. split.
  - intros p n msg. rewrite in_app_iff, check_lines_with_In. split.
    + intros [[-> [-> [before [line [after [Heq [-> [Hs Hf]]]]]]]]|H].
      * split; [reflexivity|]. left. exists before, line, after.
        repeat split; try assumption. lia.
      * unfold failed_to_read in H.
        destruct (raised file) as [e|]; [|contradiction].
        destruct H as [H|[]]. inversion H; subst.
        split; [reflexivity|]. right. split; [reflexivity|]. now exists e.
    + intros [-> [[before [line [after [Heq [-> [Hs [Hf ->]]]]]]]
                 |[-> [e [He ->]]]]].
      * left. split; [reflexivity|]. split; [reflexivity|].
        exists before, line, after. repeat split; try assumption. lia.
      * right. unfold failed_to_read. rewrite He. now left.
  - eexists. split; [reflexivity|].
    destruct (check_lines_with_sorted found filepath error_msg
                (yielded file) 1 false) as [Hs Hb].
    split; [exact Hs|].
    eapply Forall_impl; [|exact Hb]. simpl. intros n Hn. lia.
Qed.

(** ** Matches of a pattern that begins with a word *)

Lemma lit_startswith (s : string) :
  forall (c c' : Re.cursor),
    Re.lit s c = Some c' -> Py.startswith s (Re.rest c) = true.
Proof.
  induction s as [|a s IH]; intros c c' H; [reflexivity|].
  simpl in H. destruct (Re.rest c) as [|b t] eqn:Hr; [discriminate|].
  destruct (Ascii.eqb a b) eqn:Hab; [|discriminate].
  simpl. rewrite Hab. simpl.
  apply IH in H. exact H.
Qed.

(** A match found by [finditer] is a match at the start of a suffix of
    the subject. *)
Lemma finditer_from_suffix (r : Re.regex) (m : Re.rmatch) (t : string) :
  forall (skip i : nat) (pv : option ascii),
    In m (Re.finditer_from r skip i pv t) ->
    exists u t' i' pv',
      t = (u ++ t')%string /\ Re.match_at r i' pv' t' = Some m.
Proof.
  induction t as [|a t IH]; intros skip i pv H.
  - simpl in H. destruct (skip =? 0); [|contradiction].
    destruct (Re.match_at r i pv EmptyString) as [m'|] eqn:Hm;
      [|contradiction].
    destruct H as [<-|[]]. now exists EmptyString, EmptyString, i, pv.
  - cbn [Re.finditer_from] in H. apply in_app_or in H.
    destruct H as [H|H].
    + destruct (skip =? 0); [|contradiction].
      destruct (Re.match_at r i pv (String a t)) as [m'|] eqn:Hm;
        [|contradiction].
      destruct H as [<-|[]]. now exists EmptyString, (String a t), i, pv.
    + apply IH in H. destruct H as [u [t' [i' [pv' [-> Hm]]]]].
      now exists (String a u), t', i', pv'.
Qed.

Lemma find_from_suffix (x u t : string) :
  Py.startswith x t = true ->
  forall i, Py.find_from x (u ++ t) i <> (-1)%Z.
Proof.
  intros Hx. induction u as [|c u IH]; intros i.
  - simpl. destruct t; simpl in *; rewrite Hx; lia.
  - change (String c u ++ t)%string with (String c (u ++ t)).
    cbn [Py.find_from].
    destruct (Py.startswith x (String c (u ++ t))); [lia | apply IH].
Qed.

(** A subject in which a pattern [\b word ...] is found holds the
    word. *)
Lemma search_word_contains (word : string) (r : Re.regex)
  (subject : string) (m : Re.rmatch) :
  Re.search (Re.Bnd +++ Re.Lit word +++ r) subject = Some m ->
  Py.contains subject word = true.
Proof.
  unfold Re.search, Re.finditer. intros H.
  destruct (Re.finditer_from (Re.Bnd +++ Re.Lit word +++ r) 0 0 None subject)
    as [|m' ms] eqn:Hf; [discriminate|].
  inversion H; subst m'. clear H.
  assert (Hin : In m (Re.finditer_from (Re.Bnd +++ Re.Lit word +++ r)
                        0 0 None subject))
    by (rewrite Hf; now left).
  apply finditer_from_suffix in Hin.
  destruct Hin as [u [t' [i' [pv' [-> Hm]]]]].
  unfold Re.match_at in Hm. cbn [Re.exec] in Hm.
  destruct (xorb (Re.word_before (Re.mkCursor i' pv' t' []))
              (Re.word_after (Re.mkCursor i' pv' t' []))); [|discriminate].
  destruct (Re.lit word (Re.mkCursor i' pv' t' [])) as [c'|] eqn:Hl;
    [|discriminate].
  apply lit_startswith in Hl. simpl in Hl.
  unfold Py.contains, Py.find.
  destruct (Z.eqb_spec (Py.find_from word (u ++ t') 0) (-1)) as [He|_];
    [|reflexivity].
  exfalso. now apply (find_from_suffix word u t' Hl 0).
Qed.

Lemma contains_removed_comments (line word : string) :
  word <> EmptyString ->
  Py.contains (remove_comments_from_line line) word = true ->
  Py.contains line word = true.
Proof.
  intros Hw H.
  destruct (remove_comments_from_line_prefix line) as [removed Heq].
  unfold Py.contains, Py.find in *.
  destruct (Z.eqb_spec (Py.find_from word line 0) (-1)) as [He|_];
    [|reflexivity].
  rewrite Heq in He.
  apply (find_from_prefix word _ removed Hw 0 0) in He.
  rewrite He in H. discriminate.
Qed.

(** ** The three checkers *)

(** X9. [check_game_print_usage] reports, under the path it was given,
    exactly the lines that go on to the test and whose text without its
    comment has a first match of the pattern outside a string, each with
    its number counted from 1 and the fixed message; and, when reading
    raises, one more diagnostic at line 0 with the text of the exception,
    after those of the lines read so far.  The line numbers reported
    rise strictly, so no line is reported twice, and a reported line
    holds the text game.print. *)
Theorem check_game_print_usage_reports :
  forall (filepath : string) (file : reading),
    (forall p n msg,
        In (p, n, msg) (check_game_print_usage filepath file)
        <-> p = filepath
            /\ ((exists before line after,
                    yielded file = before ++ line :: after
                    /\ n = List.length before + 1
                    /\ line_scanned before line = true
                    /\ uses_game_print (remove_comments_from_line line) = true
                    /\ msg = "Use 'log' instead of 'game.print' for logging")
                \/ (n = 0
                    /\ exists e,
                         raised file = Some e
                         /\ msg = ("Failed to read file: " ++ e)%string)))
    /\ (exists reported,
           check_game_print_usage filepath file
           = reported ++ failed_to_read filepath file
           /\ StronglySorted lt (map line_of reported)
           /\ Forall (fun n => 1 <= n <= List.length (yielded file))
                (map line_of reported))
    /\ (forall line,
           uses_game_print (remove_comments_from_line line) = true ->
           Py.contains line "game.print" = true).
Proof.
  intros filepath file. unfold check_game_print_usage.
  split; [apply check_file_with_reports|].
  split; [apply check_file_with_reports|].
  intros line H. apply contains_removed_comments; [discriminate|].
  unfold uses_game_print in H.
  destruct (Re.search game_print_pattern (remove_comments_from_line line))
    as [m|] eqn:Hm; [|discriminate].
  apply (search_word_contains _ _ _ _ Hm).
Qed.

(** X10. [check_global_usage] of the tests reports exactly the lines that
    go on to the test and whose text without its comment has a first
    match of the assignment pattern outside a string and no match of the
    settings pattern anywhere, and one diagnostic at line 0 when reading
    raises.  The line numbers rise strictly; a reported line holds the
    word global; and a line on which settings.global is indexed is never
    reported, whatever else it assigns. *)
Theorem tests_check_global_usage_reports :
  forall (filepath : string) (file : reading),
    (forall p n msg,
        In (p, n, msg) (TestsGlobalUsage.check_global_usage filepath file)
        <-> p = filepath
            /\ ((exists before line after,
                    yielded file = before ++ line :: after
                    /\ n = List.length before + 1
                    /\ line_scanned before line = true
                    /\ TestsGlobalUsage.assigns_global
                         (remove_comments_from_line line) = true
                    /\ msg = "Use 'storage' instead of assigning to 'global' variable")
                \/ (n = 0
                    /\ exists e,
                         raised file = Some e
                         /\ msg = ("Failed to read file: " ++ e)%string)))
    /\ (exists reported,
           TestsGlobalUsage.check_global_usage filepath file
           = reported ++ failed_to_read filepath file
           /\ StronglySorted lt (map line_of reported)
           /\ Forall (fun n => 1 <= n <= List.length (yielded file))
                (map line_of reported))
    /\ (forall line,
           TestsGlobalUsage.assigns_global (remove_comments_from_line line)
           = true ->
           Py.contains line "global" = true
           /\ matches TestsGlobalUsage.settings_global_pattern
                (remove_comments_from_line line) = false).
Proof.
  intros filepath file. unfold TestsGlobalUsage.check_global_usage.
  split; [apply check_file_with_reports|].
  split; [apply check_file_with_reports|].
  intros line H. unfold TestsGlobalUsage.assigns_global in H.
  destruct (Re.search TestsGlobalUsage.global_assignment_pattern
              (remove_comments_from_line line)) as [m|] eqn:Hm;
    [|discriminate].
  split.
  - apply contains_removed_comments; [discriminate|].
    apply (search_word_contains _ _ _ _ Hm).
  - destruct (matches TestsGlobalUsage.settings_global_pattern
                (remove_comments_from_line line));
      [discriminate | reflexivity].
Qed.

(** X11. [check_global_usage] of the validation directory reports exactly
    the lines that go on to the test and in whose text without its
    comment the first occurrence of .global is outside a string, and one
    diagnostic at line 0 when reading raises.  The line numbers rise
    strictly, and a reported line holds the text .global. *)
Theorem validation_check_global_usage_reports :
  forall (filepath : string) (file : reading),
    (forall p n msg,
        In (p, n, msg) (ValidationGlobalUsage.check_global_usage filepath file)
        <-> p = filepath
            /\ ((exists before line after,
                    yielded file = before ++ line :: after
                    /\ n = List.length before + 1
                    /\ line_scanned before line = true
                    /\ ValidationGlobalUsage.uses_dot_global
                         (remove_comments_from_line line) = true
                    /\ msg = "Use 'storage' instead of '.global' (Factorio API change)")
                \/ (n = 0
                    /\ exists e,
                         raised file = Some e
                         /\ msg = ("Failed to read file: " ++ e)%string)))
    /\ (exists reported,
           ValidationGlobalUsage.check_global_usage filepath file
           = reported ++ failed_to_read filepath file
           /\ StronglySorted lt (map line_of reported)
           /\ Forall (fun n => 1 <= n <= List.length (yielded file))
                (map line_of reported))
    /\ (forall line,
           ValidationGlobalUsage.uses_dot_global
             (remove_comments_from_line line) = true ->
           Py.contains line ".global" = true).
Proof.
  intros filepath file. unfold ValidationGlobalUsage.check_global_usage.
  split; [apply check_file_with_reports|].
  split; [apply check_file_with_reports|].
  intros line H. apply contains_removed_comments; [discriminate|].
  unfold ValidationGlobalUsage.uses_dot_global in H. cbv zeta in H.
  apply andb_prop in H. exact (proj1 H).
Qed.

(** X12. A line whose stripped text begins with two dashes is cut to the
    empty string by [remove_comments_from_line], and none of the three
    tests holds of the empty string: the skip of single-line comments in
    the loop of the checkers changes no result. *)
Theorem single_line_comment_has_nothing_to_test :
  forall (line : string),
    is_single_line_comment (strip line) = true ->
    remove_comments_from_line line = EmptyString
    /\ uses_game_print (remove_comments_from_line line) = false
    /\ TestsGlobalUsage.assigns_global (remove_comments_from_line line)
       = false
    /\ ValidationGlobalUsage.uses_dot_global (remove_comments_from_line line)
       = false.
Proof.
  intros line H.
  destruct (single_line_comment_split line H) as [blanks [text [-> [Hb Ht]]]].
  rewrite (remove_comments_from_comment_line blanks text Hb Ht).
  repeat split.
Qed.

Lemma single_line_comment_has_nothing_to_test_witness :
  remove_comments_from_line comment_after_blanks = EmptyString
  /\ uses_game_print (remove_comments_from_line comment_after_blanks) = false
  /\ TestsGlobalUsage.assigns_global
       (remove_comments_from_line comment_after_blanks) = false
  /\ ValidationGlobalUsage.uses_dot_global
       (remove_comments_from_line comment_after_blanks) = false.
Proof.
  apply (single_line_comment_has_nothing_to_test comment_after_blanks).
  vm_compute. reflexivity.
Defined.

(** A block comment of two lines, then a call before a comment: only the
    third line is reported. *)
Example check_game_print_usage_after_block_comment :
  check_game_print_usage "control.lua" print_after_block_comment
  = [("control.lua", 3, "Use 'log' instead of 'game.print' for logging")].
Proof. vm_compute. reflexivity. Qed.

(** ** The report *)

Lemma one_line_append (a b : string) :
  one_line (a ++ b) = one_line a && one_line b.
Proof.
  unfold one_line. induction a as [|c a IH]; simpl; [reflexivity|].
  now rewrite IH, andb_assoc.
Qed.

Lemma decimal_one_line (n : nat) : one_line (decimal n) = true.
Proof.
  unfold decimal. generalize (Nat.to_uint n). intros d.
  induction d; simpl; try reflexivity; exact IHd.
Qed.

Lemma format_error_one_line (e : lint) :
  on_one_line e = true -> one_line (format_error e) = true.
Proof.
  destruct e as [[filepath line_num] message]. unfold on_one_line.
  intros H. apply andb_prop in H. destruct H as [Hp Hm].
  unfold format_error.
  rewrite !one_line_append, Hp, Hm, decimal_one_line. reflexivity.
Qed.

Lemma join_lines_not_empty (l : string) (ls : list string) :
  l <> EmptyString -> Py.join_lines (l :: ls) <> EmptyString.
Proof.
  intros Hl. destruct l as [|c l]; [contradiction|].
  destruct ls; discriminate.
Qed.

(** X13. [format_validation_errors] gives the empty string for an empty
    list of errors and for no other list, whatever the fields hold.  For
    a list that is not empty and in which no path and no message holds a
    line break, the text has exactly one line for each error, in the
    order of the list: two blanks, the path, a colon, the line number in
    decimal, a colon and a blank, and the message.  The text for the
    empty list splits into one empty line. *)
Theorem format_validation_errors_line_per_error :
  forall (errors : list lint),
    (format_validation_errors errors = EmptyString <-> errors = [])
    /\ (Forall (fun e => on_one_line e = true) errors ->
        errors <> [] ->
        Py.split_lines (format_validation_errors errors)
        = map format_error errors)
    /\ (errors = [] ->
        Py.split_lines (format_validation_errors errors) = [EmptyString]).
Proof.
  intros errors. split; [|split].
  - split; [|now intros ->].
    destruct errors as [|e errors]; [reflexivity|].
    intros H. exfalso. revert H. cbn [format_validation_errors map].
    apply join_lines_not_empty.
    destruct e as [[filepath line_num] message]. discriminate.
  - intros Hall Hne. destruct errors as [|e errors]; [contradiction|].
    unfold format_validation_errors. apply split_join_lines.
    + discriminate.
    + apply Forall_forall. intros l Hl. apply in_map_iff in Hl.
      destruct Hl as [e' [<- He']]. apply format_error_one_line.
      rewrite Forall_forall in Hall. now apply Hall.
  - intros ->. reflexivity.
Qed.

(** Two errors on one line each give a text of two lines. *)
Lemma format_validation_errors_line_per_error_witness :
  Py.split_lines (format_validation_errors two_errors)
  = map format_error two_errors.
Proof.
  apply (proj1 (proj2 (format_validation_errors_line_per_error two_errors))).
  - repeat constructor.
  - discriminate.
Defined.

Example format_validation_errors_two :
  format_validation_errors two_errors
  = ("  control.lua:12: Use 'log' instead of 'game.print' for logging"
     ++ String Py.newline
          "  scripts/core.lua:0: Failed to read file: ")%string.
Proof. vm_compute. reflexivity. Qed.

(** ** The matcher finds a match when there is one *)

Lemma lit_append (u v : string) :
  forall c,
    Re.lit (u ++ v) c
    = match Re.lit u c with Some c1 => Re.lit v c1 | None => None end.
Proof.
  induction u as [|a u IH]; intros c; [reflexivity|].
  simpl. destruct (Re.rest c) as [|b t]; [reflexivity|].
  destruct (Ascii.eqb a b); [apply IH | reflexivity].
Qed.

Lemma lit_moves (u : string) :
  forall c c',
    Re.lit u c = Some c' ->
    Re.rest c = (u ++ Re.rest c')%string
    /\ Re.pos c' = Re.pos c + String.length u
    /\ Re.prev c' = last_of u (Re.prev c)
    /\ Re.caps c' = Re.caps c.
Proof.
  induction u as [|a u IH]; intros c c' H.
  - simpl in H. inversion H; subst. simpl. repeat split. lia.
  - simpl in H. destruct (Re.rest c) as [|b t] eqn:Hr; [discriminate|].
    destruct (Ascii.eqb_spec a b) as [->|_]; [|discriminate].
    apply IH in H. destruct H as [H1 [H2 [H3 H4]]]. simpl in *.
    repeat split; [now rewrite <- H1 | lia | exact H3 | exact H4].
Qed.

Lemma lit_same_place (u : string) :
  forall c c' d,
    Re.lit u c = Some c' -> same_place c d ->
    exists d', Re.lit u d = Some d' /\ same_place c' d'.
Proof.
  induction u as [|a u IH]; intros c c' d H [Hp [Hv Hr]].
  - simpl in *. inversion H; subst. exists d. now repeat split.
  - simpl in *. rewrite <- Hr.
    destruct (Re.rest c) as [|b t]; [discriminate|].
    destruct (Ascii.eqb a b); [|discriminate].
    apply (IH _ _ (Re.advance d b t)) in H; [exact H|].
    unfold Re.advance, same_place. simpl. now rewrite Hp.
Qed.

Lemma rep_sound (p : ascii -> bool) (t : string) :
  forall (min : nat) (c : Re.cursor) (k : Re.cursor -> option Re.cursor)
         (res : Re.cursor),
    Re.rest c = t ->
    Re.rep p min t c k = Some res ->
    exists u c',
      all_chars p u = true /\ min <= String.length u
      /\ Re.lit u c = Some c' /\ k c' = Some res.
Proof.
  induction t as [|a t IH]; intros min c k res Hr H.
  - simpl in H. destruct (Nat.eqb_spec min 0) as [->|_]; [|discriminate].
    exists EmptyString, c. now repeat split.
  - cbn [Re.rep] in H.
    assert (Hstop : (if min =? 0 then k c else None) = Some res ->
                    exists u c',
                      all_chars p u = true /\ min <= String.length u
                      /\ Re.lit u c = Some c' /\ k c' = Some res).
    { destruct (Nat.eqb_spec min 0) as [->|_]; [|discriminate].
      intros Hk. exists EmptyString, c. now repeat split. }
    destruct (p a) eqn:Hp; [|now apply Hstop].
    destruct (Re.rep p (Nat.pred min) t (Re.advance c a t) k) as [r1|] eqn:H1.
    + simpl in H. inversion H; subst r1.
      apply IH in H1; [|reflexivity].
      destruct H1 as [u [c' [Hu [Hmin [Hl Hk]]]]].
      exists (String a u), c'. simpl. rewrite Hp, Hu, Hr, Ascii.eqb_refl.
      repeat split; [lia | exact Hl | exact Hk].
    + simpl in H. now apply Hstop.
Qed.

Lemma rep_complete (p : ascii -> bool) (t : string) :
  forall (min : nat) (c c' : Re.cursor) (k : Re.cursor -> option Re.cursor)
         (u : string),
    Re.rest c = t ->
    all_chars p u = true -> min <= String.length u ->
    Re.lit u c = Some c' -> k c' <> None ->
    Re.rep p min t c k <> None.
Proof.
  induction t as [|a t IH]; intros min c c' k u Hr Hu Hmin Hl Hk.
  - destruct u as [|b u]; simpl in Hl.
    + inversion Hl; subst c'. simpl in Hmin. simpl.
      replace min with 0 by lia. exact Hk.
    + rewrite Hr in Hl. discriminate.
  - cbn [Re.rep]. destruct u as [|b u]; simpl in Hl.
    + inversion Hl; subst c'. simpl in Hmin.
      replace min with 0 by lia. simpl.
      destruct (p a); [|exact Hk].
      destruct (Re.rep p 0 t (Re.advance c a t) k); [discriminate | exact Hk].
    + rewrite Hr in Hl.
      destruct (Ascii.eqb_spec b a) as [->|_]; [|discriminate].
      simpl in Hu. apply andb_prop in Hu. destruct Hu as [Hpa Hu].
      rewrite Hpa.
      assert (H1 : Re.rep p (Nat.pred min) t (Re.advance c a t) k <> None).
      { apply (IH _ _ c' _ u); try assumption; [reflexivity|].
        simpl in Hmin. lia. }
      destruct (Re.rep p (Nat.pred min) t (Re.advance c a t) k);
        [discriminate | contradiction].
Qed.

Lemma rep_lazy_sound (p : ascii -> bool) (t : string) :
  forall (c : Re.cursor) (k : Re.cursor -> option Re.cursor)
         (res : Re.cursor),
    Re.rest c = t ->
    Re.rep_lazy p t c k = Some res ->
    exists u c',
      all_chars p u = true /\ Re.lit u c = Some c' /\ k c' = Some res.
Proof.
  induction t as [|a t IH]; intros c k res Hr H.
  - simpl in H. destruct (k c) as [r|] eqn:Hk; [|discriminate].
    inversion H; subst r. exists EmptyString, c. now repeat split.
  - cbn [Re.rep_lazy] in H. destruct (k c) as [r|] eqn:Hk.
    + inversion H; subst r. exists EmptyString, c. now repeat split.
    + destruct (p a) eqn:Hp; [|discriminate].
      apply IH in H; [|reflexivity].
      destruct H as [u [c' [Hu [Hl Hk']]]].
      exists (String a u), c'. simpl. rewrite Hp, Hu, Hr, Ascii.eqb_refl.
      now repeat split.
Qed.

Lemma rep_lazy_complete (p : ascii -> bool) (t : string) :
  forall (c c' : Re.cursor) (k : Re.cursor -> option Re.cursor) (u : string),
    Re.rest c = t ->
    all_chars p u = true ->
    Re.lit u c = Some c' -> k c' <> None ->
    Re.rep_lazy p t c k <> None.
Proof.
  induction t as [|a t IH]; intros c c' k u Hr Hu Hl Hk.
  - destruct u as [|b u]; simpl in Hl.
    + inversion Hl; subst c'. simpl. destruct (k c); [discriminate|].
      contradiction.
    + rewrite Hr in Hl. discriminate.
  - cbn [Re.rep_lazy]. destruct (k c) eqn:Hkc; [discriminate|].
    destruct u as [|b u]; simpl in Hl.
    + inversion Hl; subst c'. contradiction.
    + rewrite Hr in Hl.
      destruct (Ascii.eqb_spec b a) as [->|_]; [|discriminate].
      simpl in Hu. apply andb_prop in Hu. destruct Hu as [Hpa Hu].
      rewrite Hpa. now apply (IH _ c' _ u).
Qed.

(** Every result of the search comes from a way through the pattern. *)
Lemma exec_sound (r : Re.regex) :
  forall (c : Re.cursor) (k : Re.cursor -> option Re.cursor)
         (res : Re.cursor),
    Re.exec r c k = Some res ->
    exists c', matched r c c' /\ k c' = Some res.
Proof.
  induction r as [s|p|min p|p|r1 IH1 r2 IH2|r1 IH1 r2 IH2|r1 IH1|n r1 IH1|];
    intros c k res H; cbn [Re.exec] in H.
  - destruct (Re.lit s c) as [c'|] eqn:Hl; [|discriminate].
    now exists c'.
  - destruct (Re.rest c) as [|a t] eqn:Hr; [discriminate|].
    destruct (p a) eqn:Hp; [|discriminate].
    exists (Re.advance c a t). split; [|exact H]. simpl. now exists a, t.
  - apply rep_sound in H; [|reflexivity].
    destruct H as [u [c' [Hu [Hmin [Hl Hk]]]]].
    exists c'. split; [|exact Hk]. simpl. now exists u.
  - apply rep_lazy_sound in H; [|reflexivity].
    destruct H as [u [c' [Hu [Hl Hk]]]].
    exists c'. split; [|exact Hk]. simpl. now exists u.
  - apply IH1 in H. destruct H as [c1 [H1 H]].
    apply IH2 in H. destruct H as [c' [H2 Hk]].
    exists c'. split; [|exact Hk]. simpl. now exists c1.
  - unfold Re.orelse in H.
    destruct (Re.exec r1 c k) as [r|] eqn:He.
    + inversion H; subst r. apply IH1 in He. destruct He as [c' [H1 Hk]].
      exists c'. split; [now left | exact Hk].
    + apply IH2 in H. destruct H as [c' [H2 Hk]].
      exists c'. split; [now right | exact Hk].
  - unfold Re.orelse in H.
    destruct (Re.exec r1 c k) as [r|] eqn:He.
    + inversion H; subst r. apply IH1 in He. destruct He as [c' [H1 Hk]].
      exists c'. split; [now left | exact Hk].
    + exists c. split; [now right | exact H].
  - apply IH1 in H. destruct H as [c1 [H1 Hk]].
    eexists. split; [|exact Hk]. simpl. now exists c1.
  - destruct (xorb (Re.word_before c) (Re.word_after c)) eqn:Hx;
      [|discriminate].
    exists c. now repeat split.
Qed.

(** A way through the pattern that the continuation accepts makes the
    search succeed. *)
Lemma exec_complete (r : Re.regex) :
  forall (c c' : Re.cursor) (k : Re.cursor -> option Re.cursor),
    matched r c c' -> k c' <> None -> Re.exec r c k <> None.
Proof.
  induction r as [s|p|min p|p|r1 IH1 r2 IH2|r1 IH1 r2 IH2|r1 IH1|n r1 IH1|];
    intros c c' k H Hk; cbn [Re.exec]; simpl in H.
  - now rewrite H.
  - destruct H as [a [t [Hr [Hp ->]]]]. now rewrite Hr, Hp.
  - destruct H as [u [Hu [Hmin Hl]]].
    now apply (rep_complete p _ min c c' k u).
  - destruct H as [u [Hu Hl]].
    now apply (rep_lazy_complete p _ c c' k u).
  - destruct H as [c1 [H1 H2]].
    apply (IH1 c c1); [exact H1|]. now apply (IH2 c1 c').
  - unfold Re.orelse. destruct (Re.exec r1 c k) eqn:He; [discriminate|].
    destruct H as [H|H]; [|now apply (IH2 c c')].
    exfalso. now apply (IH1 c c' k H Hk).
  - unfold Re.orelse. destruct (Re.exec r1 c k) eqn:He; [discriminate|].
    destruct H as [H| ->]; [|exact Hk].
    exfalso. now apply (IH1 c c' k H Hk).
  - destruct H as [c1 [H1 ->]]. now apply (IH1 c c1).
  - destruct H as [Hx ->]. now rewrite Hx.
Qed.

Lemma matched_same_place (r : Re.regex) :
  forall (c c' d : Re.cursor),
    matched r c c' -> same_place c d ->
    exists d', matched r d d' /\ same_place c' d'.
Proof.
  induction r as [s|p|min p|p|r1 IH1 r2 IH2|r1 IH1 r2 IH2|r1 IH1|n r1 IH1|];
    intros c c' d H Hs; simpl in H.
  - destruct (lit_same_place s c c' d H Hs) as [d' [Hl Hs']]. now exists d'.
  - destruct H as [a [t [Hr [Hp ->]]]]. destruct Hs as [Hpos [Hprev Hrest]].
    exists (Re.advance d a t). split.
    + simpl. exists a, t. now rewrite <- Hrest.
    + unfold same_place, Re.advance. simpl. now rewrite Hpos.
  - destruct H as [u [Hu [Hmin Hl]]].
    destruct (lit_same_place u c c' d Hl Hs) as [d' [Hl' Hs']].
    exists d'. split; [|exact Hs']. simpl. now exists u.
  - destruct H as [u [Hu Hl]].
    destruct (lit_same_place u c c' d Hl Hs) as [d' [Hl' Hs']].
    exists d'. split; [|exact Hs']. simpl. now exists u.
  - destruct H as [c1 [H1 H2]].
    destruct (IH1 c c1 d H1 Hs) as [d1 [Hd1 Hs1]].
    destruct (IH2 c1 c' d1 H2 Hs1) as [d' [Hd' Hs']].
    exists d'. split; [|exact Hs']. simpl. now exists d1.
  - destruct H as [H|H].
    + destruct (IH1 c c' d H Hs) as [d' [Hd' Hs']].
      exists d'. split; [now left | exact Hs'].
    + destruct (IH2 c c' d H Hs) as [d' [Hd' Hs']].
      exists d'. split; [now right | exact Hs'].
  - destruct H as [H| ->].
    + destruct (IH1 c c' d H Hs) as [d' [Hd' Hs']].
      exists d'. split; [now left | exact Hs'].
    + exists d. split; [now right | exact Hs].
  - destruct H as [c1 [H1 ->]].
    destruct (IH1 c c1 d H1 Hs) as [d1 [Hd1 Hs1]].
    eexists. split; [simpl; now exists d1|].
    destruct Hs1 as [Hp [Hv Hr]]. now repeat split.
  - destruct H as [Hx ->]. exists d. split; [|exact Hs]. simpl.
    destruct Hs as [Hpos [Hprev Hrest]].
    unfold Re.word_before, Re.word_after in *.
    now rewrite <- Hprev, <- Hrest.
Qed.

(** ** Names found by the patterns of the parser *)

Lemma length_append (a b : string) :
  String.length (a ++ b) = String.length a + String.length b.
Proof. induction a as [|x a IH]; simpl; [reflexivity | now rewrite IH]. Qed.

Lemma lit_placed (subject x : string) (c c' : Re.cursor) :
  Re.lit x c = Some c' -> placed subject c -> placed subject c'.
Proof.
  intros Hl [before [Hs Hp]].
  destruct (lit_moves x c c' Hl) as [Hr [Hpos _]].
  exists (before ++ x)%string. split.
  - now rewrite append_assoc, <- Hr.
  - rewrite length_append. lia.
Qed.

Lemma substring_at (before x after : string) :
  String.substring (String.length before) (String.length x)
    (before ++ x ++ after)
  = x.
Proof.
  induction before as [|a before IH]; simpl; [|exact IH].
  induction x as [|b x IHx]; simpl.
  - now destruct after.
  - now rewrite IHx.
Qed.

Lemma lit_substring (subject x : string) (c c' : Re.cursor) :
  Re.lit x c = Some c' -> placed subject c ->
  String.substring (Re.pos c) (Re.pos c' - Re.pos c) subject = x.
Proof.
  intros Hl [before [Hs Hp]].
  destruct (lit_moves x c c' Hl) as [Hr [Hpos _]].
  rewrite Hs, Hr, Hp, Hpos, Hp.
  replace (String.length before + String.length x - String.length before)
    with (String.length x) by lia.
  apply substring_at.
Qed.

Lemma is_word_string_of (u : string) :
  all_chars Py.is_word u = true -> 1 <= String.length u ->
  is_word_string u = true.
Proof.
  intros Hu Hlen. unfold is_word_string. rewrite Hu.
  destruct u; [simpl in Hlen; lia | reflexivity].
Qed.

(** A way through [\w+(?:\.\w+)?] reads a name. *)
Lemma matched_name (c c' : Re.cursor) :
  matched Re.name c c' ->
  exists func_name, is_name func_name /\ Re.lit func_name c = Some c'.
Proof.
  unfold Re.name. cbn [matched].
  intros [c1 [[u [Hu [Hlen Hl]]] [[c2 [Hdot [v [Hv [Hlen' Hl']]]]]| ->]]].
  - exists (u ++ "." ++ v)%string. split.
    + right. exists u, v. split; [reflexivity|].
      split; now apply is_word_string_of.
    + now rewrite lit_append, Hl, lit_append, Hdot.
  - exists u. split; [|exact Hl]. left. now apply is_word_string_of.
Qed.

Lemma is_name_not_empty (s : string) : is_name s -> s <> EmptyString.
Proof.
  intros [H|[a [b [-> [Ha _]]]]]; unfold is_word_string in *.
  - destruct s; [discriminate | discriminate].
  - destruct a; [discriminate | discriminate].
Qed.

(** A group around a name: the group is the name that was read. *)
Lemma matched_name_group (subject : string) (n : nat) (c c' : Re.cursor) :
  matched (Re.Grp n Re.name) c c' -> placed subject c ->
  exists func_name e,
    is_name func_name
    /\ Re.lit func_name c = Some e
    /\ same_place e c'
    /\ Re.caps c' = (n, (Re.pos c, Re.pos c')) :: Re.caps c
    /\ String.substring (Re.pos c) (Re.pos c' - Re.pos c) subject = func_name.
Proof.
  cbn [matched]. intros [e [Hm ->]] Hp.
  destruct (matched_name c e Hm) as [func_name [Hn Hl]].
  exists func_name, e. simpl.
  destruct (lit_moves func_name c e Hl) as [_ [_ [_ Hcaps]]].
  repeat split; try assumption.
  - now rewrite Hcaps.
  - now apply (lit_substring subject func_name c e).
Qed.

Lemma group_of_span (subject : string) (m : Re.rmatch) (n a b : nat)
  (more : list (nat * (nat * nat))) :
  Re.m_groups m = (n, (a, b)) :: more ->
  Re.group subject m n = Some (String.substring a (b - a) subject).
Proof.
  intros H. unfold Re.group. rewrite H. simpl. now rewrite Nat.eqb_refl.
Qed.

Lemma same_place_sym (c d : Re.cursor) : same_place c d -> same_place d c.
Proof. intros [H1 [H2 H3]]. now repeat split. Qed.

(** A match of the definition pattern names a function, and the pattern
    [find_function_start] builds from that name matches at the same
    place. *)
Lemma definition_match_located (subject : string) (i : nat)
  (pv : option ascii) (t : string) (m : Re.rmatch) (func_name : string) :
  placed subject (Re.mkCursor i pv t []) ->
  Re.match_at definition_pattern i pv t = Some m ->
  group_1_or_2 subject m = Some func_name ->
  is_name func_name
  /\ Re.match_at (func_pattern func_name) i pv t <> None.
Proof.
  intros Hp Hm Hg. unfold Re.match_at in Hm.
  destruct (Re.exec definition_pattern (Re.mkCursor i pv t []) Some)
    as [cf|] eqn:He; [|discriminate].
  inversion Hm; subst m. clear Hm.
  apply exec_sound in He. destruct He as [cf' [Hmat Hcf]].
  inversion Hcf; subst cf'. clear Hcf.
  unfold definition_pattern in Hmat. cbn [matched] in Hmat.
  destruct Hmat as [c1 [Hopt [c2 [Hbranch [c3 [[ws [Hws [_ Hl3]]] Hparen]]]]]].
  assert (Hc1 : placed subject c1 /\ Re.caps c1 = []).
  { destruct Hopt as [[a [Hloc [u [_ [_ Hu]]]]]| ->]; [|now split].
    destruct (lit_moves _ _ _ Hloc) as [_ [_ [_ Ha]]].
    destruct (lit_moves _ _ _ Hu) as [_ [_ [_ Hb]]].
    split; [|now rewrite Hb, Ha].
    apply (lit_placed subject _ _ _ Hu), (lit_placed subject _ _ _ Hloc), Hp. }
  destruct Hc1 as [Hp1 Hcaps1].
  assert (Hcapsf : Re.caps cf = Re.caps c2).
  { destruct (lit_moves _ _ _ Hl3) as [_ [_ [_ H3]]].
    destruct (lit_moves _ _ _ Hparen) as [_ [_ [_ Hf]]].
    now rewrite Hf, H3. }
  assert (Htail : forall d,
             same_place c2 d ->
             exists d', matched (Re.Rep 0 Re.sp +++ Re.Lit "(") d d').
  { intros d Hd.
    destruct (matched_same_place (Re.Rep 0 Re.sp +++ Re.Lit "(") c2 cf d)
      as [d' [Hd' _]]; [|exact Hd | now exists d'].
    cbn [matched]. exists c3. split; [|exact Hparen].
    exists ws. repeat split; [exact Hws | lia | exact Hl3]. }
  assert (Hfound : forall c' : Re.cursor,
             matched (func_pattern func_name) (Re.mkCursor i pv t []) c' ->
             Re.match_at (func_pattern func_name) i pv t <> None).
  { intros c' Hc'. unfold Re.match_at.
    pose proof (exec_complete (func_pattern func_name)
                  (Re.mkCursor i pv t []) c' Some Hc') as Hx.
    destruct (Re.exec (func_pattern func_name) (Re.mkCursor i pv t []) Some);
      [discriminate|].
    exfalso. apply Hx; [discriminate | reflexivity]. }
  destruct Hbranch as [Hb|Hb].
  - (* [function NAME] *)
    destruct Hb as [a [Hfun [b [[u [Hu [Hlen Hlu]]] Hgrp]]]].
    assert (Hpb : placed subject b).
    { apply (lit_placed subject _ _ _ Hlu), (lit_placed subject _ _ _ Hfun),
        Hp1. }
    destruct (matched_name_group subject 1 b c2 Hgrp Hpb)
      as [N [e [HN [HlN [Hse [Hcaps Hsub]]]]]].
    assert (Hname : func_name = N).
    { unfold group_1_or_2 in Hg.
      rewrite (group_of_span subject _ 1 (Re.pos b) (Re.pos c2) (Re.caps b))
        in Hg by (simpl; now rewrite Hcapsf, Hcaps).
      rewrite Hsub in Hg. pose proof (is_name_not_empty N HN) as Hne.
      destruct N; [contradiction|]. now inversion Hg. }
    subst func_name. split; [exact HN|].
    destruct (Htail e (same_place_sym _ _ Hse)) as [d' Hd'].
    apply (Hfound d'). unfold func_pattern. cbn [matched].
    exists c1. split; [exact Hopt|].
    exists e. split; [|exact Hd'].
    left. exists a. split; [exact Hfun|].
    exists b. split; [|exact HlN]. now exists u.
  - (* [NAME = function] *)
    destruct Hb as [g [Hgrp Hrest]].
    destruct (matched_name_group subject 2 c1 g Hgrp Hp1)
      as [N [e [HN [HlN [Hse [Hcaps Hsub]]]]]].
    assert (Hcaps2 : Re.caps c2 = Re.caps g).
    { destruct Hrest as [x1 [[u1 [_ [_ H1]]] [x2 [H2 [x3 [[u3 [_ [_ H3]]] H4]]]]]].
      destruct (lit_moves _ _ _ H1) as [_ [_ [_ E1]]].
      destruct (lit_moves _ _ _ H2) as [_ [_ [_ E2]]].
      destruct (lit_moves _ _ _ H3) as [_ [_ [_ E3]]].
      destruct (lit_moves _ _ _ H4) as [_ [_ [_ E4]]].
      now rewrite E4, E3, E2, E1. }
    assert (Hname : func_name = N).
    { unfold group_1_or_2 in Hg.
      assert (Hgroups : Re.m_groups
                          (Re.mkMatch i (Re.pos cf) (Re.caps cf))
                        = (2, (Re.pos c1, Re.pos g)) :: Re.caps c1)
        by (simpl; now rewrite Hcapsf, Hcaps2, Hcaps).
      assert (Hno1 : Re.group subject
                       (Re.mkMatch i (Re.pos cf) (Re.caps cf)) 1 = None).
      { unfold Re.group. rewrite Hgroups, Hcaps1. reflexivity. }
      rewrite Hno1 in Hg.
      rewrite (group_of_span subject _ 2 _ _ _ Hgroups), Hsub in Hg.
      now inversion Hg. }
    subst func_name. split; [exact HN|].
    destruct (matched_same_place
                (Re.Rep 0 Re.sp +++ Re.Lit "=" +++ Re.Rep 0 Re.sp
                 +++ Re.Lit "function") g c2 e Hrest
                (same_place_sym _ _ Hse)) as [e2 [He2 Hs2]].
    destruct (Htail e2 Hs2) as [d' Hd'].
    apply (Hfound d'). unfold func_pattern. cbn [matched].
    exists c1. split; [exact Hopt|].
    exists e2. split; [|exact Hd'].
    right. exists e. split; [exact HlN|]. exact He2.
Qed.

Lemma last_of_append (u : string) (a : ascii) :
  forall pv, last_of (u ++ String a EmptyString) pv = Some a.
Proof. induction u as [|b u IH]; intros pv; [reflexivity | apply IH]. Qed.

(** A match found by [finditer] is a match at the start of a suffix of
    the subject, with the cursor standing in the subject. *)
Lemma finditer_from_at (r : Re.regex) (m : Re.rmatch) (t : string) :
  forall (skip i : nat) (pv : option ascii),
    In m (Re.finditer_from r skip i pv t) ->
    exists u t',
      t = (u ++ t')%string
      /\ Re.match_at r (i + String.length u) (last_of u pv) t' = Some m.
Proof.
  induction t as [|a t IH]; intros skip i pv H.
  - simpl in H. destruct (skip =? 0); [|contradiction].
    destruct (Re.match_at r i pv EmptyString) as [m'|] eqn:Hm;
      [|contradiction].
    destruct H as [<-|[]]. exists EmptyString, EmptyString.
    simpl. now rewrite Nat.add_0_r.
  - cbn [Re.finditer_from] in H. apply in_app_or in H.
    destruct H as [H|H].
    + destruct (skip =? 0); [|contradiction].
      destruct (Re.match_at r i pv (String a t)) as [m'|] eqn:Hm;
        [|contradiction].
      destruct H as [<-|[]]. exists EmptyString, (String a t).
      simpl. now rewrite Nat.add_0_r.
    + apply IH in H. destruct H as [u [t' [-> Hm]]].
      exists (String a u), t'. split; [reflexivity|]. simpl.
      now replace (i + S (String.length u)) with (S i + String.length u)
        by lia.
Qed.

(** Where the pattern matches at some place of the subject, [finditer]
    finds a match. *)
Lemma finditer_from_finds (r : Re.regex) (u t : string) :
  forall (i : nat) (pv : option ascii),
    Re.match_at r (i + String.length u) (last_of u pv) t <> None ->
    Re.finditer_from r 0 i pv (u ++ t) <> [].
Proof.
  induction u as [|a u IH]; intros i pv H.
  - simpl in H. rewrite Nat.add_0_r in H. simpl.
    destruct t as [|b t]; cbn [Re.finditer_from]; simpl;
      destruct (Re.match_at r i pv _); try discriminate; contradiction.
  - change (String a u ++ t)%string with (String a (u ++ t)).
    cbn [Re.finditer_from]. simpl.
    destruct (Re.match_at r i pv (String a (u ++ t))); [discriminate|].
    simpl. apply IH. simpl in H.
    now replace (S i + String.length u) with (i + S (String.length u))
      by lia.
Qed.

Lemma find_function_definitions_site (self : LuaParser) (func_name : string)
  (n : nat) :
  In (func_name, n) (find_function_definitions self) ->
  In (func_name, n) (definition_sites self).
Proof.
  intros H. rewrite find_function_definitions_writes in H.
  apply (proj2 (fold_write_In (definition_sites self) [] (NoDup_nil _))) in H.
  destruct H as [[l1 [l2 [Heq _]]]|[_ []]].
  rewrite Heq. apply in_or_app. right. now left.
Qed.

(** X14. A name of the index of a file has the shape of the pattern, a
    word or two words around a dot, and [find_function_calls] and
    [check_forbidden_globals] locate it in that file: the search for the
    start of its body succeeds, at a line that is not after the line the
    index records for the name. *)
Theorem indexed_function_is_located :
  forall (self : LuaParser) (func_name : string) (n : nat),
    In (func_name, n) (find_function_definitions self) ->
    is_name func_name
    /\ exists start_pos,
         find_function_start self func_name = Some start_pos
         /\ start_pos < n.
Proof.
  intros self func_name n H.
  apply find_function_definitions_site, definition_sites_In in H.
  destruct H as [line_num [m [-> [Hlen [Hc [Hm [_ Hg]]]]]]].
  unfold Re.finditer in Hm. apply finditer_from_at in Hm.
  destruct Hm as [u [t [Hline Hm]]]. simpl in Hm.
  assert (Hp : placed (line_at self line_num)
                 (Re.mkCursor (String.length u) (last_of u None) t []))
    by now exists u.
  destruct (definition_match_located _ _ _ _ _ _ Hp Hm Hg) as [Hname Hf].
  split; [exact Hname|].
  assert (Hd : defines_at self func_name line_num = true).
  { unfold defines_at, defines_here. rewrite Hc, andb_true_r.
    unfold matches, Re.search, Re.finditer. rewrite Hline.
    pose proof (finditer_from_finds (func_pattern func_name) u t 0 None Hf)
      as Hne.
    destruct (Re.finditer_from (func_pattern func_name) 0 0 None (u ++ t));
      [contradiction | reflexivity]. }
  destruct (find_function_start self func_name) as [start_pos|] eqn:Hs.
  - exists start_pos. split; [reflexivity|].
    apply find_function_start_first in Hs. destruct Hs as [_ [_ Hfirst]].
    destruct (Nat.lt_ge_cases line_num start_pos) as [Hlt|Hge]; [|lia].
    rewrite (Hfirst line_num Hlt) in Hd. discriminate.
  - exfalso. unfold find_function_start in Hs.
    apply (find_function_start_loop_finds self func_name
             (enumerate (lines self)) line_num (line_at self line_num));
      [|exact Hd | exact Hs].
    apply nth_error_In_enumerate. unfold line_at.
    destruct (nth_error (lines self) line_num) as [l|] eqn:Hl.
    + now rewrite (nth_error_nth _ _ _ Hl).
    + apply nth_error_None in Hl. lia.
Qed.

Lemma indexed_function_is_located_witness :
  is_name "setup"
  /\ exists start_pos,
       find_function_start setup_defined_twice "setup" = Some start_pos
       /\ start_pos < 4.
Proof.
  apply (indexed_function_is_located setup_defined_twice "setup" 4).
  vm_compute. left. reflexivity.
Defined.

(** ** The names of calls *)

Lemma call_names_are_names (text func_name : string) :
  In func_name (call_names text) -> is_name func_name.
Proof.
  unfold call_names. rewrite in_flat_map. intros [m [Hm Hg]].
  destruct (Re.group text m 1) as [g|] eqn:Hgrp; [|contradiction].
  destruct Hg as [<-|[]].
  unfold Re.finditer in Hm. apply finditer_from_at in Hm.
  destruct Hm as [u [t [Htext Hm]]]. simpl in Hm.
  unfold Re.match_at in Hm.
  destruct (Re.exec call_pattern
              (Re.mkCursor (String.length u) (last_of u None) t []) Some)
    as [cf|] eqn:He; [|discriminate].
  inversion Hm; subst m. clear Hm.
  apply exec_sound in He. destruct He as [cf' [Hmat Hcf]].
  inversion Hcf; subst cf'. clear Hcf.
  unfold call_pattern in Hmat. cbn [matched] in Hmat.
  destruct Hmat as [c1 [Hgrp1 [c2 [[ws [_ [_ Hws]]] Hparen]]]].
  assert (Hp : placed text
                 (Re.mkCursor (String.length u) (last_of u None) t []))
    by now exists u.
  destruct (matched_name_group text 1 _ c1 Hgrp1 Hp)
    as [N [e [HN [_ [_ [Hcaps Hsub]]]]]].
  destruct (lit_moves _ _ _ Hws) as [_ [_ [_ E2]]].
  destruct (lit_moves _ _ _ Hparen) as [_ [_ [_ E3]]].
  assert (Hgroups : Re.m_groups
                      (Re.mkMatch (String.length u) (Re.pos cf) (Re.caps cf))
                    = (1, (String.length u, Re.pos c1)) :: [])
    by (simpl; now rewrite E3, E2, Hcaps).
  rewrite (group_of_span text _ 1 _ _ _ Hgroups) in Hgrp.
  simpl in Hsub. rewrite Hsub in Hgrp. inversion Hgrp; subst g. exact HN.
Qed.

(** X15. The names [find_on_load_functions] and [find_function_calls]
    return have the shape of the call pattern, a word or two words around
    a dot; the first never returns script, the second never returns
    function, if, for or while.  A file in which the function is not
    located has no calls. *)
Theorem call_names_are_filtered_names :
  forall (self : LuaParser),
    (forall on_load_functions func_name,
        find_on_load_functions self = Some on_load_functions ->
        In func_name on_load_functions ->
        is_name func_name /\ func_name <> "script")
    /\ (forall function_name func_name,
           In func_name (find_function_calls self function_name) ->
           is_name func_name
           /\ ~ In func_name ["function"; "if"; "for"; "while"]
           /\ find_function_start self function_name <> None).
Proof.
  intros self. split.
  - intros on_load_functions func_name H Hin.
    unfold find_on_load_functions in H.
    destruct (Re.search on_load_pattern (content self)) as [m|];
      [|discriminate].
    destruct (Re.group (content self) m 1) as [on_load_body|];
      [|discriminate].
    inversion H; subst on_load_functions. clear H.
    apply filter_In in Hin. destruct Hin as [Hin Hf]. split.
    + now apply (call_names_are_names on_load_body).
    + intros ->. discriminate.
  - intros function_name func_name Hin. unfold find_function_calls in Hin.
    destruct (find_function_start self function_name) as [start_pos|];
      [|contradiction].
    cbv zeta in Hin. apply filter_In in Hin. destruct Hin as [Hin Hf].
    split; [now apply (call_names_are_names _ _ Hin)|].
    split; [|discriminate].
    apply negb_true_iff in Hf. now apply mem_not_In.
Qed.

(** ** The files that are checked *)

Lemma walk_dirs_In (root : list string) (dirs : list (string * directory))
  (p : list string) :
  In p ((fix walk_dirs (dirs : list (string * directory))
           : list (list string) :=
           match dirs with
           | [] => []
           | (name, sub) :: more =>
               (if Py.mem name exclude_dirs then []
                else walk_lua_files (root ++ [name]) sub)
               ++ walk_dirs more
           end) dirs)
  <-> exists name sub,
        In (name, sub) dirs
        /\ Py.mem name exclude_dirs = false
        /\ In p (walk_lua_files (root ++ [name]) sub).
Proof.
  induction dirs as [|[name sub] more IH].
  - split; [contradiction | intros [n [s [[] _]]]].
  - rewrite in_app_iff, IH. split.
    + intros [H|[n [s [Hin [Hx Hp]]]]].
      * destruct (Py.mem name exclude_dirs) eqn:Hx; [contradiction|].
        exists name, sub. split; [now left | now split].
      * exists n, s. split; [now right | now split].
    + intros [n [s [[Heq|Hin] [Hx Hp]]]].
      * inversion Heq; subst. left. now rewrite Hx.
      * right. now exists n, s.
Qed.

Lemma walk_lua_files_unfold (root : list string) (d : directory)
  (p : list string) :
  In p (walk_lua_files root d)
  <-> (exists file,
          In file (files_of d) /\ endswith ".lua" file = true
          /\ p = root ++ [file])
      \/ (exists name sub,
             In (name, sub) (dirs_of d)
             /\ Py.mem name exclude_dirs = false
             /\ In p (walk_lua_files (root ++ [name]) sub)).
Proof.
  destruct d as [files dirs]. cbn [walk_lua_files files_of dirs_of].
  rewrite in_app_iff, walk_dirs_In, in_map_iff.
  split; (intros [H|H]; [left | now right]).
  - destruct H as [file [<- Hf]]. apply filter_In in Hf.
    exists file. now repeat split.
  - destruct H as [file [Hin [He ->]]]. exists file.
    split; [reflexivity|]. now apply filter_In.
Qed.

Lemma depth_of_sub (d : directory) (name : string) (sub : directory) :
  In (name, sub) (dirs_of d) -> depth_of sub < depth_of d.
Proof.
  destruct d as [files dirs]. cbn [dirs_of depth_of].
  induction dirs as [|[n s] more IH]; [contradiction|].
  intros [Heq|Hin].
  - inversion Heq; subst. lia.
  - specialize (IH Hin). lia.
Qed.

(** X16. [find_lua_files] returns exactly the files whose name ends in
    .lua and that lie in the root directory or in a directory reached
    from it through directories none of which has a name of
    [exclude_dirs]; the path of each is the root, the names of the
    directories gone through and the name of the file.  The exclusion
    reads the names of directories only: a file is kept whatever its own
    name, and nothing under an excluded directory is returned. *)
Theorem find_lua_files_walks_unexcluded_directories :
  forall (project_root : list string) (tree : directory) (p : list string),
    In p (find_lua_files project_root tree)
    <-> exists names d file,
          reaches tree names d
          /\ Forall (fun name => Py.mem name exclude_dirs = false) names
          /\ In file (files_of d)
          /\ endswith ".lua" file = true
          /\ p = project_root ++ names ++ [file].
Proof.
  unfold find_lua_files. intros project_root tree.
  remember (depth_of tree) as n eqn:Hn.
  revert project_root tree Hn.
  induction n as [n IH] using lt_wf_ind. intros root tree Hn p.
  rewrite walk_lua_files_unfold. split.
  - intros [[file [Hf [He ->]]]|[name [sub [Hin [Hx Hp]]]]].
    + exists [], tree, file. repeat split; try assumption; constructor.
    + apply (IH (depth_of sub)) in Hp;
        [|subst n; now apply (depth_of_sub tree name) | reflexivity].
      destruct Hp as [names [d [file [Hr [Hall [Hf [He ->]]]]]]].
      exists (name :: names), d, file. split.
      * now apply (reaches_down tree name sub).
      * split; [now constructor|]. split; [exact Hf|].
        split; [exact He|]. now rewrite <- app_assoc.
  - intros [names [d [file [Hr [Hall [Hf [He ->]]]]]]].
    inversion Hr as [|? name sub names' ? Hin Hr']; subst.
    + left. now exists file.
    + right. exists name, sub. inversion Hall; subst.
      split; [exact Hin|]. split; [assumption|].
      apply (IH (depth_of sub));
        [now apply (depth_of_sub tree name) | reflexivity|].
      exists names', d, file. repeat split; try assumption.
      now rewrite <- app_assoc.
Qed.

(** The walk at work: the file tests.lua of the root is kept, the
    directories named tests are pruned at every depth. *)
Example find_lua_files_project_tree :
  find_lua_files ["mod"] project_tree
  = [["mod"; "control.lua"]; ["mod"; "tests.lua"];
     ["mod"; "scripts"; "core.lua"]].
Proof. vm_compute. reflexivity. Qed.

(** ** The placement of require statements *)

Lemma group_of_first_span (subject : string) (i e n a b : nat)
  (caps more : list (nat * (nat * nat))) :
  caps = (n, (a, b)) :: more ->
  Re.group subject (Re.mkMatch i e caps) n <> None.
Proof.
  intros ->. unfold Re.group. simpl. rewrite Nat.eqb_refl. discriminate.
Qed.

(** The name kept for a function is never [None]: the group read for it
    takes part in every match of the two patterns. *)
Lemma name_of_function_some (stripped : string) :
  RequirePlacement.name_of_function stripped <> None.
Proof.
  unfold RequirePlacement.name_of_function, RequirePlacement.re_match.
  destruct (Re.match_at RequirePlacement.named_function_statement 0 None
              stripped) as [m|] eqn:Hm.
  - unfold Re.match_at in Hm.
    destruct (Re.exec RequirePlacement.named_function_statement
                (Re.mkCursor 0 None stripped []) Some) as [cf|] eqn:He;
      [|discriminate].
    inversion Hm; subst m. clear Hm.
    apply exec_sound in He. destruct He as [cf' [Hmat Hcf]].
    inversion Hcf; subst cf'. clear Hcf.
    unfold RequirePlacement.named_function_statement in Hmat.
    cbn [matched] in Hmat.
    destruct Hmat as [c1 [_ [c2 [_ [c3 [_ [c4 [_ ->]]]]]]]].
    now apply (group_of_first_span stripped _ _ 1 (Re.pos c3) (Re.pos c4)
                 _ (Re.caps c4)).
  - destruct (Re.search RequirePlacement.function_assignment stripped)
      as [m|] eqn:Hs; [|discriminate].
    unfold Re.search, Re.finditer in Hs.
    destruct (Re.finditer_from RequirePlacement.function_assignment 0 0 None
                stripped) as [|m' ms] eqn:Hf; [discriminate|].
    inversion Hs; subst m'. clear Hs.
    assert (Hin : In m (Re.finditer_from RequirePlacement.function_assignment
                          0 0 None stripped)) by (rewrite Hf; now left).
    apply finditer_from_at in Hin. destruct Hin as [u [t [_ Hat]]].
    unfold Re.match_at in Hat.
    destruct (Re.exec RequirePlacement.function_assignment
                (Re.mkCursor (0 + String.length u) (last_of u None) t [])
                Some) as [cf|] eqn:He; [|discriminate].
    inversion Hat; subst m. clear Hat.
    apply exec_sound in He. destruct He as [cf' [Hmat Hcf]].
    inversion Hcf; subst cf'. clear Hcf.
    unfold RequirePlacement.function_assignment in Hmat.
    cbn [matched] in Hmat.
    destruct Hmat as [c1 [[c0 [_ Hc1]] [c2 [[x2 [_ [_ H2]]] [c3 [H3
                     [c4 [[x4 [_ [_ H4]]] [c5 [H5 [c6 [[x6 [_ [_ H6]]] H7]]]]]]]]]]]].
    destruct (lit_moves _ _ _ H2) as [_ [_ [_ E2]]].
    destruct (lit_moves _ _ _ H3) as [_ [_ [_ E3]]].
    destruct (lit_moves _ _ _ H4) as [_ [_ [_ E4]]].
    destruct (lit_moves _ _ _ H5) as [_ [_ [_ E5]]].
    destruct (lit_moves _ _ _ H6) as [_ [_ [_ E6]]].
    destruct (lit_moves _ _ _ H7) as [_ [_ [_ E7]]].
    apply (group_of_first_span stripped _ _ 1
             (Re.pos (Re.mkCursor (0 + String.length u) (last_of u None) t []))
             (Re.pos c0) _ (Re.caps c0)).
    rewrite E7, E6, E5, E4, E3, E2, Hc1. reflexivity.
Qed.

Lemma track_invariant (stripped : string) (st : RequirePlacement.state) :
  placement_invariant st ->
  placement_invariant (RequirePlacement.track stripped st).
Proof.
  unfold placement_invariant, RequirePlacement.track.
  destruct st as [inf fd name bd]. simpl. intros [Hle [Hin [Hname Hkept]]].
  destruct (RequirePlacement.starts_function stripped).
  - destruct inf; simpl.
    + repeat split; [lia | | discriminate | exact Hkept].
      symmetry. apply Nat.ltb_lt. lia.
    + repeat split; [lia | | discriminate |].
      * symmetry. apply Nat.ltb_lt. lia.
      * intros _. apply name_of_function_some.
  - destruct (RequirePlacement.keyword_in_words stripped).
    + destruct (RequirePlacement.opens_block stripped); simpl;
        repeat split; try assumption; lia.
    + destruct (RequirePlacement.closes_block stripped);
        [|now repeat split].
      destruct (Nat.ltb_spec 0 bd) as [Hbd|Hbd]; [|now repeat split].
      destruct inf; simpl.
      * symmetry in Hin. apply Nat.ltb_lt in Hin.
        destruct (Nat.ltb_spec 0 fd) as [_|Hfd]; [|lia].
        destruct (Nat.eqb_spec (fd - 1) 0) as [He|He]; simpl.
        -- repeat split; [lia | now rewrite He | discriminate].
        -- repeat split; [lia | | discriminate | exact Hkept].
           symmetry. apply Nat.ltb_lt. lia.
      * symmetry in Hin. apply Nat.ltb_ge in Hin.
        repeat split; [lia | | exact Hname | discriminate].
        symmetry. apply Nat.ltb_ge. lia.
Qed.

Lemma init_invariant : placement_invariant RequirePlacement.init.
Proof.
  unfold placement_invariant. simpl.
  repeat split; [lia | discriminate].
Qed.

Lemma placement_state_from_invariant (ls : list string) :
  forall flag st,
    placement_invariant st ->
    placement_invariant (placement_state_from flag st ls).
Proof.
  induction ls as [|line more IH]; intros flag st Hst; [exact Hst|].
  simpl. destruct (comment_step line flag) as [flag' scanned].
  apply IH. destruct scanned; [now apply track_invariant | exact Hst].
Qed.

Lemma placement_state_from_snoc (ls : list string) (line : string) :
  forall flag st,
    placement_state_from flag st (ls ++ [line])
    = if snd (comment_step line (comment_flag_from flag ls))
      then RequirePlacement.track (strip (remove_comments_from_line line))
             (placement_state_from flag st ls)
      else placement_state_from flag st ls.
Proof.
  induction ls as [|x ls IH]; intros flag st.
  - cbn [app placement_state_from comment_flag_from fold_left].
    now destruct (comment_step line flag) as [flag' scanned].
  - cbn [app placement_state_from].
    destruct (comment_step x flag) as [flag' scanned] eqn:Hs.
    rewrite IH. unfold comment_flag_from. cbn [fold_left].
    now rewrite Hs.
Qed.

(** X17. The counters of [check_require_placement].  Whatever lines have
    been read, the depth of functions is at most the depth of blocks,
    the loop is inside a function exactly when the depth of functions is
    above 0, no function name is kept outside a function, and inside a
    function a name is always kept: the message never shows None. *)
Theorem require_placement_counters :
  forall (before : list string),
    placement_invariant (placement_state_after before).
Proof.
  intros before. apply placement_state_from_invariant, init_invariant.
Qed.

Lemma require_check_lines_In (filepath : string) (ls : list string) :
  forall (a : nat) (flag : bool) (st : RequirePlacement.state)
         (e : lint),
    In e (RequirePlacement.check_lines filepath
            (combine (seq a (List.length ls)) ls) flag st)
    <-> exists before line after,
          ls = before ++ line :: after
          /\ snd (comment_step line (comment_flag_from flag before)) = true
          /\ In e (RequirePlacement.require_error filepath
                     (a + List.length before)
                     (strip (remove_comments_from_line line))
                     (RequirePlacement.track
                        (strip (remove_comments_from_line line))
                        (placement_state_from flag st before))).
Proof.
  induction ls as [|x ls IH]; intros a flag st e.
  - simpl. split; [contradiction|].
    intros [before [line [after [H _]]]]. destruct before; discriminate.
  - cbn [List.length seq combine RequirePlacement.check_lines].
    destruct (comment_step x flag) as [flag' scanned] eqn:Hstep.
    assert (Htail :
              (exists before line after,
                  ls = before ++ line :: after
                  /\ snd (comment_step line (comment_flag_from flag' before))
                     = true
                  /\ In e (RequirePlacement.require_error filepath
                             (S a + List.length before)
                             (strip (remove_comments_from_line line))
                             (RequirePlacement.track
                                (strip (remove_comments_from_line line))
                                (placement_state_from flag'
                                   (if scanned
                                    then RequirePlacement.track
                                           (strip
                                              (remove_comments_from_line x))
                                           st
                                    else st) before))))
              <-> exists before line after,
                    x :: ls = (x :: before) ++ line :: after
                    /\ snd (comment_step line
                              (comment_flag_from flag (x :: before))) = true
                    /\ In e (RequirePlacement.require_error filepath
                               (a + List.length (x :: before))
                               (strip (remove_comments_from_line line))
                               (RequirePlacement.track
                                  (strip (remove_comments_from_line line))
                                  (placement_state_from flag st
                                     (x :: before))))).
    { split; intros [before [line [after [Heq [Hs He]]]]];
        exists before, line, after.
      - subst ls. split; [reflexivity|].
        unfold comment_flag_from in *. cbn [fold_left placement_state_from
                                             List.length].
        rewrite Hstep. cbn [fst].
        split; [exact Hs|]. now rewrite Nat.add_succ_r.
      - inversion Heq; subst ls.
        split; [reflexivity|].
        unfold comment_flag_from in *.
        cbn [fold_left placement_state_from List.length] in Hs, He.
        rewrite Hstep in Hs, He. cbn [fst] in Hs.
        split; [exact Hs|]. now rewrite Nat.add_succ_r in He. }
    assert (Hhead : forall before line after,
               x :: ls = before ++ line :: after ->
               before = []
               \/ exists before', before = x :: before').
    { intros [|b before] line after Heq; [now left|].
      right. inversion Heq. now exists before. }
    destruct scanned.
    + rewrite in_app_iff, IH, Htail. split.
      * intros [H|[before [line [after [Heq [Hs He]]]]]].
        -- exists [], x, ls. split; [reflexivity|].
           unfold comment_flag_from.
           cbn [fold_left List.length placement_state_from].
           rewrite Hstep. split; [reflexivity|]. now rewrite Nat.add_0_r.
        -- now exists (x :: before), line, after.
      * intros [before [line [after [Heq [Hs He]]]]].
        destruct (Hhead _ _ _ Heq) as [->|[before' ->]].
        -- left. simpl in Heq. inversion Heq; subst.
           cbn [List.length placement_state_from] in He.
           now rewrite Nat.add_0_r in He.
        -- right. now exists before', line, after.
    + rewrite IH, Htail. split.
      * intros [before [line [after [Heq [Hs He]]]]].
        now exists (x :: before), line, after.
      * intros [before [line [after [Heq [Hs He]]]]].
        destruct (Hhead _ _ _ Heq) as [->|[before' ->]].
        -- simpl in Heq. inversion Heq; subst.
           unfold comment_flag_from in Hs. cbn [fold_left] in Hs.
           rewrite Hstep in Hs. discriminate.
        -- now exists before', line, after.
Qed.

Lemma require_check_lines_sorted (filepath : string) (ls : list string) :
  forall (a : nat) (flag : bool) (st : RequirePlacement.state),
    StronglySorted lt
      (map line_of
         (RequirePlacement.check_lines filepath
            (combine (seq a (List.length ls)) ls) flag st))
    /\ Forall (fun n => a <= n < a + List.length ls)
         (map line_of
            (RequirePlacement.check_lines filepath
               (combine (seq a (List.length ls)) ls) flag st)).
Proof.
  induction ls as [|x ls IH]; intros a flag st.
  - simpl. split; constructor.
  - cbn [List.length seq combine RequirePlacement.check_lines].
    destruct (comment_step x flag) as [flag' scanned].
    assert (Hwiden : forall l,
               Forall (fun n => S a <= n < S a + List.length ls) l ->
               Forall (fun n => a <= n < a + S (List.length ls)) l).
    { intros l Hl. eapply Forall_impl; [|exact Hl]. simpl. intros n Hn. lia. }
    destruct scanned.
    + destruct (IH (S a) flag'
                  (RequirePlacement.track
                     (strip (remove_comments_from_line x)) st)) as [Hs Hb].
      unfold RequirePlacement.require_error.
      destruct (RequirePlacement.is_require
                  (strip (remove_comments_from_line x)));
        [|split; [exact Hs | now apply Hwiden]].
      assert (Hcons : forall msg,
                 StronglySorted lt
                   (map line_of
                      ([(filepath, a, msg)]
                       ++ RequirePlacement.check_lines filepath
                            (combine (seq (S a) (List.length ls)) ls) flag'
                            (RequirePlacement.track
                               (strip (remove_comments_from_line x)) st)))
                 /\ Forall (fun n => a <= n < a + S (List.length ls))
                      (map line_of
                         ([(filepath, a, msg)]
                          ++ RequirePlacement.check_lines filepath
                               (combine (seq (S a) (List.length ls)) ls)
                               flag'
                               (RequirePlacement.track
                                  (strip (remove_comments_from_line x))
                                  st)))).
      { intros msg. simpl. split.
        - constructor; [exact Hs|].
          eapply Forall_impl; [|exact Hb]. simpl. unfold line_of. simpl.
          intros n Hn. lia.
        - constructor; [unfold line_of; simpl; lia | now apply Hwiden]. }
      destruct (RequirePlacement.in_function
                  (RequirePlacement.track
                     (strip (remove_comments_from_line x)) st));
        [apply Hcons|].
      destruct (0 <? RequirePlacement.block_depth
                       (RequirePlacement.track
                          (strip (remove_comments_from_line x)) st));
        [apply Hcons | split; [exact Hs | now apply Hwiden]].
    + destruct (IH (S a) flag' st) as [Hs Hb].
      split; [exact Hs | now apply Hwiden].
Qed.

Lemma require_error_In (filepath : string) (line_num : nat)
  (stripped : string) (st : RequirePlacement.state) (p : string) (n : nat)
  (msg : string) :
  placement_invariant st ->
  In (p, n, msg)
    (RequirePlacement.require_error filepath line_num stripped st)
  <-> p = filepath /\ n = line_num
      /\ RequirePlacement.is_require stripped = true
      /\ 0 < RequirePlacement.block_depth st
      /\ msg = (if RequirePlacement.in_function st
                then RequirePlacement.inside_function
                       (RequirePlacement.function_name st)
                else RequirePlacement.inside_block).
Proof.
  intros [Hle [Hin _]]. unfold RequirePlacement.require_error.
  destruct (RequirePlacement.is_require stripped).
  - destruct (RequirePlacement.in_function st).
    + symmetry in Hin. apply Nat.ltb_lt in Hin. split.
      * intros [H|[]]. inversion H; subst. repeat split. lia.
      * intros [-> [-> [_ [_ ->]]]]. now left.
    + destruct (Nat.ltb_spec 0 (RequirePlacement.block_depth st)) as [Hb|Hb].
      * split.
        -- intros [H|[]]. inversion H; subst. now repeat split.
        -- intros [-> [-> [_ [_ ->]]]]. now left.
      * split; [contradiction|]. intros [_ [_ [_ [H _]]]]. lia.
  - split; [contradiction|]. intros [_ [_ [H _]]]. discriminate.
Qed.

(** X18. [check_require_placement] reports, under the path it was given,
    exactly the lines that go on to the test, hold a require statement
    and stand at a depth of blocks above 0 once the line itself has been
    tracked; the message names the function when the loop is inside one
    and speaks of blocks otherwise; and one diagnostic at line 0 follows
    when reading raises.  The line numbers rise strictly, so a line is
    reported once even when several patterns are found on it. *)
Theorem check_require_placement_reports :
  forall (filepath : string) (file : reading),
    (forall p n msg,
        In (p, n, msg)
          (RequirePlacement.check_require_placement filepath file)
        <-> p = filepath
            /\ ((exists before line after,
                    yielded file = before ++ line :: after
                    /\ n = List.length before + 1
                    /\ line_scanned before line = true
                    /\ RequirePlacement.is_require
                         (strip (remove_comments_from_line line)) = true
                    /\ 0 < RequirePlacement.block_depth
                             (placement_state_after (before ++ [line]))
                    /\ msg
                       = (if RequirePlacement.in_function
                               (placement_state_after (before ++ [line]))
                          then RequirePlacement.inside_function
                                 (RequirePlacement.function_name
                                    (placement_state_after
                                       (before ++ [line])))
                          else RequirePlacement.inside_block))
                \/ (n = 0
                    /\ exists e,
                         raised file = Some e
                         /\ msg = ("Failed to read file: " ++ e)%string)))
    /\ (exists reported,
           RequirePlacement.check_require_placement filepath file
           = reported ++ failed_to_read filepath file
           /\ StronglySorted lt (map line_of reported)
           /\ Forall (fun n => 1 <= n <= List.length (yielded file))
                (map line_of reported)).
Proof.
  intros filepath file.
  unfold RequirePlacement.check_require_placement, read_file_lines. split.
  - intros p n msg. rewrite in_app_iff, require_check_lines_In.
    assert (Hstate : forall before line,
               line_scanned before line = true ->
               RequirePlacement.track
                 (strip (remove_comments_from_line line))
                 (placement_state_from false RequirePlacement.init before)
               = placement_state_after (before ++ [line])).
    { intros before line Hs. unfold placement_state_after.
      rewrite placement_state_from_snoc.
      unfold line_scanned, in_multiline_comment_after in Hs.
      now rewrite Hs. }
    split.
    + intros [[before [line [after [Heq [Hs He]]]]]|H].
      * rewrite (Hstate before line Hs) in He.
        apply require_error_In in He;
          [|apply placement_state_from_invariant, init_invariant].
        destruct He as [-> [-> [Hr [Hb ->]]]].
        split; [reflexivity|]. left. exists before, line, after.
        repeat split; try assumption. lia.
      * unfold failed_to_read in H.
        destruct (raised file) as [e|]; [|contradiction].
        destruct H as [H|[]]. inversion H; subst.
        split; [reflexivity|]. right. split; [reflexivity|]. now exists e.
    + intros [-> [[before [line [after [Heq [-> [Hs [Hr [Hb ->]]]]]]]]
                 |[-> [e [He ->]]]]].
      * left. exists before, line, after. split; [exact Heq|].
        split; [exact Hs|]. rewrite (Hstate before line Hs).
        apply require_error_In;
          [apply placement_state_from_invariant, init_invariant|].
        repeat split; try assumption. lia.
      * right. unfold failed_to_read. rewrite He. now left.
  - eexists. split; [reflexivity|].
    destruct (require_check_lines_sorted filepath (yielded file) 1 false
                RequirePlacement.init) as [Hs Hb].
    split; [exact Hs|].
    eapply Forall_impl; [|exact Hb]. simpl. intros n Hn. lia.
Qed.

(** A block closed inside a function: the [end] of the block ends the
    function for the loop, and the require statement after it is
    reported as inside a block; the one at top level is not reported. *)
Example check_require_placement_after_inner_end :
  RequirePlacement.check_require_placement "control.lua" require_in_nested_if
  = [("control.lua", 4, RequirePlacement.inside_block)].
Proof. vm_compute. reflexivity. Qed.

(** ** The patterns for require statements *)

Lemma last_of_app (u w : string) :
  forall pv, last_of (u ++ w) pv = last_of w (last_of u pv).
Proof. induction u as [|a u IH]; intros pv; [reflexivity | apply IH]. Qed.

Lemma matches_at (r : Re.regex) (s : string) :
  matches r s = true ->
  exists u t m,
    s = (u ++ t)%string
    /\ Re.match_at r (String.length u) (last_of u None) t = Some m.
Proof.
  unfold matches, Re.search, Re.finditer. intros H.
  destruct (Re.finditer_from r 0 0 None s) as [|m ms] eqn:Hf; [discriminate|].
  assert (Hin : In m (Re.finditer_from r 0 0 None s))
    by (rewrite Hf; now left).
  apply finditer_from_at in Hin. destruct Hin as [u [t [Hs Hm]]].
  now exists u, t, m.
Qed.

Lemma matches_found (r : Re.regex) (u t : string) :
  Re.match_at r (String.length u) (last_of u None) t <> None ->
  matches r (u ++ t) = true.
Proof.
  intros H. unfold matches, Re.search, Re.finditer.
  pose proof (finditer_from_finds r u t 0 None H) as Hne.
  destruct (Re.finditer_from r 0 0 None (u ++ t));
    [contradiction | reflexivity].
Qed.

Lemma match_at_matched (r : Re.regex) (i : nat) (pv : option ascii)
  (t : string) (m : Re.rmatch) :
  Re.match_at r i pv t = Some m ->
  exists cf, matched r (Re.mkCursor i pv t []) cf.
Proof.
  unfold Re.match_at. intros H.
  destruct (Re.exec r (Re.mkCursor i pv t []) Some) as [cf|] eqn:He;
    [|discriminate].
  apply exec_sound in He. destruct He as [c' [Hm _]]. now exists c'.
Qed.

Lemma matched_match_at (r : Re.regex) (i : nat) (pv : option ascii)
  (t : string) (cf : Re.cursor) :
  matched r (Re.mkCursor i pv t []) cf ->
  Re.match_at r i pv t <> None.
Proof.
  intros H. unfold Re.match_at.
  pose proof (exec_complete r (Re.mkCursor i pv t []) cf Some H) as Hx.
  destruct (Re.exec r (Re.mkCursor i pv t []) Some); [discriminate|].
  exfalso. apply Hx; [discriminate | reflexivity].
Qed.

Lemma lit_then (a b : string) (c c1 c2 : Re.cursor) :
  Re.lit a c = Some c1 -> Re.lit b c1 = Some c2 ->
  Re.lit (a ++ b) c = Some c2.
Proof. intros Ha Hb. now rewrite lit_append, Ha. Qed.

(** A subject in which a pattern that begins with a literal is found
    holds the literal. *)
Lemma matches_literal_contains (word : string) (r : Re.regex) (s : string) :
  matches (Re.Lit word +++ r) s = true -> Py.contains s word = true.
Proof.
  intros H. apply matches_at in H. destruct H as [u [t [m [-> Hm]]]].
  apply match_at_matched in Hm. destruct Hm as [cf Hm].
  cbn [matched] in Hm. destruct Hm as [c1 [Hl _]].
  apply lit_startswith in Hl. simpl in Hl.
  unfold Py.contains, Py.find.
  destruct (Z.eqb_spec (Py.find_from word (u ++ t) 0) (-1)) as [He|_];
    [|reflexivity].
  exfalso. now apply (find_from_suffix word u t Hl 0).
Qed.

(** Where a require statement after [local NAME =] is found, the
    require statement alone is found. *)
Lemma local_require_is_require (opener s : string) :
  matches (RequirePlacement.local_require_before opener) s = true ->
  matches (RequirePlacement.require_before opener) s = true.
Proof.
  intros H. apply matches_at in H. destruct H as [u [t [m [-> Hm]]]].
  apply match_at_matched in Hm. destruct Hm as [cf Hm].
  unfold RequirePlacement.local_require_before in Hm. cbn [matched] in Hm.
  destruct Hm as [c1 [H1 [c2 [[x2 [_ [_ H2]]] [c3 [[x3 [_ [_ H3]]]
                 [c4 [[x4 [_ [_ H4]]] [c5 [H5 [c6 [[x6 [_ [_ H6]]] Hreq]]]]]]]]]]]].
  assert (Hl : exists w,
             Re.lit w (Re.mkCursor (String.length u) (last_of u None) t [])
             = Some c6).
  { eexists.
    exact (lit_then _ _ _ _ _
             (lit_then _ _ _ _ _
                (lit_then _ _ _ _ _
                   (lit_then _ _ _ _ _
                      (lit_then _ _ _ _ _ H1 H2) H3) H4) H5) H6). }
  destruct Hl as [w Hl].
  destruct (lit_moves _ _ _ Hl) as [Hrest [Hpos [Hprev Hcaps]]].
  cbn [Re.rest Re.pos Re.prev Re.caps] in Hrest, Hpos, Hprev, Hcaps.
  rewrite Hrest, <- append_assoc.
  apply matches_found.
  rewrite length_append, last_of_app, <- Hpos, <- Hprev.
  apply (matched_match_at _ _ _ _ cf).
  destruct c6 as [pos6 prev6 rest6 caps6].
  cbn [Re.rest Re.pos Re.prev Re.caps] in *. now subst caps6.
Qed.

(** X19. The test for a require statement comes down to three of its
    patterns.  A line holds a require statement for
    [check_require_placement] exactly when the word require, blanks or
    none, and then an opening parenthesis, a double quote or a single
    quote are found in it: the three patterns that begin with local
    never decide, and neither does the test that the line holds the word
    require. *)
Theorem require_test_is_three_patterns :
  forall (stripped : string),
    RequirePlacement.is_require stripped
    = existsb
        (fun opener =>
           matches (RequirePlacement.require_before opener) stripped)
        RequirePlacement.openers.
Proof.
  intros stripped.
  unfold RequirePlacement.is_require, RequirePlacement.require_patterns.
  unfold RequirePlacement.openers. cbn [map app existsb].
  pose proof (matches_literal_contains "require"
                (Re.Rep 0 Re.sp +++ Re.Lit "(") stripped) as Hc1.
  pose proof (matches_literal_contains "require"
                (Re.Rep 0 Re.sp +++ Re.Lit (String Py.dquote EmptyString))
                stripped) as Hc2.
  pose proof (matches_literal_contains "require"
                (Re.Rep 0 Re.sp +++ Re.Lit (String Py.squote EmptyString))
                stripped) as Hc3.
  pose proof (local_require_is_require "(" stripped) as Hl1.
  pose proof (local_require_is_require (String Py.dquote EmptyString)
                stripped) as Hl2.
  pose proof (local_require_is_require (String Py.squote EmptyString)
                stripped) as Hl3.
  fold (RequirePlacement.require_before "(") in Hc1.
  fold (RequirePlacement.require_before (String Py.dquote EmptyString))
    in Hc2.
  fold (RequirePlacement.require_before (String Py.squote EmptyString))
    in Hc3.
  destruct (matches (RequirePlacement.require_before "(") stripped);
    destruct (matches
                (RequirePlacement.require_before
                   (String Py.dquote EmptyString)) stripped);
    destruct (matches
                (RequirePlacement.require_before
                   (String Py.squote EmptyString)) stripped);
    destruct (matches (RequirePlacement.local_require_before "(") stripped);
    destruct (matches
                (RequirePlacement.local_require_before
                   (String Py.dquote EmptyString)) stripped);
    destruct (matches
                (RequirePlacement.local_require_before
                   (String Py.squote EmptyString)) stripped);
    destruct (Py.contains stripped "require");
    simpl; try reflexivity;
    try (discriminate (Hc1 eq_refl)); try (discriminate (Hc2 eq_refl));
    try (discriminate (Hc3 eq_refl)); try (discriminate (Hl1 eq_refl));
    try (discriminate (Hl2 eq_refl)); try (discriminate (Hl3 eq_refl)).
Qed.

(** ** The in-string tests at the bounds *)

Lemma take_all (n : nat) (s : string) :
  String.length s <= n -> Py.take n s = s.
Proof.
  revert n. induction s as [|c s IH]; intros n Hn.
  - now destruct n.
  - destruct n as [|n]; simpl in *; [lia|]. rewrite IH; [reflexivity | lia].
Qed.

(** X20. The in-string test of conftest.py reads only the text before
    the position.  At a position at or below 0 it is false; at a position
    at or beyond the end of the line it is what it is at the end of the
    line; and two lines with the same text before the position get the
    same answer, whatever follows: a quote that is opened before the
    position and closed after it counts as open. *)
Theorem in_string_test_reads_the_prefix :
  forall (line : string) (position : Z),
    ((position <= 0)%Z -> is_in_string_literal line position = false)
    /\ ((Z.of_nat (String.length line) <= position)%Z ->
        is_in_string_literal line position
        = is_in_string_literal line (Z.of_nat (String.length line)))
    /\ (forall line',
           Py.take (Z.to_nat position) line'
           = Py.take (Z.to_nat position) line ->
           is_in_string_literal line' position
           = is_in_string_literal line position).
Proof.
  intros line position.
  split; [|split].
  - intros Hp.
    rewrite is_in_string_literal_is_in_string, _is_in_string_after_backslash.
    unfold in_string_after_backslash.
    replace (Z.to_nat position) with 0 by lia. reflexivity.
  - intros Hp.
    rewrite !is_in_string_literal_is_in_string,
      !_is_in_string_after_backslash.
    unfold in_string_after_backslash.
    rewrite Nat2Z.id, !take_all by lia. reflexivity.
  - intros line' Heq.
    rewrite !is_in_string_literal_is_in_string,
      !_is_in_string_after_backslash.
    unfold in_string_after_backslash. now rewrite Heq.
Qed.
